(** * Instance lifecycle manager of [frontend/baileys-service.js]

    A shallow embedding of the instance catalog ([InstanceStore]), the
    session registry ([BaileysManager]), the message-content builder
    ([buildMessageContent]) and the [POST /messages] handler, followed by
    the properties of the specification that concern them.

    Conventions of the embedding.
    - A JavaScript string is a [string]: the bytes of its UTF-8 encoding.
    - A JavaScript value is a [JsVal]. A finite number is an integer
      ([Z]): the modelled code only inspects whether a number is zero, and
      time stamps ([Date.now()]) are integral milliseconds. [NaN] and the
      two infinities, which [JSON.stringify] writes as [null], are values
      of their own. An object is the list of its own properties in the
      order in which they are enumerated.
    - A [Map] keyed by instance identifier is a [gmap string _], with the
      entries whose key is not a string kept beside it; the order in which
      a [Map] enumerates its entries is not tracked.
    - Paths are those of a POSIX file system that keeps names byte for
      byte. [fsp.readFile], [fsp.writeFile], [useMultiFileAuthState],
      [QRCode.toDataURL] and [fsp.rm], on a path without NUL, are taken
      to complete: the service has no handler for their failure. A
      removal whose path leaves [SESSIONS_DIR] is followed as far as the
      loss of the catalog file; a write that fails afterwards, because
      [DATA_DIR] itself is gone, is not, and what is said of the file
      after a removal is said of paths that stay in [SESSIONS_DIR], or of
      what the loss of the file leaves true. The
      capabilities of the chat client ([logout], [ws.close],
      [sendMessage], opening a socket) may fail, and the model says how.
    - A method runs to its end before the next request or event is
      taken up: what may interleave at an [await] is not modelled. *)

From Stdlib Require Import ZArith Ascii String List Lia.
From stdpp Require Import gmap strings list.

Local Open Scope string_scope.
Set Warnings "-register-all".

(** ** JavaScript values *)

Module Js.

Inductive JsVal : Type :=
| JUndefined
| JNull
| JBool (b : bool)
| JNum (n : Z)
| JNaN
| JInfinity (negative : bool)
| JStr (s : string)
| JArr (items : list JsVal)
| JObj (fields : list (string * JsVal)).

(** What a [throw] carries: [new Error(message)] with its optional
    [code] property, the [TypeError] of a property read on [undefined]
    or [null], or the [SyntaxError] of [JSON.parse]. *)
Inductive Exn : Type :=
| Error (code : option string) (message : string)
| TypeError
| SyntaxError.

Inductive result (A : Type) : Type :=
| Ok (a : A)
| Throw (e : Exn).
Arguments Ok {A} a.
Arguments Throw {A} e.

Definition bind {A B : Type} (r : result A) (k : A -> result B) : result B :=
  match r with
  | Ok a => k a
  | Throw e => Throw e
  end.

Declare Scope js_scope.
Delimit Scope js_scope with js.
Notation "x <- e ;; k" := (bind e (fun x => k))
  (at level 100, e at next level, right associativity) : js_scope.

(** [typeof v] *)
Definition typeof (v : JsVal) : string :=
  match v with
  | JUndefined => "undefined"
  | JNull => "object"
  | JBool _ => "boolean"
  | JNum _ => "number"
  | JNaN => "number"
  | JInfinity _ => "number"
  | JStr _ => "string"
  | JArr _ => "object"
  | JObj _ => "object"
  end.

(** [ToBoolean v]: what [!v], [v && _], [v || _] and [if (v)] test. *)
Definition truthy (v : JsVal) : bool :=
  match v with
  | JUndefined => false
  | JNull => false
  | JBool b => b
  | JNum n => negb (n =? 0)%Z
  | JNaN => false
  | JInfinity _ => true
  | JStr s => negb (String.eqb s "")
  | JArr _ => true
  | JObj _ => true
  end.

(** [a || b] *)
Definition or_else (a b : JsVal) : JsVal := if truthy a then a else b.

Fixpoint lookup_field (k : string) (fields : list (string * JsVal)) : option JsVal :=
  match fields with
  | [] => None
  | (k', v) :: rest => if String.eqb k k' then Some v else lookup_field k rest
  end.

(** [o[k] = v] on the own properties of an object: an existing key keeps
    its place, a new one goes last. *)
Fixpoint set_field (k : string) (v : JsVal) (fields : list (string * JsVal))
  : list (string * JsVal) :=
  match fields with
  | [] => [(k, v)]
  | (k', v') :: rest =>
      if String.eqb k k' then (k, v) :: rest else (k', v') :: set_field k v rest
  end.

(** [v.k] for the property names the service reads ([message], [type],
    [text], [mediaUrl], [caption], [mimetype], [mediaType], [key], [id]):
    none of them is defined on a prototype, so only an object's own
    properties can answer; a read on [undefined] or [null] throws. *)
Definition member (v : JsVal) (k : string) : result JsVal :=
  match v with
  | JUndefined | JNull => Throw TypeError
  | JObj fields => Ok (default JUndefined (lookup_field k fields))
  | _ => Ok JUndefined
  end.

(** [v?.k] *)
Definition member_opt (v : JsVal) (k : string) : JsVal :=
  match v with
  | JObj fields => default JUndefined (lookup_field k fields)
  | _ => JUndefined
  end.

(** *** Strings *)

Definition bytes (s : string) : list N := map N_of_ascii (list_ascii_of_string s).
Definition of_bytes (l : list N) : string := string_of_list_ascii (map ascii_of_N l).

(** The white space and line terminators of ECMAScript, as UTF-8:
    U+0009..U+000D and U+0020 in one byte; U+00A0 in two; U+1680,
    U+2000..U+200A, U+2028, U+2029, U+202F, U+205F, U+3000 and U+FEFF in
    three. *)
Definition ws1 (a : N) : bool := ((9 <=? a) && (a <=? 13) || (a =? 32))%N.

Definition ws2 (a b : N) : bool := ((a =? 194) && (b =? 160))%N.

Definition ws3 (a b c : N) : bool :=
  ((a =? 225) && (b =? 154) && (c =? 128)
   || (a =? 226) && (b =? 128)
      && ((128 <=? c) && (c <=? 138) || (c =? 168) || (c =? 169) || (c =? 175))
   || (a =? 226) && (b =? 129) && (c =? 159)
   || (a =? 227) && (b =? 128) && (c =? 128)
   || (a =? 239) && (b =? 187) && (c =? 191))%N.

(** Drops the white space at the head of a byte sequence. [fwd] tells
    how the bytes of one character are laid out: first to last when the
    sequence is read forwards, last to first when it is the reversed
    string, read from its end. *)
Fixpoint strip (fwd : bool) (l : list N) : list N :=
  match l with
  | [] => []
  | a :: t =>
      if ws1 a then strip fwd t
      else
        match t with
        | [] => l
        | b :: t' =>
            if (if fwd then ws2 a b else ws2 b a) then strip fwd t'
            else
              match t' with
              | [] => l
              | c :: t'' =>
                  if (if fwd then ws3 a b c else ws3 c b a) then strip fwd t''
                  else l
              end
        end
  end.

(** [s.trim()] *)
Definition trim (s : string) : string :=
  of_bytes (rev (strip false (rev (strip true (bytes s))))).

(** ASCII case folding, which is all the [i] flag of a regular
    expression does to a pattern of ASCII letters and spaces. *)
Definition fold_case (a : N) : N :=
  if ((65 <=? a) && (a <=? 90))%N then (a + 32)%N else a.

Fixpoint prefix_ci (p l : list N) : bool :=
  match p, l with
  | [], _ => true
  | _ :: _, [] => false
  | x :: p', y :: l' => (fold_case x =? fold_case y)%N && prefix_ci p' l'
  end.

Fixpoint search_ci (p l : list N) : bool :=
  prefix_ci p l ||
  match l with
  | [] => false
  | _ :: l' => search_ci p l'
  end.

(** [/p/i.test(s)] for a pattern [p] without metacharacters. *)
Definition regex_test_ci (p s : string) : bool := search_ci (bytes p) (bytes s).

(** [s.includes(c)] for a one-byte [c]. *)
Definition includes (s : string) (c : N) : bool := existsb (N.eqb c) (bytes s).

(** [s.split(sep)] for a one-byte separator. *)
Fixpoint split_bytes (sep : N) (cur : list N) (l : list N) : list (list N) :=
  match l with
  | [] => [rev cur]
  | a :: t =>
      if (a =? sep)%N then rev cur :: split_bytes sep [] t
      else split_bytes sep (a :: cur) t
  end.

Definition split (s : string) (sep : N) : list string :=
  map of_bytes (split_bytes sep [] (bytes s)).

Definition dquote : string := String (ascii_of_nat 34) EmptyString.

(** *** JSON *)

(** [JSON.parse(JSON.stringify(v))]: what is read back of a value written
    as JSON. Nothing is written for [undefined], which here stays
    [JUndefined]: a property with that value is left out, and an array
    holds [null] in its place. [NaN] and the infinities are written as
    [null]. *)
Fixpoint json (v : JsVal) : JsVal :=
  match v with
  | JUndefined => JUndefined
  | JNull => JNull
  | JBool b => JBool b
  | JNum n => JNum n
  | JNaN => JNull
  | JInfinity _ => JNull
  | JStr s => JStr s
  | JArr items =>
      JArr (map (fun x => match json x with JUndefined => JNull | y => y end) items)
  | JObj fields =>
      JObj ((fix props (l : list (string * JsVal)) : list (string * JsVal) :=
               match l with
               | [] => []
               | (k, x) :: rest =>
                   match json x with
                   | JUndefined => props rest
                   | y => (k, y) :: props rest
                   end
               end) fields)
  end.

(** The properties of an object that [JSON.stringify] writes. *)
Fixpoint json_props (fields : list (string * JsVal)) : list (string * JsVal) :=
  match fields with
  | [] => []
  | (k, x) :: rest =>
      match json x with
      | JUndefined => json_props rest
      | y => (k, y) :: json_props rest
      end
  end.

End Js.

(** ** Message content *)

Module Messages.
Import Js.
Local Open Scope js_scope.

Definition ALLOWED_MEDIA_TYPES : list string :=
  ["image"; "video"; "audio"; "document"; "sticker"].

(** [set.has(v)] for a [Set] of strings. *)
Definition has (set : list string) (v : JsVal) : bool :=
  match v with
  | JStr s => existsb (String.eqb s) set
  | _ => false
  end.

(** [v === 'lit'] *)
Definition is_str (v : JsVal) (lit : string) : bool :=
  match v with
  | JStr s => String.eqb s lit
  | _ => false
  end.

Definition invalid_payload (message : string) : Exn :=
  Error (Some "invalid_payload") message.

Definition msg_message_required : string :=
  "Campo " +:+ dquote +:+ "message" +:+ dquote +:+ " é obrigatório.".
Definition msg_text_invalid : string := "Mensagem de texto inválida.".
Definition msg_mediaUrl_required : string :=
  "Campo " +:+ dquote +:+ "mediaUrl" +:+ dquote
  +:+ " é obrigatório para mensagens de mídia.".
Definition msg_type_unsupported : string := "Tipo de mensagem não suportado.".

(** [mediaType && ALLOWED_MEDIA_TYPES.has(mediaType) ? mediaType : 'image'] *)
Definition media_kind (mediaType : JsVal) : string :=
  match mediaType with
  | JStr s => if truthy mediaType && has ALLOWED_MEDIA_TYPES mediaType then s else "image"
  | _ => "image"
  end.

(** The [media] branch once [mediaUrl] has been accepted. *)
Definition media_content (mediaUrl caption mimetype mediaType : JsVal) : JsVal :=
  let type := media_kind mediaType in
  let content := [(type, JObj [("url", mediaUrl)])] in
  let content := if truthy caption then set_field "caption" caption content else content in
  let content :=
    if truthy mimetype then
      match lookup_field type content with
      | Some (JObj inner) => set_field type (JObj (set_field "mimetype" mimetype inner)) content
      | _ => content
      end
    else content in
  JObj content.

Definition buildMessageContent (payload : JsVal) : result JsVal :=
  message <- member payload "message" ;;
  if negb (truthy message) || negb (String.eqb (typeof message) "object") then
    Throw (invalid_payload msg_message_required)
  else
    type <- member payload "type" ;;
    if is_str type "text" then
      text <- member message "text" ;;
      match text with
      | JStr s =>
          if String.eqb (trim s) "" then Throw (invalid_payload msg_text_invalid)
          else Ok (JObj [("text", text)])
      | _ => Throw (invalid_payload msg_text_invalid)
      end
    else if is_str type "media" then
      mediaUrl <- member message "mediaUrl" ;;
      caption <- member message "caption" ;;
      mimetype <- member message "mimetype" ;;
      mediaType <- member message "mediaType" ;;
      if negb (truthy mediaUrl) || negb (String.eqb (typeof mediaUrl) "string") then
        Throw (invalid_payload msg_mediaUrl_required)
      else Ok (media_content mediaUrl caption mimetype mediaType)
    else if is_str type "template" then
      Ok message
    else
      Throw (invalid_payload msg_type_unsupported).

(** The failure the specification calls [InvalidArgument]: an error
    thrown with the code [invalid_payload]. *)
Definition fails_invalid {A : Type} (r : result A) : Prop :=
  exists message, r = Throw (invalid_payload message).

(** A value that is neither falsy nor of a [typeof] other than [object]:
    an object or an array. *)
Definition is_object (v : JsVal) : bool :=
  truthy v && String.eqb (typeof v) "object".

End Messages.

(** ** State and exceptions

    A method that mutates its object and may throw is a function from the
    state to the new state and an outcome; what was written before a
    [throw] stays written. *)

Module Eff.
Import Js.

Definition M (S A : Type) : Type := S -> S * result A.

Definition ret {S A : Type} (a : A) : M S A := fun s => (s, Ok a).

Definition throw {S A : Type} (e : Exn) : M S A := fun s => (s, Throw e).

Definition mbind {S A B : Type} (m : M S A) (k : A -> M S B) : M S B :=
  fun s =>
    match m s with
    | (s', Ok a) => k a s'
    | (s', Throw e) => (s', Throw e)
    end.

(** [try { m } catch (e) { ... }]: the outcome of [m], handed to what
    follows instead of being thrown further. *)
Definition attempt {S A : Type} (m : M S A) : M S (result A) :=
  fun s => let '(s', r) := m s in (s', Ok r).

Definition gets {S A : Type} (f : S -> A) : M S A := fun s => (s, Ok (f s)).

Definition modify {S : Type} (f : S -> S) : M S unit := fun s => (f s, Ok tt).

Declare Scope eff_scope.
Delimit Scope eff_scope with eff.
Notation "x <- e ;; k" := (mbind e (fun x => k))
  (at level 100, e at next level, right associativity) : eff_scope.
Notation "e ;;; k" := (mbind e (fun _ => k))
  (at level 100, right associativity) : eff_scope.

End Eff.

(** ** The instance catalog: [class InstanceStore] *)

Module Store.
Import Js Eff Messages.
Local Open Scope eff_scope.

Definition ALLOWED_STATUSES : list string := ["pending_qr"; "ready"; "disconnected"].

(** A record of the catalog under a string key. [inst_status] is the
    JavaScript value held by the [status] property: nothing in the record
    type confines it to the three allowed strings. *)
Record Instance : Type := {
  inst_id : string;
  inst_status : JsVal;
  inst_metadata : JsVal
}.

(** A value of the [Map] as [list()] hands it out: the object
    [{ id, status, metadata }], whose [id] is whatever the key is. *)
Record Row : Type := {
  row_id : JsVal;
  row_status : JsVal;
  row_metadata : JsVal
}.

Definition row_of (instance : Instance) : Row :=
  {| row_id := JStr (inst_id instance);
     row_status := inst_status instance;
     row_metadata := inst_metadata instance |}.

Definition object_of (row : Row) : JsVal :=
  JObj [("id", row_id row); ("status", row_status row); ("metadata", row_metadata row)].

(** [instances.json]: absent, text that [JSON.parse] refuses, or text
    that parses to the given value (the empty file reads as the empty
    array). *)
Inductive File : Type :=
| NoFile
| Unparseable
| Json (parsed : JsVal).

(** The store. [instances] holds the entries of the [Map] whose key is a
    string, [strays] the values of the others: only [init] can bring such
    an entry in, from a file whose element has an [id] that is not a
    string, and no method called with a string reaches it. *)
Record State : Type := {
  instances : gmap string Instance;
  strays : list Row;
  initialized : bool;
  file : File
}.

Definition set_instances (m : gmap string Instance) (s : State) : State :=
  {| instances := m; strays := strays s; initialized := initialized s; file := file s |}.

Definition set_strays (l : list Row) (s : State) : State :=
  {| instances := instances s; strays := l; initialized := initialized s; file := file s |}.

Definition set_initialized (b : bool) (s : State) : State :=
  {| instances := instances s; strays := strays s; initialized := b; file := file s |}.

Definition set_file (f : File) (s : State) : State :=
  {| instances := instances s; strays := strays s; initialized := initialized s; file := f |}.

(** [new InstanceStore(filePath)] over the file system as it stands. *)
Definition new (f : File) : State :=
  {| instances := ∅; strays := []; initialized := false; file := f |}.

(** [ensureInstancesFile()] *)
Definition ensureInstancesFile : M State unit :=
  fun s =>
    match file s with
    | NoFile => (set_file (Json (JArr [])) s, Ok tt)
    | _ => (s, Ok tt)
    end.

(** Whether two values that are not strings are the same key of a
    [Map]: primitive values are compared by value, and an object or an
    array read from the file is a key that no other entry has. *)
Definition same_key (a b : JsVal) : bool :=
  match a, b with
  | JUndefined, JUndefined => true
  | JNull, JNull => true
  | JBool x, JBool y => Bool.eqb x y
  | JNum x, JNum y => (x =? y)%Z
  | JNaN, JNaN => true
  | JInfinity x, JInfinity y => Bool.eqb x y
  | _, _ => false
  end.

(** [this.instances.set(key, row)] for a key that is not a string. *)
Fixpoint set_stray (row : Row) (rows : list Row) : list Row :=
  match rows with
  | [] => [row]
  | x :: rest =>
      if same_key (row_id row) (row_id x) then row :: rest else x :: set_stray row rest
  end.

(** The body of the [forEach] of [init]: the read of [instance.id]
    throws on [null]. *)
Definition load_record (instance : JsVal) : M State unit :=
  fun s =>
    match member instance "id" with
    | Throw e => (s, Throw e)
    | Ok id =>
        let status := or_else (member_opt instance "status") (JStr "pending_qr") in
        let metadata := or_else (member_opt instance "metadata") (JObj []) in
        match id with
        | JStr key =>
            (set_instances
               (<[key := {| inst_id := key; inst_status := status;
                            inst_metadata := metadata |}]> (instances s)) s, Ok tt)
        | _ =>
            (set_strays
               (set_stray {| row_id := id; row_status := status;
                             row_metadata := metadata |} (strays s)) s, Ok tt)
        end
    end.

(** [items.forEach(f)]: what was done before a [throw] stays done. *)
Fixpoint for_each {S A : Type} (f : A -> M S unit) (items : list A) : M S unit :=
  match items with
  | [] => ret tt
  | x :: rest => f x ;;; for_each f rest
  end.

Definition init : M State unit :=
  fun s =>
    if initialized s then (s, Ok tt)
    else
      (ensureInstancesFile ;;;
       parsed <- (fun s =>
                    match file s with
                    | Json parsed => (s, Ok parsed)
                    | _ => (s, Throw SyntaxError)
                    end) ;;
       match parsed with
       | JArr items => for_each load_record items ;;; modify (set_initialized true)
       | _ => throw TypeError
       end) s.

Definition list (s : State) : list Row :=
  (row_of <$> (map_to_list (instances s)).*2) ++ strays s.

Definition get (id : string) (s : State) : option Instance := instances s !! id.

Definition save : M State unit :=
  fun s => (set_file (Json (json (JArr (object_of <$> list s)))) s, Ok tt).

Definition msg_id_required : string := "ID da instância é obrigatório.".
Definition msg_exists : string := "Instância já existe.".
Definition msg_invalid_status : string := "Status inválido.".

Definition create (id : string) (metadata : JsVal) : M State Instance :=
  fun s =>
    if negb (truthy (JStr id)) then (s, Throw (Error None msg_id_required))
    else
      match instances s !! id with
      | Some _ => (s, Throw (Error (Some "instance_exists") msg_exists))
      | None =>
          let instance :=
            {| inst_id := id;
               inst_status := JStr "pending_qr";
               inst_metadata := or_else metadata (JObj []) |} in
          (modify (set_instances (<[id := instance]> (instances s))) ;;;
           save ;;;
           ret instance) s
      end.

Definition delete (id : string) : M State bool :=
  fun s =>
    match instances s !! id with
    | Some _ =>
        (modify (set_instances (base.delete id (instances s))) ;;;
         save ;;;
         ret true) s
    | None => (s, Ok false)
    end.

Definition updateStatus (id : string) (status : JsVal) : M State (option Instance) :=
  fun s =>
    if negb (has ALLOWED_STATUSES status) then
      (s, Throw (Error (Some "invalid_status") msg_invalid_status))
    else
      match instances s !! id with
      | None => (s, Ok None)
      | Some instance =>
          let instance :=
            {| inst_id := inst_id instance;
               inst_status := status;
               inst_metadata := inst_metadata instance |} in
          (modify (set_instances (<[id := instance]> (instances s))) ;;;
           save ;;;
           ret (Some instance)) s
      end.

Definition updateMetadata (id : string) (metadata : JsVal) : M State (option Instance) :=
  fun s =>
    match instances s !! id with
    | None => (s, Ok None)
    | Some instance =>
        let instance :=
          {| inst_id := inst_id instance;
             inst_status := inst_status instance;
             inst_metadata := or_else metadata (JObj []) |} in
        (modify (set_instances (<[id := instance]> (instances s))) ;;;
         save ;;;
         ret (Some instance)) s
    end.

(** The three values a status may take. *)
Definition allowed_status (v : JsVal) : Prop :=
  v = JStr "pending_qr" \/ v = JStr "ready" \/ v = JStr "disconnected".

(** Every record of the catalog has an allowed status, whatever its key. *)
Definition catalog_ok (s : State) : Prop :=
  (forall id r, instances s !! id = Some r -> allowed_status (inst_status r))
  /\ (forall row, row ∈ strays s -> allowed_status (row_status row)).

(** Every element of the array in the file has an allowed status, or a
    missing or falsy one, which [init] replaces by [pending_qr]. *)
Definition file_ok (f : File) : Prop :=
  forall items item, f = Json (JArr items) -> item ∈ items ->
    truthy (member_opt item "status") = false \/ allowed_status (member_opt item "status").

(** What is read back of a record written by [save]. *)
Definition written (row : Row) : JsVal := json (object_of row).

(** The record that [init] makes of a record written by [save]. *)
Definition reloaded (instance : Instance) : Instance :=
  {| inst_id := inst_id instance;
     inst_status := or_else (json (inst_status instance)) (JStr "pending_qr");
     inst_metadata := or_else (json (inst_metadata instance)) (JObj []) |}.

(** The file holds exactly the records of the catalog, as
    [JSON.stringify] writes them. *)
Definition persisted (s : State) : Prop :=
  exists items, file s = Json (JArr items) /\
    forall v, v ∈ items <-> exists row, row ∈ list s /\ v = written row.

End Store.

(** ** The session registry: [class BaileysManager] *)

Module Manager.
Import Js Eff Messages.
Local Open Scope eff_scope.

Definition QR_EXPIRATION_MS : Z := 2 * 60 * 1000.

(** How an awaited call on the chat client ends: it resolves, or it
    rejects with a value whose [message] is absent or the given string. *)
Inductive Outcome : Type :=
| Resolves
| Rejects (message : option string).

(** The client handle returned by [makeWASocket], given by how its
    capabilities answer: [logout()], [ws] (absent, or what [ws.close()]
    does) and [sendMessage(jid, content)], which resolves with a value
    or rejects. *)
Record Sock : Type := {
  sock_logout : Outcome;
  sock_ws : option Outcome;
  sock_sendMessage : string -> JsVal -> result JsVal
}.

Record QR : Type := {
  qr_type : string;
  qr_value : JsVal;
  qr_expiresAt : Z
}.

(** A session; [saveCreds], which only the chat client calls, is left out. *)
Record Session : Type := {
  sock : Sock;
  qr : option QR;
  connection : string
}.

(** What the service does to the outside, in order. *)
Inductive Event : Type :=
| CallLogout (instanceId : string)
| CallWsClose (instanceId : string)
| CallSendMessage (instanceId jid : string) (content : JsVal)
| ConsoleWarn (instanceId : string) (message : string)
| ConsoleError (instanceId : string)
| ConsoleErrorFor (id : JsVal).

(** The manager with its store, the credential directories on disk and
    the trace of outside calls. [auth_dirs] holds the identifiers whose
    directory [path.join(SESSIONS_DIR, instanceId)] has been made and
    not been removed since; where that directory lies is told by
    [authDir] below. *)
Record World : Type := {
  store : Store.State;
  sessions : gmap string Session;
  auth_dirs : gset string;
  trace : list Event
}.

(** What the surroundings answer during one operation. *)
Record Env : Type := {
  now : Z;                                   (* Date.now() *)
  now_iso : string;                          (* new Date().toISOString() *)
  toDataURL : string -> string;              (* QRCode.toDataURL *)
  makeWASocket : string -> result Sock;      (* version fetch and socket creation *)
  loggedOut : Z;                             (* DisconnectReason.loggedOut *)
  rm_reaches : string -> string -> bool;     (* see [gone] *)
  rm_takes_catalog : string -> bool          (* see [rm_authDir] *)
}.

Definition set_store (st : Store.State) (w : World) : World :=
  {| store := st; sessions := sessions w; auth_dirs := auth_dirs w; trace := trace w |}.

Definition set_sessions (m : gmap string Session) (w : World) : World :=
  {| store := store w; sessions := m; auth_dirs := auth_dirs w; trace := trace w |}.

Definition set_auth_dirs (d : gset string) (w : World) : World :=
  {| store := store w; sessions := sessions w; auth_dirs := d; trace := trace w |}.

Definition emit (e : Event) : M World unit :=
  modify (fun w =>
    {| store := store w; sessions := sessions w; auth_dirs := auth_dirs w;
       trace := trace w ++ [e] |}).

(** A method of [this.store] run from the manager. *)
Definition on_store {A : Type} (m : M Store.State A) : M World A :=
  fun w => let '(st, r) := m (store w) in (set_store st w, r).

(** An assignment to a property of the session object registered for
    [instanceId]. *)
Definition update_session (instanceId : string) (f : Session -> Session) : M World unit :=
  modify (fun w =>
    match sessions w !! instanceId with
    | Some session => set_sessions (<[instanceId := f session]> (sessions w)) w
    | None => w
    end).

Definition set_qr (q : option QR) (s : Session) : Session :=
  {| sock := sock s; qr := q; connection := connection s |}.

Definition set_connection (c : string) (s : Session) : Session :=
  {| sock := sock s; qr := qr s; connection := c |}.

Definition msg_not_found : string := "Instância não encontrada.".

Definition initializeForInstance (env : Env) (instanceId : string) : M World Session :=
  fun w =>
    match sessions w !! instanceId with
    | Some existing => (w, Ok existing)
    | None =>
        match Store.get instanceId (store w) with
        | None => (w, Throw (Error (Some "instance_not_found") msg_not_found))
        | Some _ =>
            (modify (fun w => set_auth_dirs ({[instanceId]} ∪ auth_dirs w) w) ;;;
             fun w =>
               match makeWASocket env instanceId with
               | Throw e => (w, Throw e)
               | Ok sk =>
                   let session := {| sock := sk; qr := None; connection := "close" |} in
                   (set_sessions (<[instanceId := session]> (sessions w)) w, Ok session)
               end) w
        end
    end.

(** The record of the connection-update event: [qr], [connection] and
    [lastDisconnect?.error?.output?.statusCode], each absent or given. *)
Record ConnectionUpdate : Type := {
  u_qr : option string;
  u_connection : option string;
  u_statusCode : option Z
}.

(** Truth of an optional string: present and not empty. *)
Definition given (o : option string) : option string :=
  match o with
  | Some s => if truthy (JStr s) then Some s else None
  | None => None
  end.

(** *** Credential directories *)

(** [path.join] over the segments of an identifier: an empty segment
    and [.] are dropped, [..] takes back the segment before it. The
    result is [None] when a [..] has nothing to take back: the path
    leaves [SESSIONS_DIR]. [stack] holds the components so far, the
    last one first. *)
Fixpoint walk (stack segments : list string) : option (list string) :=
  match segments with
  | [] => Some (rev stack)
  | segment :: rest =>
      if String.eqb segment "" || String.eqb segment "." then walk stack rest
      else if String.eqb segment ".." then
        match stack with
        | [] => None
        | _ :: stack' => walk stack' rest
        end
      else walk (segment :: stack) rest
  end.

(** [path.join(SESSIONS_DIR, instanceId)] as the components that follow
    [SESSIONS_DIR]: [Some [instanceId]] for an identifier that is one
    file name, [Some []] for [SESSIONS_DIR] itself, which is what [.]
    gives. [None] stands for a path that leaves [SESSIONS_DIR], as [..]
    does, and for an identifier with a NUL, which is no path. *)
Definition authDir (instanceId : string) : option (list string) :=
  if includes instanceId 0 then None else walk [] (split instanceId 47).

(** Whether the directory made for [other] is gone once
    [path.join(SESSIONS_DIR, instanceId)] has been removed with all it
    holds: it is when it lies at that path or under it. When one of the
    two paths leaves [SESSIONS_DIR], where they lie is not known here
    and the surroundings say. *)
Definition gone (env : Env) (instanceId other : string) : bool :=
  if String.eqb other instanceId then true
  else
    match authDir instanceId, authDir other with
    | Some target, Some path => bool_decide (target `prefix_of` path)
    | _, _ => rm_reaches env instanceId other
    end.

(** The credential directories that the removal of
    [path.join(SESSIONS_DIR, instanceId)] leaves. *)
Definition dirs_after_rm (env : Env) (instanceId : string) (dirs : gset string)
  : gset string :=
  filter (fun other => gone env instanceId other = false) dirs.

(** What that removal leaves of the store. The catalog file lies beside
    [SESSIONS_DIR]: a path that stays in [SESSIONS_DIR] leaves it alone,
    and for one that does not the surroundings say whether the file is
    taken along. *)
Definition store_after_rm (env : Env) (instanceId : string) (st : Store.State)
  : Store.State :=
  match authDir instanceId with
  | Some _ => st
  | None =>
      if rm_takes_catalog env instanceId then Store.set_file Store.NoFile st else st
  end.

(** [fsp.rm(path.join(SESSIONS_DIR, instanceId), { recursive: true,
    force: true })]: a path with a NUL is refused with a [TypeError]
    before anything is removed. *)
Definition rm_authDir (env : Env) (instanceId : string) : M World unit :=
  if includes instanceId 0 then throw TypeError
  else
    modify (fun w =>
      {| store := store_after_rm env instanceId (store w);
         sessions := sessions w;
         auth_dirs := dirs_after_rm env instanceId (auth_dirs w);
         trace := trace w |}).

Definition cleanupSession (env : Env) (instanceId : string) (keepData : bool)
  : M World unit :=
  (session <- gets (fun w => sessions w !! instanceId) ;;
   match session with
   | Some session =>
       emit (CallLogout instanceId) ;;;
       match sock_logout (sock session) with
       | Resolves => ret tt
       | Rejects message =>
           match given message with
           | Some text =>
               if negb (regex_test_ci "not logged in" text)
               then emit (ConsoleWarn instanceId text)
               else ret tt
           | None => ret tt
           end
       end ;;;
       match sock_ws (sock session) with
       | Some _ => emit (CallWsClose instanceId)
       | None => ret tt
       end
   | None => ret tt
   end ;;;
   modify (fun w => set_sessions (delete instanceId (sessions w)) w) ;;;
   if negb keepData
   then rm_authDir env instanceId
   else ret tt)%eff.

(** The [if (update.qr)] block of [handleConnectionUpdate]. *)
Definition on_qr (env : Env) (instanceId : string) (update : ConnectionUpdate)
  : M World unit :=
  (match given (u_qr update) with
   | Some text =>
       let qrDataUrl := toDataURL env text in
       let base64 := default JUndefined (JStr <$> split qrDataUrl 44 !! 1%nat) in
       update_session instanceId
         (set_qr (Some {| qr_type := "base64";
                          qr_value := base64;
                          qr_expiresAt := now env + QR_EXPIRATION_MS |})) ;;;
       _ <- on_store (Store.updateStatus instanceId (JStr "pending_qr")) ;;
       ret tt
   | None => ret tt
   end)%eff.

(** The [if (update.connection)] block of [handleConnectionUpdate]. *)
Definition on_connection (env : Env) (instanceId : string) (update : ConnectionUpdate)
  : M World unit :=
  (match given (u_connection update) with
   | Some phase =>
       update_session instanceId (set_connection phase) ;;;
       if String.eqb phase "open" then
         update_session instanceId (set_qr None) ;;;
         _ <- on_store (Store.updateStatus instanceId (JStr "ready")) ;;
         ret tt
       else if String.eqb phase "close" then
         if decide (u_statusCode update = Some (loggedOut env)) then
           _ <- on_store (Store.updateStatus instanceId (JStr "disconnected")) ;;
           cleanupSession env instanceId false
         else
           _ <- on_store (Store.updateStatus instanceId (JStr "disconnected")) ;;
           ret tt
       else ret tt
   | None => ret tt
   end)%eff.

Definition handleConnectionUpdate (env : Env) (instanceId : string)
    (update : ConnectionUpdate) : M World unit :=
  (session <- gets (fun w => sessions w !! instanceId) ;;
   match session with
   | None => ret tt
   | Some _ => on_qr env instanceId update ;;; on_connection env instanceId update
   end)%eff.

Definition getSession (instanceId : string) (w : World) : option Session :=
  sessions w !! instanceId.

Definition getOrCreateSession (env : Env) (instanceId : string) : M World Session :=
  fun w =>
    match sessions w !! instanceId with
    | Some session => (w, Ok session)
    | None => initializeForInstance env instanceId w
    end.

(** The object returned by [getQRCode]. *)
Record QRCodeReply : Type := {
  r_instanceId : string;
  r_type : string;
  r_value : JsVal;
  r_expiresIn : Z
}.

Definition getQRCode (env : Env) (instanceId : string) (w : World) : option QRCodeReply :=
  match sessions w !! instanceId with
  | Some {| qr := Some q |} =>
      let expiresIn := Z.max 0 ((qr_expiresAt q - now env) / 1000) in
      Some {| r_instanceId := instanceId;
              r_type := qr_type q;
              r_value := qr_value q;
              r_expiresIn := expiresIn |}
  | _ => None
  end.

End Manager.

(** ** The HTTP surface: [POST /messages] *)

Module Routes.
Import Js Eff Messages Manager.
Local Open Scope eff_scope.

Record Response : Type := {
  http_status : Z;
  body : JsVal
}.

(** [createErrorResponse(res, statusCode, code, message, details)] *)
Definition createErrorResponse (statusCode : Z) (code message : string)
    (details : option (list (string * JsVal))) : Response :=
  let payload := [("code", JStr code); ("message", JStr message)] in
  let payload :=
    match details with
    | Some (d :: ds) => set_field "details" (JObj (d :: ds)) payload
    | _ => payload
    end in
  {| http_status := statusCode; body := JObj payload |}.

(** [!v || typeof v !== 'string'] fails exactly when this is [Some]. *)
Definition nonempty_string (v : JsVal) : option string :=
  match v with
  | JStr s => if truthy v then Some s else None
  | _ => None
  end.

(** [error.code] and [error.message] of a caught value; the text an
    engine gives its own errors is not modelled. *)
Definition code_of (e : Exn) : option string :=
  match e with
  | Error code _ => code
  | _ => None
  end.

Definition message_of (e : Exn) : string :=
  match e with
  | Error _ message => message
  | TypeError => "TypeError"
  | SyntaxError => "SyntaxError"
  end.

Definition msg_instanceId_required : string :=
  "Campo " +:+ dquote +:+ "instanceId" +:+ dquote +:+ " é obrigatório.".
Definition msg_to_required : string :=
  "Campo " +:+ dquote +:+ "to" +:+ dquote +:+ " é obrigatório.".
Definition msg_type_required : string :=
  "Campo " +:+ dquote +:+ "type" +:+ dquote +:+ " é obrigatório.".
Definition msg_session_failed : string := "Falha ao inicializar a sessão Baileys.".
Definition msg_not_ready : string := "Instância não está pronta para enviar mensagens.".
Definition msg_send_failed : string := "Não foi possível enviar a mensagem.".

(** Lines 465 to 497 of the handler: what it does once the three fields
    have been checked and the instance has been found in the catalog. *)
Definition sendMessage (env : Env) (instanceId to : string) (payload : JsVal)
  : M World Response :=
  session <- attempt (getOrCreateSession env instanceId) ;;
  match session with
  | Throw _ =>
      emit (ConsoleError instanceId) ;;;
      ret (createErrorResponse 500 "internal_error" msg_session_failed None)
  | Ok session =>
      if negb (String.eqb (connection session) "open") then
        ret (createErrorResponse 409 "instance_not_ready" msg_not_ready None)
      else
        match buildMessageContent payload with
        | Throw error =>
            ret (createErrorResponse 400 (default "invalid_payload" (code_of error))
                   (message_of error) None)
        | Ok content =>
            let jid := if includes to 64 then to else to +:+ "@s.whatsapp.net" in
            emit (CallSendMessage instanceId jid content) ;;;
            match
              (result <- sock_sendMessage (sock session) jid content ;;
               key <- member result "key" ;;
               Ok (or_else (member_opt key "id") (JStr "")))%js
            with
            | Ok messageId =>
                ret {| http_status := 202;
                       body := JObj [("messageId", messageId);
                                     ("status", JStr "queued");
                                     ("timestamp", JStr (now_iso env))] |}
            | Throw _ =>
                emit (ConsoleError instanceId) ;;;
                ret (createErrorResponse 500 "internal_error" msg_send_failed None)
            end
        end
  end.

(** [app.post('/messages', ...)] on the parsed request body. *)
Definition post_messages (env : Env) (req_body : JsVal) : M World Response :=
  let payload := or_else req_body (JObj []) in
  match nonempty_string (member_opt payload "instanceId") with
  | None => ret (createErrorResponse 400 "invalid_payload" msg_instanceId_required None)
  | Some instanceId =>
      match nonempty_string (member_opt payload "to") with
      | None => ret (createErrorResponse 400 "invalid_payload" msg_to_required None)
      | Some to =>
          match nonempty_string (member_opt payload "type") with
          | None => ret (createErrorResponse 400 "invalid_payload" msg_type_required None)
          | Some _ =>
              instance <- gets (fun w => Store.get instanceId (store w)) ;;
              match instance with
              | None => ret (createErrorResponse 404 "not_found" msg_not_found None)
              | Some _ => sendMessage env instanceId to payload
              end
          end
      end
  end.

End Routes.

(** ** Runs of the service *)

Module Run.
Import Js Eff Manager.

(** The operations that write the catalog or the registry. *)
Inductive Op : Type :=
| OpCreate (id : string) (metadata : JsVal)
| OpDelete (id : string)
| OpUpdateStatus (id : string) (status : JsVal)
| OpUpdateMetadata (id : string) (metadata : JsVal)
| OpInitializeForInstance (env : Env) (instanceId : string)
| OpConnectionUpdate (env : Env) (instanceId : string) (update : ConnectionUpdate)
| OpCleanupSession (env : Env) (instanceId : string) (keepData : bool)
| OpPostMessages (env : Env) (req_body : JsVal)
| OpRestart.

(** The state after [store.init()] on the given file system, before any
    session is opened; [initExistingInstances] is then a sequence of
    [OpInitializeForInstance] steps. *)
Definition boot (f : Store.File) (dirs : gset string) (tr : list Event) : World :=
  {| store := fst (Store.init (Store.new f));
     sessions := ∅;
     auth_dirs := dirs;
     trace := tr |}.

Definition step (op : Op) (w : World) : World :=
  match op with
  | OpCreate id metadata => fst (on_store (Store.create id metadata) w)
  | OpDelete id => fst (on_store (Store.delete id) w)
  | OpUpdateStatus id status => fst (on_store (Store.updateStatus id status) w)
  | OpUpdateMetadata id metadata => fst (on_store (Store.updateMetadata id metadata) w)
  | OpInitializeForInstance env id => fst (initializeForInstance env id w)
  | OpConnectionUpdate env id update => fst (handleConnectionUpdate env id update w)
  | OpCleanupSession env id keepData => fst (cleanupSession env id keepData w)
  | OpPostMessages env req_body => fst (Routes.post_messages env req_body w)
  | OpRestart => boot (Store.file (store w)) (auth_dirs w) (trace w)
  end.

Definition run (ops : list Op) (w : World) : World := foldl (fun w op => step op w) w ops.

(** What every run keeps true of the store: the statuses held in memory
    are allowed, and those in the file are allowed or left to [init]'s
    default. *)
Definition store_inv (s : Store.State) : Prop :=
  Store.catalog_ok s /\ Store.file_ok (Store.file s).

(** A store method that keeps [store_inv]. *)
Definition keeps_store {A : Type} (m : M Store.State A) : Prop :=
  forall s, store_inv s -> store_inv (fst (m s)).

(** A manager method that keeps [store_inv] of the manager's store. *)
Definition keeps {A : Type} (m : M World A) : Prop :=
  forall w, store_inv (store w) -> store_inv (store (fst (m w))).

End Run.

(** ** Sample states *)

Module Samples.
Import Js Manager.

Definition inst (id status : string) : Store.Instance :=
  {| Store.inst_id := id; Store.inst_status := JStr status; Store.inst_metadata := JObj [] |}.

(** A catalog file that holds the given records. *)
Definition file_of (records : list Store.Instance) : Store.File :=
  Store.Json (JArr (map (fun r => Store.object_of (Store.row_of r)) records)).

(** A catalog that holds the single instance [a]. *)
Definition store_a (status : string) : Store.State :=
  {| Store.instances := {["a" := inst "a" status]};
     Store.strays := [];
     Store.initialized := true;
     Store.file := file_of [inst "a" status] |}.

(** A catalog file whose only record carries a status outside the three. *)
Definition bogus_file : Store.File := file_of [inst "a" "bogus"].

(** A client whose account is already logged out and whose transport
    refuses to close; it accepts every message under the identifier [M1]. *)
Definition sock_gone : Sock :=
  {| sock_logout := Rejects (Some "Error: Not logged in");
     sock_ws := Some (Rejects None);
     sock_sendMessage := fun _ _ => Ok (JObj [("key", JObj [("id", JStr "M1")])]) |}.

(** The surroundings at the time [t]; no socket can be opened. A path
    that leaves [SESSIONS_DIR] reaches every credential directory and
    the catalog file, as the parent directory [..] does. *)
Definition env_at (t : Z) : Env :=
  {| now := t;
     now_iso := "2024-01-01T00:00:00.000Z";
     toDataURL := fun text => "data:image/png;base64," +:+ text;
     makeWASocket := fun _ => Throw (Error None "offline");
     loggedOut := 401;
     rm_reaches := fun _ _ => true;
     rm_takes_catalog := fun _ => true |}.

(** The same surroundings at the time [t] when the chat network answers. *)
Definition env_online (t : Z) : Env :=
  {| now := t;
     now_iso := "2024-01-01T00:00:00.000Z";
     toDataURL := fun text => "data:image/png;base64," +:+ text;
     makeWASocket := fun _ => Ok sock_gone;
     loggedOut := 401;
     rm_reaches := fun _ _ => true;
     rm_takes_catalog := fun _ => true |}.

(** A run: [b] is created, its session opened, a QR code issued, a
    status outside the three asked for, the account logged out, and the
    service restarted. *)
Definition run_b : list Run.Op :=
  [Run.OpCreate "b" JUndefined;
   Run.OpInitializeForInstance (env_online 0) "b";
   Run.OpConnectionUpdate (env_online 5) "b"
     {| u_qr := Some "q"; u_connection := None; u_statusCode := None |};
   Run.OpUpdateStatus "b" (JStr "bogus");
   Run.OpConnectionUpdate (env_online 9) "b"
     {| u_qr := None; u_connection := Some "close"; u_statusCode := Some 401%Z |};
   Run.OpRestart].

(** The instance [a] with a session in the given phase, holding a QR
    code that expires at 120000, and its credential directory. *)
Definition world_a (status phase : string) : World :=
  {| store := store_a status;
     sessions :=
       {["a" := {| sock := sock_gone;
                   qr := Some {| qr_type := "base64"; qr_value := JStr "AAAA";
                                 qr_expiresAt := 120000 |};
                   connection := phase |}]};
     auth_dirs := {["a"]};
     trace := [] |}.

End Samples.

(** ** The rest of the HTTP surface *)

Module Http.
Import Js Eff Messages Manager.
Local Open Scope eff_scope.

(** What a middleware does with a request: it hands it to the next
    handler, or answers it. *)
Inductive Verdict : Type :=
| Next
| Answer (r : Routes.Response).

(** [s.startsWith(p)] *)
Fixpoint startsWith (s p : string) {struct p} : bool :=
  match p, s with
  | EmptyString, _ => true
  | String _ _, EmptyString => false
  | String x p', String y s' => Ascii.eqb x y && startsWith s' p'
  end.

(** [s.slice(n)] for an [n] that falls within the ASCII head of [s]. *)
Fixpoint slice (s : string) (n : nat) {struct n} : string :=
  match n, s with
  | O, _ => s
  | S _, EmptyString => EmptyString
  | S n', String _ s' => slice s' n'
  end.

Definition msg_unauthorized : string := "Bearer token ausente ou inválido.".

(** [bearerAuthMiddleware], from [process.env.API_BEARER_TOKEN] and the
    [authorization] header, each absent or a string. *)
Definition bearerAuthMiddleware (token header : option string) : Verdict :=
  match given token with
  | None => Next
  | Some token =>
      match given header with
      | None => Answer (Routes.createErrorResponse 401 "unauthorized" msg_unauthorized None)
      | Some header =>
          if negb (startsWith header "Bearer ") then
            Answer (Routes.createErrorResponse 401 "unauthorized" msg_unauthorized None)
          else
            let provided := trim (slice header (String.length "Bearer ")) in
            if negb (String.eqb provided token) then
              Answer (Routes.createErrorResponse 401 "unauthorized" msg_unauthorized None)
            else Next
      end
  end.

Definition msg_payload_invalid : string := "Payload inválido.".
Definition msg_id_field_required : string :=
  "Campo " +:+ dquote +:+ "id" +:+ dquote +:+ " é obrigatório.".
Definition msg_metadata_object : string :=
  "Campo " +:+ dquote +:+ "metadata" +:+ dquote +:+ " deve ser um objeto.".

(** [validateInstancePayload(body)]; the object returned is the pair of
    its [id] and [metadata]. *)
Definition validateInstancePayload (body : JsVal) : result (string * JsVal) :=
  if negb (truthy body) || negb (String.eqb (typeof body) "object") then
    Throw (invalid_payload msg_payload_invalid)
  else
    let id := member_opt body "id" in
    let metadata := member_opt body "metadata" in
    match id with
    | JStr s =>
        if negb (truthy id) then Throw (invalid_payload msg_id_field_required)
        else if truthy metadata && negb (String.eqb (typeof metadata) "object") then
          Throw (invalid_payload msg_metadata_object)
        else Ok (s, or_else metadata (JObj []))
    | _ => Throw (invalid_payload msg_id_field_required)
    end.

(** [res.json(instance)]: the record as the JSON object it is. *)
Definition instance_json (instance : Store.Instance) : JsVal :=
  JObj [("id", JStr (Store.inst_id instance));
        ("status", Store.inst_status instance);
        ("metadata", Store.inst_metadata instance)].

(** [res.json(qr)] for the object built by [getQRCode]. *)
Definition qr_json (reply : QRCodeReply) : JsVal :=
  JObj [("instanceId", JStr (r_instanceId reply));
        ("image", JObj [("type", JStr (r_type reply));
                        ("value", r_value reply);
                        ("expiresIn", JNum (r_expiresIn reply))])].

Definition json (statusCode : Z) (v : JsVal) : Routes.Response :=
  {| Routes.http_status := statusCode; Routes.body := v |}.

Definition msg_instanceId_param : string :=
  "Parâmetro " +:+ dquote +:+ "instanceId" +:+ dquote +:+ " é obrigatório.".
Definition msg_already_authenticated : string := "Instância já autenticada.".
Definition msg_qr_not_ready : string := "QR Code não disponível no momento.".
Definition msg_create_failed : string := "Erro ao criar instância.".
Definition msg_status_required : string :=
  "Campo " +:+ dquote +:+ "status" +:+ dquote +:+ " é obrigatório.".
Definition msg_status_invalid : string := "Status informado é inválido.".

(** [app.get('/qrcode', ...)] on [req.query.instanceId]. The record is
    read before the session is looked for and its status after; nothing
    in between writes the catalog. *)
Definition get_qrcode (env : Env) (instanceId : JsVal) : M World Routes.Response :=
  match Routes.nonempty_string instanceId with
  | None => ret (Routes.createErrorResponse 400 "invalid_request" msg_instanceId_param None)
  | Some instanceId =>
      instance <- gets (fun w => Store.get instanceId (store w)) ;;
      match instance with
      | None => ret (Routes.createErrorResponse 404 "not_found" msg_not_found None)
      | Some instance =>
          session <- attempt (getOrCreateSession env instanceId) ;;
          match session with
          | Throw _ =>
              emit (ConsoleError instanceId) ;;;
              ret (Routes.createErrorResponse 500 "internal_error"
                     Routes.msg_session_failed None)
          | Ok _ =>
              qr <- gets (getQRCode env instanceId) ;;
              match qr with
              | None =>
                  if is_str (Store.inst_status instance) "ready" then
                    ret (Routes.createErrorResponse 404 "qr_not_available"
                           msg_already_authenticated None)
                  else
                    ret (Routes.createErrorResponse 404 "qr_not_ready"
                           msg_qr_not_ready None)
              | Some qr => ret (json 200 (qr_json qr))
              end
          end
      end
  end.

(** [app.get('/instances', ...)] *)
Definition get_instances : M World Routes.Response :=
  instances <- gets (fun w => Store.list (store w)) ;;
  ret (json 200 (JArr (map Store.object_of instances))).

(** [app.post('/instances', ...)] on the parsed request body. *)
Definition post_instances (env : Env) (req_body : JsVal) : M World Routes.Response :=
  match validateInstancePayload req_body with
  | Throw error =>
      ret (Routes.createErrorResponse 400
             (default "invalid_payload" (given (Routes.code_of error)))
             (Routes.message_of error) None)
  | Ok (id, metadata) =>
      created <- attempt (instance <- on_store (Store.create id metadata) ;;
                          _ <- initializeForInstance env (Store.inst_id instance) ;;
                          ret instance) ;;
      match created with
      | Ok instance => ret (json 201 (instance_json instance))
      | Throw error =>
          let exists_ :=
            match Routes.code_of error with
            | Some c => String.eqb c "instance_exists"
            | None => false
            end in
          let code := if exists_ then 400%Z else 500%Z in
          let message := if exists_ then Routes.message_of error else msg_create_failed in
          ret (Routes.createErrorResponse code
                 (default "internal_error" (given (Routes.code_of error))) message None)
      end
  end.

(** [app.get('/instances/:instanceId', ...)] *)
Definition get_instance (instanceId : string) : M World Routes.Response :=
  instance <- gets (fun w => Store.get instanceId (store w)) ;;
  match instance with
  | None => ret (Routes.createErrorResponse 404 "not_found" msg_not_found None)
  | Some instance => ret (json 200 (instance_json instance))
  end.

(** [app.delete('/instances/:instanceId', ...)] *)
Definition delete_instance (env : Env) (instanceId : string) : M World Routes.Response :=
  instance <- gets (fun w => Store.get instanceId (store w)) ;;
  match instance with
  | None => ret (Routes.createErrorResponse 404 "not_found" msg_not_found None)
  | Some _ =>
      cleanupSession env instanceId false ;;;
      _ <- on_store (Store.delete instanceId) ;;
      ret (json 204 JUndefined)
  end.

(** [app.patch('/instances/:instanceId/status', ...)] on the parsed
    request body. *)
Definition patch_status (instanceId : string) (req_body : JsVal) : M World Routes.Response :=
  let status := member_opt (or_else req_body (JObj [])) "status" in
  if negb (String.eqb (typeof status) "string") then
    ret (Routes.createErrorResponse 400 "invalid_payload" msg_status_required None)
  else if negb (has Store.ALLOWED_STATUSES status) then
    ret (Routes.createErrorResponse 400 "invalid_status" msg_status_invalid None)
  else
    instance <- on_store (Store.updateStatus instanceId status) ;;
    match instance with
    | None => ret (Routes.createErrorResponse 404 "not_found" msg_not_found None)
    | Some instance => ret (json 200 (instance_json instance))
    end.

End Http.

(** ** Start-up *)

Module Boot.
Import Js Eff Messages Manager.
Local Open Scope eff_scope.

(** One promise of [initExistingInstances]: the session of one instance
    is opened, and a failure is logged and goes no further. With an
    [id] that is not a string [initializeForInstance] finds no session,
    and then either no record or no path, since [path.join] throws on
    such an argument: it fails before it has changed anything. *)
Definition init_one (env : Env) (instance : Store.Row) : M World unit :=
  match Store.row_id instance with
  | JStr instanceId =>
      r <- attempt (initializeForInstance env instanceId) ;;
      match r with
      | Ok _ => ret tt
      | Throw _ => emit (ConsoleError instanceId)
      end
  | id => emit (ConsoleErrorFor id)
  end.

(** [initExistingInstances()]. The promises of [Promise.all] are taken
    one after the other, in the order of [list()]. *)
Fixpoint init_all (env : Env) (instances : list Store.Row) : M World unit :=
  match instances with
  | [] => ret tt
  | instance :: rest => init_one env instance ;;; init_all env rest
  end.

Definition initExistingInstances (env : Env) : M World unit :=
  instances <- gets (fun w => Store.list (store w)) ;;
  init_all env instances.

(** [bootstrap()] up to the creation of the Express application, over
    the catalog file and the credential directories found on disk. *)
Definition bootstrap (env : Env) (f : Store.File) (dirs : gset string)
  : World * result unit :=
  let '(st, r) := Store.init (Store.new f) in
  let w := {| store := st; sessions := ∅; auth_dirs := dirs; trace := [] |} in
  match r with
  | Throw e => (w, Throw e)
  | Ok _ => initExistingInstances env w
  end.

End Boot.

(** ** Runs driven by requests and events *)

Module Service.
Import Js Eff Manager.

(** What reaches the running service: a request on one of its routes,
    or a connection update from the chat client. *)
Inductive Input : Type :=
| GetQrcode (env : Env) (instanceId : JsVal)
| GetInstances
| PostInstances (env : Env) (req_body : JsVal)
| GetInstance (instanceId : string)
| DeleteInstance (env : Env) (instanceId : string)
| PatchStatus (instanceId : string) (req_body : JsVal)
| PostMessages (env : Env) (req_body : JsVal)
| ConnectionEvent (env : Env) (instanceId : string) (update : ConnectionUpdate).

Definition handle (i : Input) (w : World) : World :=
  match i with
  | GetQrcode env instanceId => fst (Http.get_qrcode env instanceId w)
  | GetInstances => fst (Http.get_instances w)
  | PostInstances env req_body => fst (Http.post_instances env req_body w)
  | GetInstance instanceId => fst (Http.get_instance instanceId w)
  | DeleteInstance env instanceId => fst (Http.delete_instance env instanceId w)
  | PatchStatus instanceId req_body => fst (Http.patch_status instanceId req_body w)
  | PostMessages env req_body => fst (Routes.post_messages env req_body w)
  | ConnectionEvent env instanceId update =>
      fst (handleConnectionUpdate env instanceId update w)
  end.

Definition serve (inputs : list Input) (w : World) : World :=
  foldl (fun w i => handle i w) w inputs.

(** The world in which the service starts to listen. *)
Definition started (env : Env) (f : Store.File) (dirs : gset string) : World :=
  fst (Boot.bootstrap env f dirs).

(** Every session belongs to an instance of the catalog. *)
Definition sessions_catalogued (w : World) : Prop :=
  forall id session, sessions w !! id = Some session ->
                     is_Some (Store.instances (store w) !! id).

(** Every record sits under its own identifier, with a status and a
    metadata value that [init] would keep as they are. *)
Definition normal (s : Store.State) : Prop :=
  forall id r, Store.instances s !! id = Some r ->
    Store.inst_id r = id
    /\ truthy (Store.inst_status r) = true
    /\ truthy (Store.inst_metadata r) = true.

(** The identifiers whose credential directory an input may have
    removed, by a deletion or a logged-out close, all satisfy [ok]. *)
Definition removals (ok : string -> Prop) (i : Input) : Prop :=
  match i with
  | DeleteInstance _ instanceId => ok instanceId
  | ConnectionEvent _ instanceId _ => ok instanceId
  | _ => True
  end.

(** An input whose removal, if it makes one, stays in [SESSIONS_DIR]. *)
Definition confined (i : Input) : Prop :=
  removals (fun instanceId => is_Some (authDir instanceId)) i.

(** No record that a file brought in beside the string keys has a
    string for its [id]. *)
Definition strays_apart (s : Store.State) : Prop :=
  forall row key, row ∈ Store.strays s -> Store.row_id row <> JStr key.

(** A manager method under which a property of the store survives. *)
Definition preserves (P : Store.State -> Prop) {A : Type} (m : M World A) : Prop :=
  forall w, P (store w) -> P (store (fst (m w))).

(** A manager method that keeps [sessions_catalogued]. *)
Definition keeps_catalogued {A : Type} (m : M World A) : Prop :=
  forall w, sessions_catalogued w -> sessions_catalogued (fst (m w)).

(** A store method that drops no identifier from the catalog. *)
Definition keeps_ids {A : Type} (m : M Store.State A) : Prop :=
  forall s id, is_Some (Store.instances s !! id) ->
               is_Some (Store.instances (fst (m s)) !! id).

End Service.


(** * Properties *)

(** ** Message content *)

Section MessagesSpec.
Import Js Messages.

Example trim_blanks : trim "  hi  " = "hi" /\ trim "   " = "" /\ trim "" = "".
Proof. repeat split. Qed.

(** U+00A0 and U+2028 around a letter, then U+FEFF alone. *)
Example trim_unicode :
  trim (of_bytes [194; 160; 104; 226; 128; 168]%N) = "h"
  /\ trim (of_bytes [239; 187; 191]%N) = "".
Proof. repeat split. Qed.

Example regex_not_logged_in :
  regex_test_ci "not logged in" "Error: Not Logged In" = true
  /\ regex_test_ci "not logged in" "connection closed" = false.
Proof. repeat split. Qed.

Example split_data_url :
  split "data:image/png;base64,AAAA" 44 = ["data:image/png;base64"; "AAAA"].
Proof. reflexivity. Qed.

Lemma is_str_true (v : JsVal) (lit : string) : is_str v lit = true <-> v = JStr lit.
Proof.
  destruct v; simpl; try (split; [discriminate | intros; discriminate]).
  rewrite String.eqb_eq. split; [intros -> | intros [= ->]]; reflexivity.
Qed.

Lemma is_str_false (v : JsVal) (lit : string) : v <> JStr lit -> is_str v lit = false.
Proof.
  intros H. destruct (is_str v lit) eqn:E; [|reflexivity].
  apply is_str_true in E. contradiction.
Qed.

Lemma member_Ok_inv (v : JsVal) (k : string) (x : JsVal) :
  member v k = Ok x -> x = member_opt v k /\ v <> JUndefined /\ v <> JNull.
Proof.
  destruct v; simpl; intros [= <-] || discriminate; repeat split; discriminate.
Qed.

Lemma member_not_nullish (v : JsVal) (k : string) :
  v <> JUndefined -> v <> JNull -> member v k = Ok (member_opt v k).
Proof. destruct v; simpl; intros; congruence. Qed.

Lemma member_opt_is_object (v : JsVal) (k : string) (s : string) :
  member_opt v k = JStr s -> is_object v = true.
Proof. destruct v; simpl; intros; first [discriminate | reflexivity]. Qed.

Lemma member_is_object (v : JsVal) (k : string) :
  is_object v = true -> member v k = Ok (member_opt v k).
Proof. destruct v; cbv [is_object]; simpl; intros; first [discriminate | reflexivity]. Qed.

(** The guard on [payload.message], whatever the type. *)
Lemma buildMessageContent_guard (payload : JsVal) :
  payload <> JUndefined -> payload <> JNull ->
  is_object (member_opt payload "message") = false ->
  buildMessageContent payload = Throw (invalid_payload msg_message_required).
Proof.
  intros Hu Hn Hobj. unfold buildMessageContent.
  rewrite (member_not_nullish _ _ Hu Hn). simpl.
  unfold is_object in Hobj.
  destruct (truthy (member_opt payload "message")); simpl in *; [|reflexivity].
  rewrite Hobj. reflexivity.
Qed.

(** Past the guard, the function is a case analysis on [payload.type]. *)
Lemma buildMessageContent_object (payload : JsVal) :
  is_object (member_opt payload "message") = true ->
  payload <> JUndefined -> payload <> JNull ->
  buildMessageContent payload =
    let message := member_opt payload "message" in
    let type := member_opt payload "type" in
    if is_str type "text" then
      match member_opt message "text" with
      | JStr s =>
          if String.eqb (trim s) "" then Throw (invalid_payload msg_text_invalid)
          else Ok (JObj [("text", JStr s)])
      | _ => Throw (invalid_payload msg_text_invalid)
      end
    else if is_str type "media" then
      let mediaUrl := member_opt message "mediaUrl" in
      if negb (truthy mediaUrl) || negb (String.eqb (typeof mediaUrl) "string") then
        Throw (invalid_payload msg_mediaUrl_required)
      else Ok (media_content mediaUrl (member_opt message "caption")
                 (member_opt message "mimetype") (member_opt message "mediaType"))
    else if is_str type "template" then Ok message
    else Throw (invalid_payload msg_type_unsupported).
Proof.
  intros Hobj Hu Hn. unfold buildMessageContent.
  rewrite !(member_not_nullish payload _ Hu Hn). cbn [bind].
  pose proof Hobj as Hobj'. unfold is_object in Hobj'.
  apply andb_prop in Hobj' as [-> ->]. cbn [negb orb].
  rewrite !(member_is_object _ _ Hobj). cbn [bind].
  cbv zeta. destruct (is_str _ "text"); [|reflexivity].
  destruct (member_opt (member_opt payload "message") "text"); reflexivity.
Qed.

Lemma has_allowed_media (k : string) :
  has ALLOWED_MEDIA_TYPES (JStr k) = true ->
  k = "image" \/ k = "video" \/ k = "audio" \/ k = "document" \/ k = "sticker".
Proof.
  simpl. rewrite !orb_true_iff, !String.eqb_eq. intuition discriminate.
Qed.

Lemma media_kind_allowed (mediaType : JsVal) :
  In (media_kind mediaType) ALLOWED_MEDIA_TYPES.
Proof.
  destruct mediaType; try (left; reflexivity).
  unfold media_kind.
  destruct (truthy (JStr s)); [|left; reflexivity].
  destruct (has ALLOWED_MEDIA_TYPES (JStr s)) eqn:E; [|left; reflexivity].
  apply has_allowed_media in E. simpl. intuition.
Qed.

Lemma media_kind_has (k : string) :
  has ALLOWED_MEDIA_TYPES (JStr k) = true -> media_kind (JStr k) = k.
Proof.
  intros H. unfold media_kind. rewrite H.
  apply has_allowed_media in H.
  destruct H as [-> | [-> | [-> | [-> | ->]]]]; reflexivity.
Qed.

Lemma media_kind_default (mediaType : JsVal) :
  has ALLOWED_MEDIA_TYPES mediaType = false -> media_kind mediaType = "image".
Proof.
  intros H. destruct mediaType; try reflexivity.
  unfold media_kind. rewrite H, andb_false_r. reflexivity.
Qed.

(** The object built for an accepted media message, written out. *)
Lemma media_content_shape (mediaUrl caption mimetype mediaType : JsVal) :
  media_content mediaUrl caption mimetype mediaType =
    JObj ((media_kind mediaType,
           JObj (("url", mediaUrl)
                 :: if truthy mimetype then [("mimetype", mimetype)] else []))
          :: if truthy caption then [("caption", caption)] else []).
Proof.
  unfold media_content.
  pose proof (media_kind_allowed mediaType) as Hk.
  set (kind := media_kind mediaType) in *.
  simpl in Hk.
  destruct Hk as [<- | [<- | [<- | [<- | [<- | []]]]]];
    destruct (truthy caption), (truthy mimetype); reflexivity.
Qed.

(** C1, as amended. [buildMessageContent] rejects with [invalid_payload]
    every payload whose [message] is missing or not an object, whatever
    its [type]; a [text] payload whose [message.text] is not a string or
    is empty once trimmed; a [media] payload whose [message.mediaUrl] is
    missing, empty or not a string; and every payload whose [type] is not
    [text], [media] or [template]. An accepted [media] payload yields an
    object keyed by [mediaType] when that is one of the five recognised
    kinds and by [image] otherwise, carrying the URL, the mime type and
    the caption when given. A [template] payload whose [message] is an
    object yields that object unchanged. *)
Theorem buildMessageContent_spec (payload : JsVal) :
  let message := member_opt payload "message" in
  let mediaType := member_opt message "mediaType" in
  let caption := member_opt message "caption" in
  let mimetype := member_opt message "mimetype" in
  (payload <> JUndefined -> payload <> JNull -> is_object message = false ->
   fails_invalid (buildMessageContent payload))
  /\ (member payload "type" = Ok (JStr "text") ->
      (forall s, member_opt message "text" = JStr s -> trim s = "") ->
      fails_invalid (buildMessageContent payload))
  /\ (member payload "type" = Ok (JStr "media") ->
      (forall url, member_opt message "mediaUrl" = JStr url -> url = "") ->
      fails_invalid (buildMessageContent payload))
  /\ (member payload "type" = Ok (JStr "media") ->
      forall url, member_opt message "mediaUrl" = JStr url -> url <> "" ->
      exists kind,
        buildMessageContent payload =
          Ok (JObj ((kind,
                     JObj (("url", JStr url)
                           :: if truthy mimetype then [("mimetype", mimetype)] else []))
                    :: if truthy caption then [("caption", caption)] else []))
        /\ (has ALLOWED_MEDIA_TYPES mediaType = false -> kind = "image")
        /\ (forall k, mediaType = JStr k -> has ALLOWED_MEDIA_TYPES mediaType = true ->
            kind = k))
  /\ (member payload "type" = Ok (JStr "template") ->
      is_object message = true ->
      buildMessageContent payload = Ok message)
  /\ (forall type, member payload "type" = Ok type ->
      type <> JStr "text" -> type <> JStr "media" -> type <> JStr "template" ->
      fails_invalid (buildMessageContent payload)).
Proof.
  intros message mediaType caption mimetype.
  assert (Hcases : forall type, member payload "type" = Ok type ->
            payload <> JUndefined /\ payload <> JNull /\
            member_opt payload "type" = type /\
            (is_object message = false \/ is_object message = true)).
  { intros type H. apply member_Ok_inv in H as (-> & Hu & Hn).
    repeat split; try assumption. destruct (is_object message); auto. }
  repeat split.
  - intros Hu Hn Hobj. eexists. apply buildMessageContent_guard; assumption.
  - intros Ht Htext. destruct (Hcases _ Ht) as (Hu & Hn & Hty & [Hobj | Hobj]).
    + eexists. apply buildMessageContent_guard; assumption.
    + rewrite (buildMessageContent_object _ Hobj Hu Hn). cbv zeta. rewrite Hty. simpl.
      fold message. destruct (member_opt message "text") eqn:E; try (eexists; reflexivity).
      rewrite (Htext _ eq_refl). eexists; reflexivity.
  - intros Ht Hurl. destruct (Hcases _ Ht) as (Hu & Hn & Hty & [Hobj | Hobj]).
    + eexists. apply buildMessageContent_guard; assumption.
    + rewrite (buildMessageContent_object _ Hobj Hu Hn). cbv zeta. rewrite Hty. simpl.
      fold message.
      destruct (member_opt message "mediaUrl") eqn:E;
        simpl; rewrite ?orb_true_r; try (eexists; reflexivity).
      rewrite (Hurl _ eq_refl). eexists; reflexivity.
  - intros Ht url Hurl Hne. destruct (Hcases _ Ht) as (Hu & Hn & Hty & _).
    pose proof (member_opt_is_object _ _ _ Hurl) as Hobj.
    exists (media_kind mediaType). split; [|split].
    + rewrite (buildMessageContent_object _ Hobj Hu Hn). cbv zeta. rewrite Hty. simpl.
      fold message. rewrite Hurl. simpl.
      destruct (String.eqb_spec url ""); [contradiction|]. simpl.
      apply f_equal, media_content_shape.
    + apply media_kind_default.
    + intros k Hk Hhas. rewrite Hk in *. apply media_kind_has, Hhas.
  - intros Ht Hobj. destruct (Hcases _ Ht) as (Hu & Hn & Hty & _).
    rewrite (buildMessageContent_object _ Hobj Hu Hn). cbv zeta. rewrite Hty. reflexivity.
  - intros type Ht H1 H2 H3. destruct (Hcases _ Ht) as (Hu & Hn & Hty & [Hobj | Hobj]).
    + eexists. apply buildMessageContent_guard; assumption.
    + rewrite (buildMessageContent_object _ Hobj Hu Hn). cbv zeta. rewrite Hty.
      rewrite !is_str_false by assumption. eexists; reflexivity.
Qed.

(** The theorem at the payloads the specification lists: an empty text,
    a media message without [mediaType], an unknown type. *)
Lemma buildMessageContent_spec_witness :
  fails_invalid
    (buildMessageContent (JObj [("type", JStr "text"); ("message", JObj [("text", JStr "")])]))
  /\ (exists kind,
        buildMessageContent
          (JObj [("type", JStr "media"); ("message", JObj [("mediaUrl", JStr "http://x")])])
        = Ok (JObj [(kind, JObj [("url", JStr "http://x")])])
        /\ kind = "image")
  /\ fails_invalid (buildMessageContent (JObj [("type", JStr "unknown")])).
Proof.
  split; [|split].
  - destruct (buildMessageContent_spec
                (JObj [("type", JStr "text"); ("message", JObj [("text", JStr "")])]))
      as (_ & H & _).
    apply H; [reflexivity | intros s [= <-]; reflexivity].
  - destruct (buildMessageContent_spec
                (JObj [("type", JStr "media"); ("message", JObj [("mediaUrl", JStr "http://x")])]))
      as (_ & _ & _ & H & _).
    destruct (H eq_refl "http://x" eq_refl) as (kind & Hres & Himg & _); [discriminate|].
    exists kind. split; [exact Hres | apply Himg; reflexivity].
  - destruct (buildMessageContent_spec (JObj [("type", JStr "unknown")]))
      as (_ & _ & _ & _ & _ & H).
    apply (H (JStr "unknown")); [reflexivity | discriminate ..].
Defined.

(** C1 as stated fails: a [template] payload whose [message] is a string,
    or is missing, is rejected instead of having its message returned,
    and a [media] payload whose [mediaUrl] is the empty string, which is
    a string and is not missing, is rejected too. *)
Lemma buildMessageContent_template_media_rejected :
  buildMessageContent (JObj [("type", JStr "template"); ("message", JStr "hello")])
    = Throw (invalid_payload msg_message_required)
  /\ buildMessageContent (JObj [("type", JStr "template"); ("message", JStr "hello")])
     <> Ok (JStr "hello")
  /\ buildMessageContent (JObj [("type", JStr "template")])
     = Throw (invalid_payload msg_message_required)
  /\ buildMessageContent (JObj [("type", JStr "media"); ("message", JObj [("mediaUrl", JStr "")])])
     = Throw (invalid_payload msg_mediaUrl_required).
Proof. repeat split. discriminate. Qed.

(** C10. A [text] payload whose [message.text] is a string that is not
    empty once trimmed yields [{ text }] with the string as it was given:
    the trimming serves the check only. *)
Theorem buildMessageContent_text_verbatim (payload : JsVal) (s : string) :
  member payload "type" = Ok (JStr "text") ->
  member_opt (member_opt payload "message") "text" = JStr s ->
  trim s <> "" ->
  buildMessageContent payload = Ok (JObj [("text", JStr s)]).
Proof.
  intros Ht Hs Htrim.
  apply member_Ok_inv in Ht as (Hty & Hu & Hn).
  pose proof (member_opt_is_object _ _ _ Hs) as Hobj.
  rewrite (buildMessageContent_object _ Hobj Hu Hn). cbv zeta.
  rewrite <- Hty. simpl. rewrite Hs.
  destruct (String.eqb_spec (trim s) ""); [contradiction | reflexivity].
Qed.

(** A text padded with blanks passes the check and comes back padded. *)
Lemma buildMessageContent_text_verbatim_witness :
  trim "  hi  " = "hi"
  /\ buildMessageContent
       (JObj [("type", JStr "text"); ("message", JObj [("text", JStr "  hi  ")])])
     = Ok (JObj [("text", JStr "  hi  ")]).
Proof.
  split; [reflexivity|].
  apply (buildMessageContent_text_verbatim
           (JObj [("type", JStr "text"); ("message", JObj [("text", JStr "  hi  ")])])
           "  hi  ").
  - reflexivity.
  - reflexivity.
  - discriminate.
Defined.

End MessagesSpec.

(** ** The instance catalog *)

Section StoreSpec.
Import Js Eff Messages.

Lemma has_allowed_status (v : JsVal) :
  has Store.ALLOWED_STATUSES v = true <-> Store.allowed_status v.
Proof.
  unfold Store.allowed_status. destruct v; simpl;
    try (split; [discriminate | intros [H | [H | H]]; discriminate]).
  rewrite !orb_true_iff, !String.eqb_eq. split.
  - intros [-> | [-> | [-> | [=]]]]; auto.
  - intros [[= ->] | [[= ->] | [= ->]]]; auto.
Qed.

Lemma has_not_allowed_status (v : JsVal) :
  has Store.ALLOWED_STATUSES v = false <-> ~ Store.allowed_status v.
Proof.
  rewrite <- has_allowed_status.
  destruct (has Store.ALLOWED_STATUSES v); split; congruence.
Qed.

Lemma elem_of_store_list (s : Store.State) (row : Store.Row) :
  row ∈ Store.list s
  <-> (exists id r, Store.instances s !! id = Some r /\ row = Store.row_of r)
      \/ row ∈ Store.strays s.
Proof.
  unfold Store.list. rewrite elem_of_app, list_elem_of_fmap. split.
  - intros [(r & -> & Hr) | H]; [left | right; exact H].
    apply list_elem_of_fmap in Hr as ([id r'] & Heq & H). simpl in Heq. subst r'.
    exists id, r. split; [|reflexivity]. apply elem_of_map_to_list in H. exact H.
  - intros [(id & r & H & ->) | H]; [left | right; exact H].
    exists r. split; [reflexivity|]. apply list_elem_of_fmap. exists (id, r).
    split; [reflexivity|]. apply elem_of_map_to_list. exact H.
Qed.

Lemma json_obj (fields : list (string * JsVal)) :
  json (JObj fields) = JObj (json_props fields).
Proof.
  reflexivity.
Qed.

(** What is written of the records of the catalog: one object each. *)
Lemma json_rows (rows : list Store.Row) :
  json (JArr (Store.object_of <$> rows)) = JArr (Store.written <$> rows).
Proof.
  cbn [json]. f_equal. rewrite <- list_fmap_compose.
  apply list_fmap_ext. intros i row _. cbn [compose].
  unfold Store.written, Store.object_of. rewrite json_obj. reflexivity.
Qed.

Lemma save_persisted (s : Store.State) : Store.persisted (fst (Store.save s)).
Proof.
  unfold Store.persisted, Store.save. cbn [fst Store.file Store.set_file].
  rewrite json_rows. eexists. split; [reflexivity|].
  intros v. rewrite list_elem_of_fmap. split.
  - intros (row & -> & Hrow). exists row. split; [exact Hrow | reflexivity].
  - intros (row & Hrow & ->). exists row. split; [reflexivity | exact Hrow].
Qed.

Lemma truthy_JStr (x : string) : truthy (JStr x) = true <-> x <> "".
Proof.
  simpl. destruct (String.eqb_spec x ""); simpl; split; congruence.
Qed.

(** C5. [create] throws and leaves the store as it was when the
    identifier is empty (the failure the specification calls
    [InvalidArgument]) or already present ([instance_exists], the
    specification's [AlreadyExists]); otherwise it inserts a record with
    status [pending_qr] and the metadata supplied ([{}] when none is),
    writes the whole catalog to the file and returns the record. *)
Theorem create_spec (id : string) (metadata : JsVal) (s : Store.State) :
  (id = "" ->
   Store.create id metadata s = (s, Throw (Error None Store.msg_id_required)))
  /\ (id <> "" -> is_Some (Store.instances s !! id) ->
      Store.create id metadata s
      = (s, Throw (Error (Some "instance_exists") Store.msg_exists)))
  /\ (id <> "" -> Store.instances s !! id = None ->
      exists s' stored,
        Store.create id metadata s
        = (s', Ok {| Store.inst_id := id;
                     Store.inst_status := JStr "pending_qr";
                     Store.inst_metadata := stored |})
        /\ (truthy metadata = true -> stored = metadata)
        /\ (truthy metadata = false -> stored = JObj [])
        /\ Store.instances s'
           = <[id := {| Store.inst_id := id;
                        Store.inst_status := JStr "pending_qr";
                        Store.inst_metadata := stored |}]> (Store.instances s)
        /\ Store.persisted s').
Proof.
  repeat split.
  - intros ->. reflexivity.
  - intros Hid [existing Hex]. unfold Store.create.
    apply truthy_JStr in Hid. rewrite Hid, Hex. reflexivity.
  - intros Hid Hnone. unfold Store.create.
    apply truthy_JStr in Hid. rewrite Hid, Hnone. cbn.
    eexists _, (or_else metadata (JObj [])). split; [reflexivity|].
    unfold or_else. repeat split.
    + intros ->. reflexivity.
    + intros ->. reflexivity.
    + apply (save_persisted (Store.set_instances _ s)).
Qed.

(** The theorem on a catalog that holds [a]: the empty identifier and
    [a] are refused, [b] is inserted with its metadata. *)
Lemma create_spec_witness :
  Store.create "" JUndefined (Samples.store_a "ready")
  = (Samples.store_a "ready", Throw (Error None Store.msg_id_required))
  /\ Store.create "a" (JObj [("k", JNum 1)]) (Samples.store_a "ready")
     = (Samples.store_a "ready", Throw (Error (Some "instance_exists") Store.msg_exists))
  /\ exists s',
       fst (Store.create "b" (JObj [("k", JNum 1)]) (Samples.store_a "ready")) = s'
       /\ Store.instances s' !! "b"
          = Some {| Store.inst_id := "b"; Store.inst_status := JStr "pending_qr";
                    Store.inst_metadata := JObj [("k", JNum 1)] |}
       /\ Store.persisted s'.
Proof.
  set (s := Samples.store_a "ready"). split; [|split].
  - apply (create_spec "" JUndefined s). reflexivity.
  - apply (create_spec "a" (JObj [("k", JNum 1)]) s).
    + discriminate.
    + exists (Samples.inst "a" "ready"). apply lookup_singleton_eq.
  - destruct (create_spec "b" (JObj [("k", JNum 1)]) s) as (_ & _ & H).
    destruct H as (s' & stored & Hc & Ht & _ & Hi & Hp).
    + discriminate.
    + apply lookup_singleton_ne. discriminate.
    + exists s'. rewrite Hc. split; [reflexivity|]. split; [|exact Hp].
      rewrite Hi, (Ht eq_refl). apply lookup_insert_eq.
Defined.

(** C6. [updateStatus] first checks the status: a value outside the
    three allowed ones makes it throw [invalid_status] with the store
    untouched, whether or not the identifier is known. With an allowed
    status, an unknown identifier gives [null] and changes nothing; a
    known one has its status replaced, the other records and properties
    kept, and the catalog written to the file. *)
Theorem updateStatus_spec (id : string) (status : JsVal) (s : Store.State) :
  (~ Store.allowed_status status ->
   Store.updateStatus id status s
   = (s, Throw (Error (Some "invalid_status") Store.msg_invalid_status)))
  /\ (Store.allowed_status status -> Store.instances s !! id = None ->
      Store.updateStatus id status s = (s, Ok None))
  /\ (Store.allowed_status status ->
      forall instance, Store.instances s !! id = Some instance ->
      exists s',
        Store.updateStatus id status s
        = (s', Ok (Some {| Store.inst_id := Store.inst_id instance;
                           Store.inst_status := status;
                           Store.inst_metadata := Store.inst_metadata instance |}))
        /\ Store.instances s'
           = <[id := {| Store.inst_id := Store.inst_id instance;
                        Store.inst_status := status;
                        Store.inst_metadata := Store.inst_metadata instance |}]>
               (Store.instances s)
        /\ Store.persisted s').
Proof.
  repeat split.
  - intros H. apply has_not_allowed_status in H.
    unfold Store.updateStatus. rewrite H. reflexivity.
  - intros H Hnone. apply has_allowed_status in H.
    unfold Store.updateStatus. rewrite H, Hnone. reflexivity.
  - intros H instance Hsome. apply has_allowed_status in H.
    unfold Store.updateStatus. rewrite H, Hsome. cbn.
    eexists. split; [reflexivity|]. split; [reflexivity|].
    apply (save_persisted (Store.set_instances _ s)).
Qed.

(** The theorem on a catalog that holds [a]: [paused] is refused for
    [a] and for the unknown [zz]; [ready] is not found for [zz] and is
    written for [a]. *)
Lemma updateStatus_spec_witness :
  Store.updateStatus "a" (JStr "paused") (Samples.store_a "pending_qr")
  = (Samples.store_a "pending_qr",
     Throw (Error (Some "invalid_status") Store.msg_invalid_status))
  /\ Store.updateStatus "zz" (JStr "paused") (Samples.store_a "pending_qr")
     = (Samples.store_a "pending_qr",
        Throw (Error (Some "invalid_status") Store.msg_invalid_status))
  /\ Store.updateStatus "zz" (JStr "ready") (Samples.store_a "pending_qr")
     = (Samples.store_a "pending_qr", Ok None)
  /\ exists s',
       fst (Store.updateStatus "a" (JStr "ready") (Samples.store_a "pending_qr")) = s'
       /\ Store.instances s' !! "a" = Some (Samples.inst "a" "ready")
       /\ Store.persisted s'.
Proof.
  set (a := Samples.inst "a" "pending_qr"). set (s := Samples.store_a "pending_qr").
  assert (Hbad : ~ Store.allowed_status (JStr "paused")).
  { intros [H | [H | H]]; discriminate. }
  assert (Hgood : Store.allowed_status (JStr "ready")).
  { right; left; reflexivity. }
  split; [|split; [|split]].
  - apply (updateStatus_spec "a" (JStr "paused") s), Hbad.
  - apply (updateStatus_spec "zz" (JStr "paused") s), Hbad.
  - apply (updateStatus_spec "zz" (JStr "ready") s); [exact Hgood|].
    apply lookup_singleton_ne. discriminate.
  - destruct (updateStatus_spec "a" (JStr "ready") s) as (_ & _ & H).
    destruct (H Hgood a) as (s' & Hu & Hi & Hp).
    + apply lookup_singleton_eq.
    + exists s'. rewrite Hu. split; [reflexivity|]. split; [|exact Hp].
      rewrite Hi. apply lookup_insert_eq.
Defined.

(** C9. [delete] never throws and returns whether the identifier was in
    the catalog; it removes that record and no other; on an absent
    identifier it changes nothing, the file included; and deleting a
    second time returns [false] and leaves the state the first deletion
    produced. *)
Theorem delete_idempotent (id : string) (s : Store.State) :
  snd (Store.delete id s) = Ok (bool_decide (is_Some (Store.instances s !! id)))
  /\ Store.instances (fst (Store.delete id s)) = delete id (Store.instances s)
  /\ (Store.instances s !! id = None -> Store.delete id s = (s, Ok false))
  /\ Store.delete id (fst (Store.delete id s)) = (fst (Store.delete id s), Ok false).
Proof.
  assert (Habsent : forall s0, Store.instances s0 !! id = None ->
                               Store.delete id s0 = (s0, Ok false)).
  { intros s0 H. unfold Store.delete. rewrite H. reflexivity. }
  assert (Hrem : Store.instances (fst (Store.delete id s)) = delete id (Store.instances s)).
  { unfold Store.delete. destruct (Store.instances s !! id) eqn:E; cbn.
    - reflexivity.
    - symmetry. apply delete_id. exact E. }
  repeat split.
  - unfold Store.delete. destruct (Store.instances s !! id) eqn:E; cbn.
    + rewrite ?bool_decide_eq_true_2 by eauto. reflexivity.
    + rewrite ?bool_decide_eq_false_2 by (intros [? ?]; discriminate). reflexivity.
  - exact Hrem.
  - apply Habsent.
  - apply Habsent. rewrite Hrem. apply lookup_delete_eq.
Qed.

(** The theorem on an identifier that is not in the catalog. *)
Lemma delete_idempotent_witness :
  Store.delete "ghost" (Store.new (Store.Json (JArr [])))
  = (Store.new (Store.Json (JArr [])), Ok false).
Proof.
  destruct (delete_idempotent "ghost" (Store.new (Store.Json (JArr [])))) as (_ & _ & H & _).
  apply H. apply lookup_empty.
Defined.

End StoreSpec.

(** ** The status invariant *)

Section StatusInvariant.
Import Js Eff Messages Manager Run.

Lemma catalog_ok_insert (s : Store.State) (id : string) (r : Store.Instance) :
  Store.catalog_ok s -> Store.allowed_status (Store.inst_status r) ->
  Store.catalog_ok (Store.set_instances (<[id := r]> (Store.instances s)) s).
Proof.
  intros [Hs Hx] Hr. split; [|exact Hx].
  intros id' r'. cbn. rewrite lookup_insert.
  case_decide; [intros [= <-]; exact Hr | apply Hs].
Qed.

Lemma catalog_ok_delete (s : Store.State) (id : string) :
  Store.catalog_ok s ->
  Store.catalog_ok (Store.set_instances (delete id (Store.instances s)) s).
Proof.
  intros [Hs Hx]. split; [|exact Hx].
  intros id' r'. cbn. rewrite lookup_delete.
  case_decide; [discriminate | apply Hs].
Qed.

Lemma json_allowed_status (v : JsVal) : Store.allowed_status v -> json v = v.
Proof. intros [-> | [-> | ->]]; reflexivity. Qed.

(** The [status] read back from a record as it is written. *)
Lemma written_status (row : Store.Row) :
  member_opt (Store.written row) "status" = json (Store.row_status row).
Proof.
  unfold Store.written, Store.object_of. rewrite json_obj. cbn [json_props member_opt].
  destruct (json (Store.row_id row)); destruct (json (Store.row_status row));
    destruct (json (Store.row_metadata row)); reflexivity.
Qed.

Lemma save_inv (s : Store.State) :
  Store.catalog_ok s -> store_inv (fst (Store.save s)).
Proof.
  intros Hs. split; [exact Hs|].
  intros items item Hf Hitem. right.
  unfold Store.save in Hf. cbn [fst Store.file Store.set_file] in Hf.
  rewrite json_rows in Hf.
  injection Hf as <-. apply list_elem_of_fmap in Hitem as (row & -> & Hrow).
  rewrite written_status.
  assert (Hrow' : Store.allowed_status (Store.row_status row)).
  { apply elem_of_store_list in Hrow as [(id & r & Hr & ->) | Hrow].
    - exact (proj1 Hs _ _ Hr).
    - exact (proj2 Hs _ Hrow). }
  rewrite (json_allowed_status _ Hrow'). exact Hrow'.
Qed.

Lemma status_default (status : JsVal) :
  truthy status = false \/ Store.allowed_status status ->
  Store.allowed_status (or_else status (JStr "pending_qr")).
Proof.
  intros Hr. unfold or_else.
  destruct Hr as [-> | Hr]; [left; reflexivity|].
  destruct (truthy _); [exact Hr | left; reflexivity].
Qed.

Lemma set_stray_elem (row x : Store.Row) (rows : list Store.Row) :
  x ∈ Store.set_stray row rows -> x = row \/ x ∈ rows.
Proof.
  induction rows as [|y rows IH]; cbn.
  - intros H. apply list_elem_of_singleton in H. left. exact H.
  - destruct (Store.same_key _ _).
    + intros [-> | H]%elem_of_cons; [left; reflexivity | right; right; exact H].
    + intros [-> | H]%elem_of_cons; [right; left|].
      destruct (IH H) as [-> | H']; [left; reflexivity | right; right; exact H'].
Qed.

Lemma load_record_ok (item : JsVal) (s : Store.State) :
  Store.catalog_ok s ->
  truthy (member_opt item "status") = false
  \/ Store.allowed_status (member_opt item "status") ->
  Store.catalog_ok (fst (Store.load_record item s))
  /\ Store.file (fst (Store.load_record item s)) = Store.file s.
Proof.
  intros Hs Hr. unfold Store.load_record.
  destruct (member item "id") as [id|e]; [|split; [exact Hs | reflexivity]].
  apply status_default in Hr.
  assert (Hstray :
    Store.catalog_ok
      (Store.set_strays
         (Store.set_stray
            {| Store.row_id := id;
               Store.row_status := or_else (member_opt item "status") (JStr "pending_qr");
               Store.row_metadata := or_else (member_opt item "metadata") (JObj []) |}
            (Store.strays s)) s)).
  { destruct Hs as [Hs Hx]. split; [exact Hs|].
    intros x Hin. cbn in Hin. apply set_stray_elem in Hin as [-> | Hin];
      [exact Hr | exact (Hx _ Hin)]. }
  destruct id; cbn [fst]; (split; [|reflexivity]); try exact Hstray.
  apply catalog_ok_insert; [exact Hs | exact Hr].
Qed.

Lemma load_records_ok (items : list JsVal) :
  forall s,
  Store.catalog_ok s ->
  (forall item, item ∈ items ->
     truthy (member_opt item "status") = false
     \/ Store.allowed_status (member_opt item "status")) ->
  Store.catalog_ok (fst (Store.for_each Store.load_record items s))
  /\ Store.file (fst (Store.for_each Store.load_record items s)) = Store.file s.
Proof.
  induction items as [|item items IH]; intros s Hs Hp; [split; [exact Hs | reflexivity]|].
  cbn [Store.for_each]. unfold mbind.
  destruct (load_record_ok item s Hs) as [H1 H2]; [apply Hp; left|].
  destruct (Store.load_record item s) as [s1 [[]|e]]; cbn [fst] in *;
    [|split; assumption].
  destruct (IH s1 H1) as [H3 H4]; [intros x Hx; apply Hp; right; exact Hx|].
  split; [exact H3 | congruence].
Qed.

Lemma init_inv : keeps_store Store.init.
Proof.
  intros s [Hc Hf]. unfold Store.init.
  destruct (Store.initialized s); [split; assumption|].
  unfold mbind at 1. unfold Store.ensureInstancesFile.
  assert (Hgo : forall s0, Store.catalog_ok s0 -> Store.file_ok (Store.file s0) ->
            store_inv
              (fst ((parsed <- (fun s =>
                                  match Store.file s with
                                  | Store.Json parsed => (s, Ok parsed)
                                  | _ => (s, Throw SyntaxError)
                                  end) ;;
                     match parsed with
                     | JArr items =>
                         Store.for_each Store.load_record items ;;;
                         modify (Store.set_initialized true)
                     | _ => throw TypeError
                     end)%eff s0))).
  { intros s0 Hc0 Hf0. unfold mbind at 1.
    destruct (Store.file s0) as [| |parsed] eqn:E; cbn [fst];
      try (split; [exact Hc0 | unfold store_inv; rewrite E; exact Hf0]).
    destruct parsed as [| |b|n| |neg|str|items|fields];
      try (split; [exact Hc0 | unfold store_inv; cbn [fst throw]; rewrite E; exact Hf0]).
    unfold mbind.
    destruct (load_records_ok items s0 Hc0) as [H1 H2];
      [intros item Hitem; exact (Hf0 _ _ eq_refl Hitem)|].
    destruct (Store.for_each Store.load_record items s0) as [s1 [[]|e]]; cbn [fst] in *.
    - split; [exact H1|]. cbn. rewrite H2, E. exact Hf0.
    - split; [exact H1 | rewrite H2, E; exact Hf0]. }
  destruct (Store.file s) eqn:E.
  - apply Hgo; [exact Hc|]. intros items item [= <-] H. inversion H.
  - apply Hgo; [exact Hc | rewrite E; exact Hf].
  - apply Hgo; [exact Hc | rewrite E; exact Hf].
Qed.

Lemma create_inv (id : string) (metadata : JsVal) : keeps_store (Store.create id metadata).
Proof.
  intros s [Hc Hf]. unfold Store.create.
  destruct (negb _); [split; assumption|].
  destruct (Store.instances s !! id); [split; assumption|].
  apply (save_inv (Store.set_instances _ s)), catalog_ok_insert; [exact Hc|].
  left; reflexivity.
Qed.

Lemma delete_inv (id : string) : keeps_store (Store.delete id).
Proof.
  intros s [Hc Hf]. unfold Store.delete.
  destruct (Store.instances s !! id); [|split; assumption].
  apply (save_inv (Store.set_instances _ s)), catalog_ok_delete, Hc.
Qed.

Lemma updateStatus_inv (id : string) (status : JsVal) :
  keeps_store (Store.updateStatus id status).
Proof.
  intros s [Hc Hf]. unfold Store.updateStatus.
  destruct (has Store.ALLOWED_STATUSES status) eqn:E; [|split; assumption].
  cbn. destruct (Store.instances s !! id); [|split; assumption].
  apply (save_inv (Store.set_instances _ s)), catalog_ok_insert; [exact Hc|].
  apply has_allowed_status, E.
Qed.

Lemma updateMetadata_inv (id : string) (metadata : JsVal) :
  keeps_store (Store.updateMetadata id metadata).
Proof.
  intros s [Hc Hf]. unfold Store.updateMetadata.
  destruct (Store.instances s !! id) eqn:E; [|split; assumption].
  apply (save_inv (Store.set_instances _ s)), catalog_ok_insert; [exact Hc|].
  exact (proj1 Hc _ _ E).
Qed.

(** How [keeps] goes through the constructs of the manager's methods. *)

Lemma keeps_ret {A : Type} (a : A) : keeps (ret a).
Proof. intros w H. exact H. Qed.

Lemma keeps_throw {A : Type} (e : Exn) : keeps (@throw World A e).
Proof. intros w H. exact H. Qed.

Lemma keeps_gets {A : Type} (f : World -> A) : keeps (gets f).
Proof. intros w H. exact H. Qed.

Lemma keeps_bind {A B : Type} (m : M World A) (k : A -> M World B) :
  keeps m -> (forall a, keeps (k a)) -> keeps (mbind m k).
Proof.
  intros Hm Hk w H. unfold mbind. specialize (Hm w H).
  destruct (m w) as [w' [a | e]]; cbn in *; [apply Hk|]; exact Hm.
Qed.

Lemma keeps_attempt {A : Type} (m : M World A) : keeps m -> keeps (attempt m).
Proof.
  intros Hm w H. unfold attempt. specialize (Hm w H).
  destruct (m w) as [w' r]. exact Hm.
Qed.

Lemma keeps_modify (f : World -> World) :
  (forall w, store (f w) = store w) -> keeps (modify f).
Proof. intros Hf w H. cbn. rewrite Hf. exact H. Qed.

Lemma keeps_emit (e : Event) : keeps (emit e).
Proof. apply keeps_modify. reflexivity. Qed.

Lemma keeps_update_session (id : string) (f : Session -> Session) :
  keeps (update_session id f).
Proof.
  apply keeps_modify. intros w. destruct (sessions w !! id); reflexivity.
Qed.

Lemma keeps_on_store {A : Type} (m : M Store.State A) : keeps_store m -> keeps (on_store m).
Proof.
  intros Hm w H. unfold on_store. specialize (Hm _ H).
  destruct (m (store w)) as [st r]. exact Hm.
Qed.

Create HintDb keeps discriminated.
#[local] Hint Resolve keeps_ret keeps_throw keeps_gets keeps_attempt keeps_emit
  keeps_update_session keeps_on_store updateStatus_inv create_inv delete_inv
  updateMetadata_inv : keeps.

(** Splits a method along its binds and matches down to the leaves. *)
Ltac keeps_step :=
  match goal with
  | |- keeps (mbind _ _) => apply keeps_bind; [|intros ?]
  | |- keeps (match ?x with _ => _ end) => destruct x
  | |- keeps (if ?b then _ else _) => destruct b
  | |- keeps (modify _) => apply keeps_modify; intros ?; reflexivity
  | |- keeps _ => solve [auto with keeps]
  end.

(** The removal of a path takes at most the file away, not what the
    catalog holds. *)
Lemma keeps_rm_authDir (env : Env) (id : string) : keeps (rm_authDir env id).
Proof.
  intros w [Hc Hf]. unfold rm_authDir.
  destruct (includes id 0); [split; assumption|].
  unfold modify, store_after_rm. cbn [fst store].
  destruct (authDir id); [split; assumption|].
  destruct (rm_takes_catalog env id); [|split; assumption].
  split; [exact Hc|]. intros items item [=].
Qed.

Lemma keeps_cleanupSession (env : Env) (id : string) (keepData : bool) :
  keeps (cleanupSession env id keepData).
Proof.
  pose proof (keeps_rm_authDir env id).
  unfold cleanupSession. repeat keeps_step.
Qed.

Lemma keeps_initializeForInstance (env : Env) (id : string) :
  keeps (initializeForInstance env id).
Proof.
  intros w H. unfold initializeForInstance.
  destruct (sessions w !! id); [exact H|].
  destruct (Store.get id (store w)); [|exact H].
  cbn. destruct (makeWASocket env id); exact H.
Qed.

Lemma keeps_getOrCreateSession (env : Env) (id : string) :
  keeps (getOrCreateSession env id).
Proof.
  intros w H. unfold getOrCreateSession.
  destruct (sessions w !! id); [exact H|].
  apply keeps_initializeForInstance, H.
Qed.

Lemma keeps_handleConnectionUpdate (env : Env) (id : string) (update : ConnectionUpdate) :
  keeps (handleConnectionUpdate env id update).
Proof.
  pose proof (keeps_cleanupSession env id false).
  unfold handleConnectionUpdate, on_qr, on_connection. repeat keeps_step.
Qed.

Lemma keeps_sendMessage (env : Env) (id to : string) (payload : JsVal) :
  keeps (Routes.sendMessage env id to payload).
Proof.
  pose proof (keeps_getOrCreateSession env id).
  unfold Routes.sendMessage. repeat keeps_step.
Qed.

Lemma keeps_post_messages (env : Env) (req_body : JsVal) :
  keeps (Routes.post_messages env req_body).
Proof.
  unfold Routes.post_messages.
  repeat (keeps_step || apply keeps_sendMessage).
Qed.

Lemma boot_inv (f : Store.File) (dirs : gset string) (tr : list Event) :
  Store.file_ok f -> store_inv (store (boot f dirs tr)).
Proof.
  intros Hf. unfold boot. cbn [store]. apply init_inv. split; [|exact Hf].
  split.
  - intros id r. cbn. rewrite lookup_empty. discriminate.
  - intros row H. cbn in H. inversion H.
Qed.

Lemma step_inv (op : Op) (w : World) :
  store_inv (store w) -> store_inv (store (step op w)).
Proof.
  intros H. destruct op; cbn [step].
  - apply (keeps_on_store _ (create_inv id metadata)), H.
  - apply (keeps_on_store _ (delete_inv id)), H.
  - apply (keeps_on_store _ (updateStatus_inv id status)), H.
  - apply (keeps_on_store _ (updateMetadata_inv id metadata)), H.
  - apply keeps_initializeForInstance, H.
  - apply keeps_handleConnectionUpdate, H.
  - apply keeps_cleanupSession, H.
  - apply keeps_post_messages, H.
  - apply boot_inv, H.
Qed.

Lemma run_inv (ops : list Op) :
  forall w, store_inv (store w) -> store_inv (store (run ops w)).
Proof.
  induction ops as [|op ops IH]; intros w H; [exact H|].
  cbn. apply IH, step_inv, H.
Qed.

End StatusInvariant.

Section StatusInvariantClaim.
Import Js Eff Messages Manager Run.

(** C2, as amended. When the catalog file read by [init] gives every
    record an allowed status or none, every state reached by creations,
    deletions, status and metadata updates, session openings, connection
    events, clean-ups, message requests and restarts holds only records
    whose status is [pending_qr], [ready] or [disconnected], those that a
    file brought in under a key that is not a string included; and
    [updateStatus] throws, leaving the store as it was, on any other
    value. [init] itself copies whatever truthy status the file gives. *)
Theorem status_invariant (f : Store.File) (dirs : gset string) (tr : list Event)
    (ops : list Op) :
  Store.file_ok f ->
  (forall id r,
     Store.instances (store (run ops (boot f dirs tr))) !! id = Some r ->
     Store.inst_status r = JStr "pending_qr"
     \/ Store.inst_status r = JStr "ready"
     \/ Store.inst_status r = JStr "disconnected")
  /\ (forall row,
       row ∈ Store.strays (store (run ops (boot f dirs tr))) ->
       Store.row_status row = JStr "pending_qr"
       \/ Store.row_status row = JStr "ready"
       \/ Store.row_status row = JStr "disconnected")
  /\ (forall id status s,
       status <> JStr "pending_qr" -> status <> JStr "ready" ->
       status <> JStr "disconnected" ->
       exists e, Store.updateStatus id status s = (s, Throw e)).
Proof.
  intros Hf.
  destruct (run_inv ops (boot f dirs tr) (boot_inv f dirs tr Hf)) as [[Hown Hstray] _].
  split; [exact Hown|]. split; [exact Hstray|].
  intros id status s H1 H2 H3. eexists.
  apply (updateStatus_spec id status s).
  intros [H | [H | H]]; contradiction.
Qed.

(** The theorem on [Samples.run_b], started from a file that holds one
    [ready] record: at the end [b] is [disconnected]. *)
Lemma status_invariant_witness :
  exists r,
    Store.instances
      (store (run Samples.run_b (boot (Samples.file_of [Samples.inst "a" "ready"]) ∅ [])))
    !! "b" = Some r
    /\ r = Samples.inst "b" "disconnected"
    /\ (Store.inst_status r = JStr "pending_qr"
        \/ Store.inst_status r = JStr "ready"
        \/ Store.inst_status r = JStr "disconnected").
Proof.
  assert (Hfile : Store.file_ok (Samples.file_of [Samples.inst "a" "ready"])).
  { intros items item [= <-] Hitem. right.
    apply list_elem_of_singleton in Hitem as ->. right; left; reflexivity. }
  destruct (status_invariant (Samples.file_of [Samples.inst "a" "ready"]) ∅ []
              Samples.run_b Hfile) as [Hinv _].
  assert (Hb : Store.instances
                 (store (run Samples.run_b
                           (boot (Samples.file_of [Samples.inst "a" "ready"]) ∅ [])))
               !! "b" = Some (Samples.inst "b" "disconnected"))
    by (vm_compute; reflexivity).
  exists (Samples.inst "b" "disconnected").
  split; [exact Hb|]. split; [reflexivity|]. exact (Hinv "b" _ Hb).
Defined.

(** C2 as stated fails at the load: [init] trusts the file, so a record
    written there with the status [bogus] enters the catalog with it. *)
Lemma status_invariant_broken_by_load :
  Store.instances (store (boot Samples.bogus_file ∅ [])) !! "a"
  = Some (Samples.inst "a" "bogus")
  /\ ~ Store.allowed_status (Store.inst_status (Samples.inst "a" "bogus"))
  /\ ~ Store.catalog_ok (store (run [] (boot Samples.bogus_file ∅ []))).
Proof.
  assert (Hload : Store.instances (store (boot Samples.bogus_file ∅ [])) !! "a"
                  = Some (Samples.inst "a" "bogus")).
  { vm_compute. reflexivity. }
  assert (Hbad : ~ Store.allowed_status (Store.inst_status (Samples.inst "a" "bogus"))).
  { intros [H | [H | H]]; discriminate. }
  split; [exact Hload|]. split; [exact Hbad|].
  intros Hok. apply Hbad. exact (proj1 Hok _ _ Hload).
Qed.

End StatusInvariantClaim.

(** ** The session registry *)

Section ManagerSpec.
Import Js Eff Messages Manager.

(** C7. For a session that holds a QR code, [getQRCode] returns it with
    [expiresIn = max(0, floor((expiresAt - now) / 1000))]; this is never
    negative, does not grow when [now] advances, and is [0] from the
    expiry time on. Without a session, or with a session that holds no
    QR code, [getQRCode] returns [null]. *)
Theorem getQRCode_spec (env env' : Env) (id : string) (w : World) :
  (forall session q, sessions w !! id = Some session -> qr session = Some q ->
     getQRCode env id w
     = Some {| r_instanceId := id; r_type := qr_type q; r_value := qr_value q;
               r_expiresIn := Z.max 0 ((qr_expiresAt q - now env) / 1000) |}
     /\ exists e e',
          r_expiresIn <$> getQRCode env id w = Some e
          /\ r_expiresIn <$> getQRCode env' id w = Some e'
          /\ (0 <= e)%Z
          /\ ((now env <= now env')%Z -> (e' <= e)%Z)
          /\ ((qr_expiresAt q <= now env)%Z -> e = 0%Z))
  /\ (sessions w !! id = None -> getQRCode env id w = None)
  /\ (forall session, sessions w !! id = Some session -> qr session = None ->
      getQRCode env id w = None).
Proof.
  repeat split.
  - unfold getQRCode. rewrite H. destruct session as [sk q0 c]. cbn in *. subst q0.
    reflexivity.
  - unfold getQRCode. rewrite H. destruct session as [sk q0 c]. cbn in *. subst q0.
    cbn. eexists _, _. split; [reflexivity|]. split; [reflexivity|].
    split; [apply Z.le_max_l|]. split.
    + intros Hnow. apply Z.max_le_compat_l, Z.div_le_mono; lia.
    + intros Hexp. apply Z.max_l.
      assert ((qr_expiresAt q - now env) / 1000 <= 0 / 1000)%Z
        by (apply Z.div_le_mono; lia).
      rewrite Z.div_0_l in *; lia.
  - intros Hnone. unfold getQRCode. rewrite Hnone. reflexivity.
  - intros session Hs Hq. unfold getQRCode. rewrite Hs.
    destruct session as [sk q0 c]. cbn in *. subst q0. reflexivity.
Qed.

(** The theorem on a QR code that expires at 120000, read at 1500 and
    at 119999, and again at the expiry time. *)
Lemma getQRCode_spec_witness :
  (exists e e',
     r_expiresIn <$> getQRCode (Samples.env_at 1500) "a" (Samples.world_a "pending_qr" "close")
     = Some e
     /\ r_expiresIn <$> getQRCode (Samples.env_at 119999) "a"
                         (Samples.world_a "pending_qr" "close") = Some e'
     /\ (e' <= e)%Z)
  /\ (exists e e',
        r_expiresIn <$> getQRCode (Samples.env_at 120000) "a"
                          (Samples.world_a "pending_qr" "close") = Some e
        /\ r_expiresIn <$> getQRCode (Samples.env_at 120000) "a"
                            (Samples.world_a "pending_qr" "close") = Some e'
        /\ e = 0%Z)
  /\ getQRCode (Samples.env_at 0) "b" (Samples.world_a "pending_qr" "close") = None.
Proof.
  split; [|split].
  - destruct (getQRCode_spec (Samples.env_at 1500) (Samples.env_at 119999) "a"
                (Samples.world_a "pending_qr" "close")) as (H & _).
    destruct (H _ _ (lookup_singleton_eq _ _) eq_refl)
      as (_ & e & e' & He & He' & _ & Hmono & _).
    exists e, e'. split; [exact He|]. split; [exact He'|].
    apply Hmono. cbn. lia.
  - destruct (getQRCode_spec (Samples.env_at 120000) (Samples.env_at 120000) "a"
                (Samples.world_a "pending_qr" "close")) as (H & _).
    destruct (H _ _ (lookup_singleton_eq _ _) eq_refl)
      as (_ & e & e' & He & He' & _ & _ & Hzero).
    exists e, e'. split; [exact He|]. split; [exact He'|].
    apply Hzero. cbn. lia.
  - apply (getQRCode_spec (Samples.env_at 0) (Samples.env_at 0) "b"
             (Samples.world_a "pending_qr" "close")).
    apply lookup_singleton_ne. discriminate.
Defined.

(** *** What a removal takes *)

Lemma gone_self (env : Env) (id : string) : gone env id id = true.
Proof. unfold gone. rewrite String.eqb_refl. reflexivity. Qed.

Lemma gone_inside (env : Env) (id other : string) (target path : list string) :
  authDir id = Some target -> authDir other = Some path ->
  gone env id other = true <-> target `prefix_of` path.
Proof.
  intros Hid Hother. unfold gone.
  destruct (String.eqb_spec other id) as [-> | Hne].
  - split; [intros _ | reflexivity]. rewrite Hid in Hother. injection Hother as <-.
    reflexivity.
  - rewrite Hid, Hother. apply bool_decide_eq_true.
Qed.

Lemma elem_of_dirs_after_rm (env : Env) (id other : string) (dirs : gset string) :
  other ∈ dirs_after_rm env id dirs <-> other ∈ dirs /\ gone env id other = false.
Proof. unfold dirs_after_rm. rewrite elem_of_filter. tauto. Qed.

(** An identifier that is one file name takes its own directory and no
    other, among directories that go by one file name each. *)
Lemma dirs_after_rm_entry (env : Env) (id : string) (dirs : gset string) :
  authDir id = Some [id] ->
  (forall other, other ∈ dirs -> authDir other = Some [other]) ->
  dirs_after_rm env id dirs = dirs ∖ {[id]}.
Proof.
  intros Hid Hdirs. apply set_eq. intros other.
  rewrite elem_of_dirs_after_rm, elem_of_difference, elem_of_singleton.
  split.
  - intros [Hin Hgone]. split; [exact Hin|]. intros ->.
    rewrite gone_self in Hgone. discriminate.
  - intros [Hin Hne]. split; [exact Hin|].
    destruct (gone env id other) eqn:E; [|reflexivity].
    apply (gone_inside env id other [id] [other] Hid (Hdirs _ Hin)) in E.
    destruct E as [k E]. injection E as E _. congruence.
Qed.

(** A path that stays in [SESSIONS_DIR] holds no NUL. *)
Lemma authDir_no_nul (id : string) (target : list string) :
  authDir id = Some target -> includes id 0 = false.
Proof. unfold authDir. destruct (includes id 0); [discriminate | reflexivity]. Qed.

(** What [cleanupSession] leaves behind, whatever the client does. *)
Lemma cleanupSession_run (env : Env) (id : string) (keepData : bool) (w : World) :
  exists tr,
    cleanupSession env id keepData w
    = (if keepData || includes id 0 then
         {| store := store w;
            sessions := delete id (sessions w);
            auth_dirs := auth_dirs w;
            trace := trace w ++ tr |}
       else
         {| store := store_after_rm env id (store w);
            sessions := delete id (sessions w);
            auth_dirs := dirs_after_rm env id (auth_dirs w);
            trace := trace w ++ tr |},
       if negb keepData && includes id 0 then Throw TypeError else Ok tt).
Proof.
  unfold cleanupSession, rm_authDir, mbind, gets, emit, modify, ret, throw. cbn.
  destruct (sessions w !! id) as [session|]; cbn.
  - destruct (sock_logout (sock session)) as [|[text|]]; cbn;
      [|destruct (negb (text =? "")); cbn;
        [destruct (negb (regex_test_ci "not logged in" text)); cbn|]|];
      destruct (sock_ws (sock session)); cbn; destruct keepData; cbn;
      try destruct (includes id 0); cbn;
      rewrite <- ?app_assoc; eexists; reflexivity.
  - destruct keepData; cbn; try destruct (includes id 0); cbn;
      exists []; rewrite app_nil_r; reflexivity.
Qed.

(** The catalog in memory is out of reach of a removal. *)
Lemma store_after_rm_memory (env : Env) (id : string) (st : Store.State) :
  Store.instances (store_after_rm env id st) = Store.instances st
  /\ Store.strays (store_after_rm env id st) = Store.strays st
  /\ Store.initialized (store_after_rm env id st) = Store.initialized st.
Proof.
  unfold store_after_rm. destruct (authDir id); [auto|].
  destruct (rm_takes_catalog env id); auto.
Qed.

Lemma cleanupSession_memory (env : Env) (id : string) (keepData : bool) (w : World) :
  sessions (fst (cleanupSession env id keepData w)) = delete id (sessions w)
  /\ Store.instances (store (fst (cleanupSession env id keepData w)))
     = Store.instances (store w)
  /\ Store.strays (store (fst (cleanupSession env id keepData w)))
     = Store.strays (store w).
Proof.
  destruct (cleanupSession_run env id keepData w) as (tr & ->).
  destruct (store_after_rm_memory env id (store w)) as (H1 & H2 & _).
  cbn [fst]. destruct (keepData || includes id 0); cbn [sessions store]; auto.
Qed.

(** C8. [cleanupSession] never fails on what [logout] and [ws.close]
    do; it removes the session registered for the identifier and no
    other, in every case, and never touches what the catalog holds in
    memory. With [keepData] true it returns normally and the directories
    and the catalog file are left alone. With [keepData] false it
    removes [path.join(SESSIONS_DIR, instanceId)] and returns normally,
    unless the identifier holds a NUL, which [fsp.rm] refuses with a
    [TypeError] and which no directory can have in its name. The
    credential directory of the identifier is then deleted, and nothing
    is created; as long as the path stays in [SESSIONS_DIR] the catalog
    file is left alone and the directories that go with it are those at
    that path or under it, which for an identifier that is one file
    name, among directories that are, is its own and no other. A
    [logout] rejected with a message that contains [not logged in], in
    any letter case, leaves the same trace as one that resolved: nothing
    is logged. *)
Theorem cleanupSession_spec (env : Env) (id : string) (keepData : bool) (w : World) :
  sessions (fst (cleanupSession env id keepData w)) = delete id (sessions w)
  /\ Store.instances (store (fst (cleanupSession env id keepData w)))
     = Store.instances (store w)
  /\ (keepData = true ->
      snd (cleanupSession env id keepData w) = Ok tt
      /\ auth_dirs (fst (cleanupSession env id keepData w)) = auth_dirs w
      /\ store (fst (cleanupSession env id keepData w)) = store w)
  /\ (keepData = false -> includes id 0 = true ->
      snd (cleanupSession env id keepData w) = Throw TypeError
      /\ auth_dirs (fst (cleanupSession env id keepData w)) = auth_dirs w
      /\ store (fst (cleanupSession env id keepData w)) = store w)
  /\ (keepData = false -> includes id 0 = false ->
      snd (cleanupSession env id keepData w) = Ok tt
      /\ (id ∉ auth_dirs (fst (cleanupSession env id keepData w)))
      /\ auth_dirs (fst (cleanupSession env id keepData w)) ⊆ auth_dirs w
      /\ (forall target, authDir id = Some target ->
          store (fst (cleanupSession env id keepData w)) = store w
          /\ forall other path, authDir other = Some path ->
               other ∈ auth_dirs (fst (cleanupSession env id keepData w))
               <-> other ∈ auth_dirs w /\ ~ target `prefix_of` path)
      /\ (authDir id = Some [id] ->
          (forall other, other ∈ auth_dirs w -> authDir other = Some [other]) ->
          auth_dirs (fst (cleanupSession env id keepData w)) = auth_dirs w ∖ {[id]}))
  /\ (id ∈ auth_dirs w -> includes id 0 = false ->
      (id ∉ auth_dirs (fst (cleanupSession env id keepData w))) <-> keepData = false)
  /\ (forall session, sessions w !! id = Some session ->
      sock_logout (sock session) = Resolves
      \/ (exists text, sock_logout (sock session) = Rejects (Some text)
                       /\ regex_test_ci "not logged in" text = true) ->
      trace (fst (cleanupSession env id keepData w))
      = (trace w ++ CallLogout id
                    :: match sock_ws (sock session) with
                       | Some _ => [CallWsClose id]
                       | None => []
                       end)%list).
Proof.
  destruct (cleanupSession_memory env id keepData w) as (Hsess & Hinst & _).
  destruct (cleanupSession_run env id keepData w) as (tr & Hrun).
  assert (Hself : id ∉ dirs_after_rm env id (auth_dirs w)).
  { rewrite elem_of_dirs_after_rm, gone_self. intros [_ H]. discriminate. }
  split; [exact Hsess|]. split; [exact Hinst|].
  split; [intros ->; rewrite Hrun; repeat split|].
  split; [intros -> Hnul; rewrite Hrun, Hnul; repeat split|].
  split.
  { intros -> Hnul. rewrite Hrun, Hnul. cbn [fst snd auth_dirs store orb andb negb].
    split; [reflexivity|]. split; [exact Hself|]. split.
    { intros other Hin. apply elem_of_dirs_after_rm in Hin. tauto. }
    split.
    - intros target Htarget. split.
      + unfold store_after_rm. rewrite Htarget. reflexivity.
      + intros other path Hpath.
        rewrite elem_of_dirs_after_rm, <- (gone_inside env id other _ _ Htarget Hpath).
        destruct (gone env id other); split; intros [? ?]; split; congruence.
    - apply dirs_after_rm_entry. }
  split.
  { intros Hin Hnul. rewrite Hrun, Hnul. destruct keepData; cbn [fst auth_dirs orb].
    - split; [intros Hn; contradiction | discriminate].
    - split; [reflexivity | intros _; exact Hself]. }
  clear tr Hrun. intros session Hs Hquiet.
  unfold cleanupSession, rm_authDir, mbind, gets, emit, modify, ret, throw. cbn.
  rewrite Hs. cbn.
  destruct Hquiet as [-> | (text & -> & Hre)]; cbn.
  - destruct (sock_ws (sock session)), keepData; cbn;
      try destruct (includes id 0); cbn; rewrite <- ?app_assoc; reflexivity.
  - destruct (negb (text =? "")); cbn; rewrite ?Hre; cbn;
      destruct (sock_ws (sock session)), keepData; cbn;
      try destruct (includes id 0); cbn; rewrite <- ?app_assoc; reflexivity.
Qed.

(** The theorem on a session whose [logout] rejects with
    [Error: Not logged in] and whose transport fails to close: the call
    returns, the session and the directory are gone, nothing is logged. *)
Lemma cleanupSession_spec_witness :
  snd (cleanupSession (Samples.env_at 0) "a" false (Samples.world_a "ready" "open")) = Ok tt
  /\ sessions (fst (cleanupSession (Samples.env_at 0) "a" false
                      (Samples.world_a "ready" "open"))) !! "a" = None
  /\ ("a" ∉ auth_dirs (fst (cleanupSession (Samples.env_at 0) "a" false
                              (Samples.world_a "ready" "open"))))
  /\ auth_dirs (fst (cleanupSession (Samples.env_at 0) "a" false
                       (Samples.world_a "ready" "open"))) = {["a"]} ∖ {["a"]}
  /\ auth_dirs (fst (cleanupSession (Samples.env_at 0) "a" true
                       (Samples.world_a "ready" "open"))) = {["a"]}
  /\ trace (fst (cleanupSession (Samples.env_at 0) "a" false
                   (Samples.world_a "ready" "open")))
     = [CallLogout "a"; CallWsClose "a"].
Proof.
  destruct (cleanupSession_spec (Samples.env_at 0) "a" false (Samples.world_a "ready" "open"))
    as (Hsess & _ & _ & _ & Hdel & Hiff & Htrace).
  destruct (cleanupSession_spec (Samples.env_at 0) "a" true (Samples.world_a "ready" "open"))
    as (_ & _ & Hkeep & _).
  destruct (Hdel eq_refl eq_refl) as (Hret & _ & _ & _ & Hentry).
  split; [exact Hret|]. split; [rewrite Hsess; apply lookup_delete_eq|].
  split.
  { apply Hiff; [|reflexivity|reflexivity].
    unfold Samples.world_a. cbn [auth_dirs]. apply elem_of_singleton_2. reflexivity. }
  split.
  { apply Hentry; [reflexivity|].
    intros other Hin. unfold Samples.world_a in Hin. cbn [auth_dirs] in Hin.
    apply elem_of_singleton in Hin as ->. reflexivity. }
  split; [exact (proj1 (proj2 (Hkeep eq_refl)))|].
  apply (Htrace _ (lookup_singleton_eq _ _)).
  right. exists "Error: Not logged in". split; reflexivity.
Defined.

(** *** Connection updates *)

Lemma mbind_run {S A B : Type} (m : M S A) (k : A -> M S B) (s s1 : S) (a : A) :
  m s = (s1, Ok a) -> mbind m k s = k a s1.
Proof. intros H. unfold mbind. rewrite H. reflexivity. Qed.

Lemma update_session_run (id : string) (f : Session -> Session) (w : World)
    (session : Session) :
  sessions w !! id = Some session ->
  update_session id f w = (set_sessions (<[id := f session]> (sessions w)) w, Ok tt).
Proof. intros H. unfold update_session, modify. rewrite H. reflexivity. Qed.

(** [updateStatus] with one of the three literals, seen from the manager. *)
Lemma on_store_updateStatus_run (id : string) (status : JsVal) (w : World) :
  Store.allowed_status status ->
  exists st r,
    on_store (Store.updateStatus id status) w = (set_store st w, Ok r)
    /\ Store.instances st
       = match Store.instances (store w) !! id with
         | Some instance =>
             <[id := {| Store.inst_id := Store.inst_id instance;
                        Store.inst_status := status;
                        Store.inst_metadata := Store.inst_metadata instance |}]>
               (Store.instances (store w))
         | None => Store.instances (store w)
         end.
Proof.
  intros Hst. apply has_allowed_status in Hst.
  unfold on_store, Store.updateStatus. rewrite Hst. cbn.
  destruct (Store.instances (store w) !! id); cbn; eexists _, _; split; reflexivity.
Qed.

(** The QR block keeps the session registered, with its client handle
    and phase, keeps the directories, and changes at most the status of
    the instance. *)
Lemma on_qr_run (env : Env) (id : string) (update : ConnectionUpdate) (w : World)
    (session : Session) :
  sessions w !! id = Some session ->
  exists w1 session1,
    on_qr env id update w = (w1, Ok tt)
    /\ sessions w1 !! id = Some session1
    /\ sock session1 = sock session
    /\ connection session1 = connection session
    /\ auth_dirs w1 = auth_dirs w
    /\ (forall instance, Store.instances (store w) !! id = Some instance ->
        exists instance1,
          Store.instances (store w1) !! id = Some instance1
          /\ Store.inst_id instance1 = Store.inst_id instance
          /\ Store.inst_metadata instance1 = Store.inst_metadata instance).
Proof.
  intros Hs. unfold on_qr.
  destruct (given (u_qr update)) as [text|].
  - cbv zeta. rewrite (mbind_run _ _ _ _ _ (update_session_run id _ w session Hs)).
    set (w0 := set_sessions _ w).
    destruct (on_store_updateStatus_run id (JStr "pending_qr") w0) as (st & r & Hrun & Hinst);
      [left; reflexivity|].
    rewrite (mbind_run _ _ _ _ _ Hrun).
    eexists _, _. split; [reflexivity|]. cbn.
    split; [apply lookup_insert_eq|]. repeat split.
    intros instance Hi. rewrite Hinst. cbn. rewrite Hi.
    eexists. split; [apply lookup_insert_eq|]. split; reflexivity.
  - exists w, session. repeat split; try assumption. eauto.
Qed.

(** The connection block when the phase is [open]. *)
Lemma on_connection_open (env : Env) (id : string) (update : ConnectionUpdate)
    (w : World) (session : Session) :
  sessions w !! id = Some session ->
  u_connection update = Some "open" ->
  exists w',
    on_connection env id update w = (w', Ok tt)
    /\ sessions w' !! id = Some (set_qr None (set_connection "open" session))
    /\ auth_dirs w' = auth_dirs w
    /\ (forall instance, Store.instances (store w) !! id = Some instance ->
        Store.instances (store w') !! id
        = Some {| Store.inst_id := Store.inst_id instance;
                  Store.inst_status := JStr "ready";
                  Store.inst_metadata := Store.inst_metadata instance |}).
Proof.
  intros Hs Hphase. unfold on_connection. rewrite Hphase. cbn [given truthy].
  cbn [String.eqb Ascii.eqb Bool.eqb negb andb].
  rewrite (mbind_run _ _ _ _ _ (update_session_run id _ w session Hs)).
  set (w1 := set_sessions (<[id := set_connection "open" session]> (sessions w)) w).
  assert (Hs1 : sessions w1 !! id = Some (set_connection "open" session))
    by apply lookup_insert_eq.
  rewrite (mbind_run _ _ _ _ _ (update_session_run id _ w1 _ Hs1)).
  set (w2 := set_sessions _ w1).
  destruct (on_store_updateStatus_run id (JStr "ready") w2) as (st & r & Hrun & Hinst);
    [right; left; reflexivity|].
  rewrite (mbind_run _ _ _ _ _ Hrun).
  eexists. split; [reflexivity|]. cbn.
  split; [apply lookup_insert_eq|]. split; [reflexivity|].
  intros instance Hi. rewrite Hinst. cbn. rewrite Hi. apply lookup_insert_eq.
Qed.

(** The connection block when the phase is [close]. *)
Lemma on_connection_close (env : Env) (id : string) (update : ConnectionUpdate)
    (w : World) (session : Session) :
  sessions w !! id = Some session ->
  u_connection update = Some "close" ->
  exists w',
    on_connection env id update w
    = (w', if decide (u_statusCode update = Some (loggedOut env)) then
             if includes id 0 then Throw TypeError else Ok tt
           else Ok tt)
    /\ (forall instance, Store.instances (store w) !! id = Some instance ->
        Store.instances (store w') !! id
        = Some {| Store.inst_id := Store.inst_id instance;
                  Store.inst_status := JStr "disconnected";
                  Store.inst_metadata := Store.inst_metadata instance |})
    /\ (u_statusCode update = Some (loggedOut env) ->
        sessions w' !! id = None
        /\ (includes id 0 = false ->
            auth_dirs w' = dirs_after_rm env id (auth_dirs w)))
    /\ (u_statusCode update <> Some (loggedOut env) ->
        auth_dirs w' = auth_dirs w
        /\ sessions w' !! id = Some (set_connection "close" session)).
Proof.
  intros Hs Hphase. unfold on_connection. rewrite Hphase. cbn [given truthy].
  cbn [String.eqb Ascii.eqb Bool.eqb negb andb].
  rewrite (mbind_run _ _ _ _ _ (update_session_run id _ w session Hs)).
  set (w1 := set_sessions (<[id := set_connection "close" session]> (sessions w)) w).
  destruct (on_store_updateStatus_run id (JStr "disconnected") w1)
    as (st & r & Hrun & Hinst); [right; right; reflexivity|].
  assert (Hstatus : forall instance, Store.instances (store w) !! id = Some instance ->
            Store.instances st !! id
            = Some {| Store.inst_id := Store.inst_id instance;
                      Store.inst_status := JStr "disconnected";
                      Store.inst_metadata := Store.inst_metadata instance |}).
  { intros instance Hi. rewrite Hinst. cbn. rewrite Hi. apply lookup_insert_eq. }
  destruct (decide (u_statusCode update = Some (loggedOut env))) as [Hcode | Hcode].
  - rewrite (mbind_run _ _ _ _ _ Hrun).
    destruct (cleanupSession_memory env id false (set_store st w1)) as (Hsess & Hmem & _).
    destruct (cleanupSession_run env id false (set_store st w1)) as (tr & Hclean).
    exists (fst (cleanupSession env id false (set_store st w1))).
    split.
    { rewrite Hclean. cbn [negb andb fst]. reflexivity. }
    split.
    { intros instance Hi. rewrite Hmem. exact (Hstatus _ Hi). }
    split; [|intros Hne; contradiction].
    intros _. split; [rewrite Hsess; apply lookup_delete_eq|].
    intros Hnul. rewrite Hclean, Hnul. reflexivity.
  - rewrite (mbind_run _ _ _ _ _ Hrun).
    eexists. split; [reflexivity|]. cbn.
    split; [exact Hstatus|]. split; [intros He; contradiction|].
    intros _. split; [reflexivity | apply lookup_insert_eq].
Qed.

(** The connection block returns normally in every phase, but for the
    removal that a NUL makes fail. *)
Lemma on_connection_returns (env : Env) (id : string) (update : ConnectionUpdate)
    (w : World) (session : Session) :
  sessions w !! id = Some session ->
  (u_connection update = Some "close" -> u_statusCode update = Some (loggedOut env) ->
   includes id 0 = false) ->
  snd (on_connection env id update w) = Ok tt.
Proof.
  intros Hs Hnul.
  destruct (u_connection update) as [phase|] eqn:Hu.
  2: { unfold on_connection. rewrite Hu. reflexivity. }
  destruct (String.eqb_spec phase "open") as [-> | Hopen].
  { destruct (on_connection_open env id update w session Hs Hu) as (w' & -> & _).
    reflexivity. }
  destruct (String.eqb_spec phase "close") as [-> | Hclose].
  { destruct (on_connection_close env id update w session Hs Hu) as (w' & -> & _).
    cbn [snd]. destruct (decide _) as [Hcode | Hcode]; [|reflexivity].
    rewrite (Hnul eq_refl Hcode). reflexivity. }
  unfold on_connection. rewrite Hu. cbn [given].
  destruct (truthy (JStr phase)); [|reflexivity].
  rewrite (mbind_run _ _ _ _ _ (update_session_run id _ w session Hs)).
  apply String.eqb_neq in Hopen, Hclose. rewrite Hopen, Hclose. reflexivity.
Qed.

(** C3. Let a session be registered for the instance when a connection
    update arrives. If the phase is [open], the session is left with no
    QR code and the phase [open], the instance's status becomes [ready]
    and no credential directory is touched. If the phase is [close], the
    status becomes [disconnected]; when the status code of the disconnect
    is [DisconnectReason.loggedOut] the session entry is removed and the
    credential directory deleted (its own and no other when the
    identifier is one file name, among directories that are; never a
    directory created), and for any other code, or none, the
    directories are as they were and the session entry stays, with its
    client handle and the phase [close]. The handler returns normally,
    but for the removal of a path with a NUL, which [fsp.rm] refuses and
    which no directory can have in its name. *)
Theorem handleConnectionUpdate_spec (env : Env) (id : string)
    (update : ConnectionUpdate) (w : World) (session : Session) :
  sessions w !! id = Some session ->
  ((u_connection update = Some "close" -> u_statusCode update = Some (loggedOut env) ->
    includes id 0 = false) ->
   snd (handleConnectionUpdate env id update w) = Ok tt)
  /\ (u_connection update = Some "open" ->
      (exists session',
         sessions (fst (handleConnectionUpdate env id update w)) !! id = Some session'
         /\ qr session' = None /\ connection session' = "open"
         /\ sock session' = sock session)
      /\ (forall instance, Store.instances (store w) !! id = Some instance ->
          Store.instances (store (fst (handleConnectionUpdate env id update w))) !! id
          = Some {| Store.inst_id := Store.inst_id instance;
                    Store.inst_status := JStr "ready";
                    Store.inst_metadata := Store.inst_metadata instance |})
      /\ auth_dirs (fst (handleConnectionUpdate env id update w)) = auth_dirs w)
  /\ (u_connection update = Some "close" ->
      (forall instance, Store.instances (store w) !! id = Some instance ->
       Store.instances (store (fst (handleConnectionUpdate env id update w))) !! id
       = Some {| Store.inst_id := Store.inst_id instance;
                 Store.inst_status := JStr "disconnected";
                 Store.inst_metadata := Store.inst_metadata instance |})
      /\ (u_statusCode update = Some (loggedOut env) ->
          sessions (fst (handleConnectionUpdate env id update w)) !! id = None
          /\ (includes id 0 = false ->
              (id ∉ auth_dirs (fst (handleConnectionUpdate env id update w)))
              /\ auth_dirs (fst (handleConnectionUpdate env id update w)) ⊆ auth_dirs w)
          /\ (authDir id = Some [id] ->
              (forall other, other ∈ auth_dirs w -> authDir other = Some [other]) ->
              auth_dirs (fst (handleConnectionUpdate env id update w))
              = auth_dirs w ∖ {[id]}))
      /\ (u_statusCode update <> Some (loggedOut env) ->
          auth_dirs (fst (handleConnectionUpdate env id update w)) = auth_dirs w
          /\ exists session',
               sessions (fst (handleConnectionUpdate env id update w)) !! id
               = Some session'
               /\ connection session' = "close" /\ sock session' = sock session)).
Proof.
  intros Hs.
  destruct (on_qr_run env id update w session Hs)
    as (w1 & s1 & Hqr & Hs1 & Hsock & Hconn & Hdirs & Hinst).
  assert (Hrun : handleConnectionUpdate env id update w = on_connection env id update w1).
  { unfold handleConnectionUpdate. unfold mbind at 1. cbn [gets]. rewrite Hs.
    rewrite (mbind_run _ _ _ _ _ Hqr). reflexivity. }
  rewrite Hrun. clear Hrun.
  split; [exact (on_connection_returns env id update w1 s1 Hs1)|]. split.
  - intros Hphase.
    destruct (on_connection_open env id update w1 s1 Hs1 Hphase)
      as (w' & -> & Hs' & Hd' & Hi').
    cbn [fst]. split; [|split].
    + eexists. split; [exact Hs'|]. repeat split. exact Hsock.
    + intros instance Hi. destruct (Hinst _ Hi) as (i1 & Hi1 & Hid & Hmd).
      rewrite (Hi' _ Hi1), Hid, Hmd. reflexivity.
    + congruence.
  - intros Hphase.
    destruct (on_connection_close env id update w1 s1 Hs1 Hphase)
      as (w' & -> & Hi' & Hout & Hkeep).
    cbn [fst]. split; [|split].
    + intros instance Hi. destruct (Hinst _ Hi) as (i1 & Hi1 & Hid & Hmd).
      rewrite (Hi' _ Hi1), Hid, Hmd. reflexivity.
    + intros Hcode. destruct (Hout Hcode) as [Hgone Hdel].
      split; [exact Hgone|]. split.
      * intros Hnul. rewrite (Hdel Hnul), Hdirs. split.
        { rewrite elem_of_dirs_after_rm, gone_self. intros [_ H]. discriminate. }
        intros other Hin. apply elem_of_dirs_after_rm in Hin. tauto.
      * intros Hentry Hothers.
        rewrite (Hdel (authDir_no_nul _ _ Hentry)), Hdirs.
        apply dirs_after_rm_entry; assumption.
    + intros Hcode. destruct (Hkeep Hcode) as [Hsame Hstay].
      split; [congruence|]. eexists. split; [exact Hstay|]. split; [reflexivity|].
      exact Hsock.
Qed.

(** The theorem on the instance [a], whose session holds a QR code: an
    [open] update, a [close] with the logged-out code 401 and a [close]
    with the code 500. *)
Lemma handleConnectionUpdate_spec_witness :
  (exists session',
     sessions (fst (handleConnectionUpdate (Samples.env_at 0) "a"
                      {| u_qr := None; u_connection := Some "open"; u_statusCode := None |}
                      (Samples.world_a "pending_qr" "close"))) !! "a" = Some session'
     /\ qr session' = None /\ connection session' = "open"
     /\ sock session' = Samples.sock_gone)
  /\ Store.instances
       (store (fst (handleConnectionUpdate (Samples.env_at 0) "a"
                      {| u_qr := None; u_connection := Some "open"; u_statusCode := None |}
                      (Samples.world_a "pending_qr" "close")))) !! "a"
     = Some (Samples.inst "a" "ready")
  /\ (sessions (fst (handleConnectionUpdate (Samples.env_at 0) "a"
                       {| u_qr := None; u_connection := Some "close";
                          u_statusCode := Some 401%Z |}
                       (Samples.world_a "ready" "open"))) !! "a" = None
      /\ auth_dirs (fst (handleConnectionUpdate (Samples.env_at 0) "a"
                           {| u_qr := None; u_connection := Some "close";
                              u_statusCode := Some 401%Z |}
                           (Samples.world_a "ready" "open")))
         = {["a"]} ∖ {["a"]})
  /\ (auth_dirs (fst (handleConnectionUpdate (Samples.env_at 0) "a"
                        {| u_qr := None; u_connection := Some "close";
                           u_statusCode := Some 500%Z |}
                        (Samples.world_a "ready" "open"))) = {["a"]}
      /\ Store.instances
           (store (fst (handleConnectionUpdate (Samples.env_at 0) "a"
                          {| u_qr := None; u_connection := Some "close";
                             u_statusCode := Some 500%Z |}
                          (Samples.world_a "ready" "open")))) !! "a"
         = Some (Samples.inst "a" "disconnected")).
Proof.
  assert (Hs : forall status phase,
            sessions (Samples.world_a status phase) !! "a"
            = Some {| sock := Samples.sock_gone;
                      qr := Some {| qr_type := "base64"; qr_value := JStr "AAAA";
                                    qr_expiresAt := 120000 |};
                      connection := phase |})
    by (intros; apply lookup_singleton_eq).
  assert (Hi : forall status phase,
            Store.instances (store (Samples.world_a status phase)) !! "a"
            = Some (Samples.inst "a" status))
    by (intros; apply lookup_singleton_eq).
  destruct (handleConnectionUpdate_spec (Samples.env_at 0) "a"
              {| u_qr := None; u_connection := Some "open"; u_statusCode := None |}
              (Samples.world_a "pending_qr" "close") _ (Hs _ _))
    as (_ & Hopen & _).
  destruct (Hopen eq_refl) as (Hsess & Hstatus & _).
  destruct (handleConnectionUpdate_spec (Samples.env_at 0) "a"
              {| u_qr := None; u_connection := Some "close"; u_statusCode := Some 401%Z |}
              (Samples.world_a "ready" "open") _ (Hs _ _))
    as (_ & _ & Hclose1).
  destruct (Hclose1 eq_refl) as (_ & Hout & _).
  destruct (handleConnectionUpdate_spec (Samples.env_at 0) "a"
              {| u_qr := None; u_connection := Some "close"; u_statusCode := Some 500%Z |}
              (Samples.world_a "ready" "open") _ (Hs _ _))
    as (_ & _ & Hclose2).
  destruct (Hclose2 eq_refl) as (Hdisc & _ & Hkeep).
  split; [exact Hsess|]. split; [exact (Hstatus _ (Hi _ _))|].
  split.
  { destruct (Hout eq_refl) as (Hgone & _ & Hentry).
    split; [exact Hgone|]. apply Hentry; [reflexivity|].
    intros other Hin. unfold Samples.world_a in Hin. cbn [auth_dirs] in Hin.
    apply elem_of_singleton in Hin as ->. reflexivity. }
  split; [apply Hkeep; discriminate | exact (Hdisc _ (Hi _ _))].
Defined.

End ManagerSpec.

(** ** Sending a message *)

Section RoutesSpec.
Import Js Eff Messages Manager.

Lemma getOrCreateSession_existing (env : Env) (id : string) (w : World)
    (session : Session) :
  sessions w !! id = Some session ->
  attempt (getOrCreateSession env id) w = (w, Ok (Ok session)).
Proof. intros H. unfold attempt, getOrCreateSession. rewrite H. reflexivity. Qed.

(** C4. Lines 465 to 497 of the [POST /messages] handler, for an
    instance that has a session. When the phase of the session is not
    [open] the answer is 409 [instance_not_ready] and the world is as it
    was: no call reaches the client. When the phase is [open] and the
    content is accepted, [sendMessage] is called on the client with the
    normalised destination and the content built, and once that call
    resolves with a message the answer is 202 with its identifier and
    the status [queued]. The handler reaches these lines for every body
    whose [instanceId], [to] and [type] are non-empty strings and whose
    instance is in the catalog. *)
Theorem sendMessage_spec (env : Env) (id to : string) (payload : JsVal) (w : World)
    (session : Session) :
  sessions w !! id = Some session ->
  (connection session <> "open" ->
   Routes.sendMessage env id to payload w
   = (w, Ok (Routes.createErrorResponse 409 "instance_not_ready"
               Routes.msg_not_ready None)))
  /\ (connection session = "open" ->
      forall content, buildMessageContent payload = Ok content ->
      let jid := if includes to 64 then to else to +:+ "@s.whatsapp.net" in
      (exists rest,
         trace (fst (Routes.sendMessage env id to payload w))
         = (trace w ++ CallSendMessage id jid content :: rest)%list)
      /\ (forall result key,
           sock_sendMessage (sock session) jid content = Ok result ->
           member result "key" = Ok key ->
           Routes.sendMessage env id to payload w
           = ({| store := store w; sessions := sessions w; auth_dirs := auth_dirs w;
                 trace := (trace w ++ [CallSendMessage id jid content])%list |},
              Ok {| Routes.http_status := 202;
                    Routes.body :=
                      JObj [("messageId", or_else (member_opt key "id") (JStr ""));
                            ("status", JStr "queued");
                            ("timestamp", JStr (now_iso env))] |})))
  /\ (forall type instance,
       member_opt payload "instanceId" = JStr id -> id <> "" ->
       member_opt payload "to" = JStr to -> to <> "" ->
       member_opt payload "type" = JStr type -> type <> "" ->
       Store.instances (store w) !! id = Some instance ->
       Routes.post_messages env payload w = Routes.sendMessage env id to payload w).
Proof.
  intros Hs. split; [|split].
  - intros Hphase. unfold Routes.sendMessage.
    rewrite (mbind_run _ _ _ _ _ (getOrCreateSession_existing env id w session Hs)).
    apply String.eqb_neq in Hphase. rewrite Hphase. reflexivity.
  - intros Hphase content Hcontent jid.
    assert (Hrun : Routes.sendMessage env id to payload w
                   = (emit (CallSendMessage id jid content) ;;;
                      match
                        (result <- sock_sendMessage (sock session) jid content ;;
                         key <- member result "key" ;;
                         Ok (or_else (member_opt key "id") (JStr "")))%js
                      with
                      | Ok messageId =>
                          ret {| Routes.http_status := 202;
                                 Routes.body :=
                                   JObj [("messageId", messageId);
                                         ("status", JStr "queued");
                                         ("timestamp", JStr (now_iso env))] |}
                      | Throw _ =>
                          emit (ConsoleError id) ;;;
                          ret (Routes.createErrorResponse 500 "internal_error"
                                 Routes.msg_send_failed None)
                      end)%eff w).
    { unfold Routes.sendMessage.
      rewrite (mbind_run _ _ _ _ _ (getOrCreateSession_existing env id w session Hs)).
      rewrite Hphase, Hcontent. reflexivity. }
    rewrite Hrun. clear Hrun. split.
    + unfold mbind, emit, modify, ret. cbn.
      destruct (bind _ _); cbn; rewrite <- ?app_assoc; eexists; reflexivity.
    + intros result key Hres Hkey. rewrite Hres. cbn [bind]. rewrite Hkey. reflexivity.
  - intros type instance Hid Hid' Hto Hto' Hty Hty' Hi.
    unfold Routes.post_messages.
    assert (Hpay : or_else payload (JObj []) = payload).
    { destruct payload; try discriminate Hid. reflexivity. }
    rewrite Hpay, Hid, Hto, Hty.
    unfold Routes.nonempty_string.
    rewrite (proj2 (truthy_JStr id) Hid'), (proj2 (truthy_JStr to) Hto'),
      (proj2 (truthy_JStr type) Hty').
    unfold mbind, gets, Store.get. rewrite Hi. reflexivity.
Qed.

(** The theorem on the instance [a]: with a closed session a text is
    refused with 409 and nothing is sent; with an open one it goes to
    [5511@s.whatsapp.net] and comes back queued as [M1]. *)
Lemma sendMessage_spec_witness :
  Routes.post_messages (Samples.env_at 7)
    (JObj [("instanceId", JStr "a"); ("to", JStr "5511"); ("type", JStr "text");
           ("message", JObj [("text", JStr "hi")])])
    (Samples.world_a "ready" "close")
  = (Samples.world_a "ready" "close",
     Ok (Routes.createErrorResponse 409 "instance_not_ready" Routes.msg_not_ready None))
  /\ Routes.sendMessage (Samples.env_at 7) "a" "5511"
       (JObj [("type", JStr "text"); ("message", JObj [("text", JStr "hi")])])
       (Samples.world_a "ready" "open")
     = ({| store := Samples.store_a "ready";
           sessions := sessions (Samples.world_a "ready" "open");
           auth_dirs := {["a"]};
           trace := [CallSendMessage "a" "5511@s.whatsapp.net"
                       (JObj [("text", JStr "hi")])] |},
        Ok {| Routes.http_status := 202;
              Routes.body := JObj [("messageId", JStr "M1");
                                   ("status", JStr "queued");
                                   ("timestamp", JStr "2024-01-01T00:00:00.000Z")] |}).
Proof.
  split.
  - destruct (sendMessage_spec (Samples.env_at 7) "a" "5511"
                (JObj [("instanceId", JStr "a"); ("to", JStr "5511"); ("type", JStr "text");
                       ("message", JObj [("text", JStr "hi")])])
                (Samples.world_a "ready" "close") _ (lookup_singleton_eq _ _))
      as (Hclosed & _ & Hroute).
    rewrite (Hroute "text" (Samples.inst "a" "ready")
               eq_refl ltac:(discriminate) eq_refl ltac:(discriminate)
               eq_refl ltac:(discriminate) (lookup_singleton_eq _ _)).
    apply Hclosed. discriminate.
  - destruct (sendMessage_spec (Samples.env_at 7) "a" "5511"
                (JObj [("type", JStr "text"); ("message", JObj [("text", JStr "hi")])])
                (Samples.world_a "ready" "open") _ (lookup_singleton_eq _ _))
      as (_ & Hopen & _).
    destruct (Hopen eq_refl (JObj [("text", JStr "hi")]) eq_refl) as (_ & Hsent).
    apply (Hsent (JObj [("key", JObj [("id", JStr "M1")])]) (JObj [("id", JStr "M1")]));
      reflexivity.
Defined.

End RoutesSpec.

(** * Further properties *)

(** ** Strings *)

Section StringFacts.
Import Js.
Local Open Scope list_scope.

(** One step of [strip]. *)
Lemma strip_cons (fwd : bool) (a : N) (t : list N) :
  strip fwd (a :: t) =
    if ws1 a then strip fwd t
    else
      match t with
      | [] => a :: t
      | b :: t' =>
          if (if fwd then ws2 a b else ws2 b a) then strip fwd t'
          else
            match t' with
            | [] => a :: t
            | c :: t'' =>
                if (if fwd then ws3 a b c else ws3 c b a) then strip fwd t''
                else a :: t
            end
      end.
Proof. reflexivity. Qed.

Lemma strip_length (fwd : bool) (n : nat) :
  forall l : list N, length l <= n -> length (strip fwd l) <= length l.
Proof.
  induction n as [|n IH]; intros l Hl.
  - destruct l; [reflexivity | cbn in Hl; lia].
  - destruct l as [|a t]; [reflexivity|]. rewrite strip_cons. cbn [length] in *.
    destruct (ws1 a); [specialize (IH t); lia|].
    destruct t as [|b t]; [cbn; lia|]. cbn [length] in *.
    destruct (if fwd then ws2 a b else ws2 b a); [specialize (IH t); lia|].
    destruct t as [|c t]; [cbn; lia|]. cbn [length] in *.
    destruct (if fwd then ws3 a b c else ws3 c b a); [specialize (IH t); lia|].
    cbn. lia.
Qed.

(** What [strip] returns is a tail of what it was given. *)
Lemma strip_suffix (fwd : bool) (n : nat) :
  forall l : list N, length l <= n -> exists p, l = p ++ strip fwd l.
Proof.
  induction n as [|n IH]; intros l Hl.
  - destruct l; [exists []; reflexivity | cbn in Hl; lia].
  - destruct l as [|a t]; [exists []; reflexivity|]. rewrite strip_cons. cbn [length] in *.
    destruct (ws1 a).
    { destruct (IH t) as [p Hp]; [lia|]. exists (a :: p). cbn. congruence. }
    destruct t as [|b t]; [exists []; reflexivity|]. cbn [length] in *.
    destruct (if fwd then ws2 a b else ws2 b a).
    { destruct (IH t) as [p Hp]; [lia|]. exists (a :: b :: p). cbn. congruence. }
    destruct t as [|c t]; [exists []; reflexivity|]. cbn [length] in *.
    destruct (if fwd then ws3 a b c else ws3 c b a).
    { destruct (IH t) as [p Hp]; [lia|]. exists (a :: b :: c :: p). cbn. congruence. }
    exists []. reflexivity.
Qed.

(** [strip] leaves nothing for a second pass. *)
Lemma strip_idempotent (fwd : bool) (n : nat) :
  forall l : list N, length l <= n -> strip fwd (strip fwd l) = strip fwd l.
Proof.
  induction n as [|n IH]; intros l Hl.
  - destruct l; [reflexivity | cbn in Hl; lia].
  - destruct l as [|a t]; [reflexivity|]. rewrite (strip_cons fwd a t). cbn [length] in *.
    destruct (ws1 a) eqn:E1; [apply IH; lia|].
    destruct t as [|b t].
    { rewrite strip_cons, E1. reflexivity. }
    cbn [length] in *.
    destruct (if fwd then ws2 a b else ws2 b a) eqn:E2; [apply IH; lia|].
    destruct t as [|c t].
    { rewrite strip_cons, E1, E2. reflexivity. }
    cbn [length] in *.
    destruct (if fwd then ws3 a b c else ws3 c b a) eqn:E3; [apply IH; lia|].
    rewrite strip_cons, E1, E2, E3. reflexivity.
Qed.

(** A sequence that [strip] leaves alone has heads that [strip] leaves
    alone. *)
Lemma strip_fixed_prefix (fwd : bool) (l e r : list N) :
  strip fwd l = l -> l = e ++ r -> strip fwd e = e.
Proof.
  intros Hfix ->.
  assert (Hlen : forall t : list N, length (strip fwd t) <= length t)
    by (intros t; apply (strip_length fwd (length t)); lia).
  destruct e as [|a e]; [reflexivity|].
  cbn [app] in Hfix. rewrite strip_cons in Hfix. rewrite strip_cons.
  destruct (ws1 a) eqn:E1.
  { exfalso. specialize (Hlen (e ++ r)). rewrite Hfix in Hlen. cbn in Hlen. lia. }
  destruct e as [|b e]; [reflexivity|]. cbn [app] in Hfix.
  destruct (if fwd then ws2 a b else ws2 b a) eqn:E2.
  { exfalso. specialize (Hlen (e ++ r)). rewrite Hfix in Hlen. cbn in Hlen. lia. }
  destruct e as [|c e]; [reflexivity|]. cbn [app] in Hfix.
  destruct (if fwd then ws3 a b c else ws3 c b a) eqn:E3; [|reflexivity].
  exfalso. specialize (Hlen (e ++ r)). rewrite Hfix in Hlen. cbn in Hlen. lia.
Qed.

Lemma bytes_bounded (s : string) : Forall (fun n => (n < 256)%N) (bytes s).
Proof.
  unfold bytes. apply Forall_forall. intros n Hn.
  apply list_elem_of_fmap in Hn as (a & -> & _). apply N_ascii_bounded.
Qed.

Lemma bytes_of_bytes (l : list N) :
  Forall (fun n => (n < 256)%N) l -> bytes (of_bytes l) = l.
Proof.
  intros H. unfold bytes, of_bytes. rewrite list_ascii_of_string_of_list_ascii.
  induction H as [|n l Hn _ IH]; [reflexivity|].
  cbn. rewrite N_ascii_embedding by exact Hn. f_equal. exact IH.
Qed.

(** Trimming twice is trimming once. *)
Lemma trim_idempotent (s : string) : trim (trim s) = trim s.
Proof.
  unfold trim.
  set (T := strip true (bytes s)).
  set (R := strip false (rev T)).
  assert (HT : strip true T = T)
    by (apply (strip_idempotent true (length (bytes s))); lia).
  assert (HR : strip false R = R)
    by (apply (strip_idempotent false (length (rev T))); lia).
  destruct (strip_suffix false (length (rev T)) (rev T)) as [p Hp]; [lia|].
  fold R in Hp.
  assert (HTE : T = rev R ++ rev p).
  { rewrite <- rev_app_distr, <- Hp, rev_involutive. reflexivity. }
  assert (Hb : Forall (fun n => (n < 256)%N) (rev R)).
  { destruct (strip_suffix true (length (bytes s)) (bytes s)) as [q Hq]; [lia|].
    fold T in Hq. pose proof (bytes_bounded s) as Hs. rewrite Hq in Hs.
    apply Forall_app in Hs as [_ Hs]. rewrite HTE in Hs.
    apply Forall_app in Hs as [Hs _]. exact Hs. }
  rewrite (bytes_of_bytes _ Hb).
  rewrite (strip_fixed_prefix true T (rev R) (rev p) HT HTE).
  rewrite rev_involutive, HR. reflexivity.
Qed.

End StringFacts.

(** ** Bearer authentication *)

Section BearerSpec.
Import Js Eff Messages Manager.

Lemma given_Some (o : option string) (x : string) :
  given o = Some x <-> o = Some x /\ x <> "".
Proof.
  unfold given. destruct o as [s|]; [|split; [discriminate | intros [? _]; discriminate]].
  cbn. destruct (String.eqb_spec s ""); cbn; split.
  - discriminate.
  - intros [[= ->] H]. contradiction.
  - intros [= ->]. split; [reflexivity | assumption].
  - intros [[= ->] _]. reflexivity.
Qed.

Lemma given_None (o : option string) :
  given o = None <-> o = None \/ o = Some "".
Proof.
  unfold given. destruct o as [s|]; [|split; auto].
  cbn. destruct (String.eqb_spec s ""); cbn; split.
  - intros _. right. congruence.
  - reflexivity.
  - discriminate.
  - intros [H | [= H]]; [discriminate | contradiction].
Qed.

Lemma startsWith_iff (s p : string) :
  Http.startsWith s p = true <-> exists rest, s = p +:+ rest.
Proof.
  revert s. induction p as [|x p IH]; intros s; cbn.
  - split; [intros _; exists s; reflexivity | reflexivity].
  - destruct s as [|y s].
    + split; [discriminate | intros [rest H]; discriminate].
    + rewrite andb_true_iff, Ascii.eqb_eq, IH. split.
      * intros [-> [rest ->]]. exists rest. reflexivity.
      * intros [rest [= -> ->]]. split; [reflexivity | exists rest; reflexivity].
Qed.

Lemma slice_app (p rest : string) : Http.slice (p +:+ rest) (String.length p) = rest.
Proof. induction p as [|x p IH]; [destruct rest; reflexivity | exact IH]. Qed.

(** When a token is configured, exactly the headers [Bearer ] followed
    by the token, blanks around it allowed, are let through. *)
Lemma bearer_next_iff (t : string) (header : option string) :
  t <> "" ->
  Http.bearerAuthMiddleware (Some t) header = Http.Next
  <-> exists rest, header = Some ("Bearer " +:+ rest) /\ trim rest = t.
Proof.
  intros Ht. unfold Http.bearerAuthMiddleware.
  rewrite (proj2 (given_Some (Some t) t) (conj eq_refl Ht)).
  split.
  - destruct (given header) as [h|] eqn:Hh; [|discriminate].
    apply given_Some in Hh as [-> _].
    destruct (Http.startsWith h "Bearer ") eqn:Hs; [|discriminate]. cbn [negb].
    apply startsWith_iff in Hs as [rest ->].
    rewrite (slice_app "Bearer " rest).
    destruct (String.eqb_spec (trim rest) t); [|discriminate].
    intros _. exists rest. split; [reflexivity | assumption].
  - intros (rest & -> & Htrim).
    assert (Hg : given (Some ("Bearer " +:+ rest)) = Some ("Bearer " +:+ rest))
      by reflexivity.
    rewrite Hg.
    assert (Hsw : Http.startsWith ("Bearer " +:+ rest) "Bearer " = true).
    { apply startsWith_iff. exists rest. reflexivity. }
    rewrite Hsw. cbn [negb].
    rewrite (slice_app "Bearer " rest), Htrim, String.eqb_refl. reflexivity.
Qed.

Lemma bearer_verdicts (token header : option string) :
  Http.bearerAuthMiddleware token header = Http.Next
  \/ Http.bearerAuthMiddleware token header
     = Http.Answer (Routes.createErrorResponse 401 "unauthorized" Http.msg_unauthorized None).
Proof.
  unfold Http.bearerAuthMiddleware.
  destruct (given token); [|left; reflexivity].
  destruct (given header); [|right; reflexivity].
  destruct (negb _); [right; reflexivity|].
  destruct (negb _); [right | left]; reflexivity.
Qed.

(** X1. Without a token in the environment, or with an empty one, the
    middleware lets every request through. With a token, it lets through
    exactly the requests whose [authorization] header is [Bearer ]
    followed by the token, with any white space around the token, and
    answers 401 [unauthorized] to all others. *)
Theorem bearerAuthMiddleware_spec (token header : option string) :
  (token = None \/ token = Some "" ->
   Http.bearerAuthMiddleware token header = Http.Next)
  /\ (forall t, token = Some t -> t <> "" ->
      (Http.bearerAuthMiddleware token header = Http.Next
       <-> exists rest, header = Some ("Bearer " +:+ rest) /\ trim rest = t)
      /\ (Http.bearerAuthMiddleware token header <> Http.Next ->
          Http.bearerAuthMiddleware token header
          = Http.Answer (Routes.createErrorResponse 401 "unauthorized"
                           Http.msg_unauthorized None))).
Proof.
  split.
  - intros H. apply given_None in H. unfold Http.bearerAuthMiddleware. rewrite H.
    reflexivity.
  - intros t -> Ht. split; [apply bearer_next_iff, Ht|].
    intros Hn. destruct (bearer_verdicts (Some t) header); [contradiction | assumption].
Qed.

(** The theorem with the token [s3cret]: a padded header passes, a
    header in lower case does not, and with no token anything passes. *)
Lemma bearerAuthMiddleware_spec_witness :
  Http.bearerAuthMiddleware None (Some "anything") = Http.Next
  /\ Http.bearerAuthMiddleware (Some "s3cret") (Some "Bearer   s3cret  ") = Http.Next
  /\ Http.bearerAuthMiddleware (Some "s3cret") (Some "bearer s3cret")
     = Http.Answer (Routes.createErrorResponse 401 "unauthorized" Http.msg_unauthorized None).
Proof.
  split; [|split].
  - apply (bearerAuthMiddleware_spec None (Some "anything")). left. reflexivity.
  - destruct (bearerAuthMiddleware_spec (Some "s3cret") (Some "Bearer   s3cret  "))
      as [_ H].
    destruct (H "s3cret" eq_refl ltac:(discriminate)) as [Hiff _].
    apply Hiff. exists "  s3cret  ". split; reflexivity.
  - destruct (bearerAuthMiddleware_spec (Some "s3cret") (Some "bearer s3cret")) as [_ H].
    destruct (H "s3cret" eq_refl ltac:(discriminate)) as [_ Hno].
    apply Hno. discriminate.
Defined.

(** X2. A configured token that begins or ends with white space can
    never be presented: the middleware trims what the header carries
    before comparing, so it answers 401 to every request. *)
Theorem bearer_padded_token_refuses_all (t : string) (header : option string) :
  t <> "" -> trim t <> t ->
  Http.bearerAuthMiddleware (Some t) header
  = Http.Answer (Routes.createErrorResponse 401 "unauthorized" Http.msg_unauthorized None).
Proof.
  intros Ht Hpad.
  destruct (bearer_verdicts (Some t) header) as [Hnext | Hno]; [|exact Hno].
  exfalso. apply (bearer_next_iff t header Ht) in Hnext as (rest & _ & Htrim).
  apply Hpad. rewrite <- Htrim. apply trim_idempotent.
Qed.

(** The theorem with the token [s3cret] followed by a blank, against the
    header that repeats it to the letter. *)
Lemma bearer_padded_token_refuses_all_witness :
  Http.bearerAuthMiddleware (Some "s3cret ") (Some "Bearer s3cret ")
  = Http.Answer (Routes.createErrorResponse 401 "unauthorized" Http.msg_unauthorized None).
Proof.
  apply (bearer_padded_token_refuses_all "s3cret " (Some "Bearer s3cret ")); discriminate.
Defined.

End BearerSpec.

(** ** Creating an instance over HTTP *)

Section PostInstancesSpec.
Import Js Eff Messages Manager.

Lemma is_object_typeof (v : JsVal) :
  is_object v = true <-> truthy v = true /\ typeof v = "object".
Proof.
  unfold is_object. rewrite andb_true_iff, String.eqb_eq. reflexivity.
Qed.

(** What [validateInstancePayload] accepts, and what it then returns. *)
Lemma validateInstancePayload_Ok (body : JsVal) (id : string) (md : JsVal) :
  Http.validateInstancePayload body = Ok (id, md)
  <-> is_object body = true
      /\ member_opt body "id" = JStr id /\ id <> ""
      /\ (truthy (member_opt body "metadata") = false
          \/ is_object (member_opt body "metadata") = true)
      /\ md = or_else (member_opt body "metadata") (JObj []).
Proof.
  unfold Http.validateInstancePayload, is_object.
  destruct (truthy body) eqn:Hb; cbn [negb orb andb];
    [|split; [discriminate | intros [H _]; discriminate]].
  destruct (String.eqb (typeof body) "object") eqn:Ht; cbn [negb];
    [|split; [discriminate | intros [H _]; discriminate]].
  destruct (member_opt body "id") as [| |b|n| |neg|s|l|f] eqn:Hid;
    try (split; [discriminate | intros (_ & H & _); discriminate]).
  cbn [truthy]. destruct (String.eqb_spec s ""); cbn [negb].
  { split; [discriminate | intros (_ & [= ->] & H & _); contradiction]. }
  destruct (truthy (member_opt body "metadata")) eqn:Hm; cbn [andb].
  - destruct (String.eqb (typeof (member_opt body "metadata")) "object") eqn:Hmt; cbn [negb].
    + split.
      * intros [= -> <-]. repeat split; auto.
      * intros (_ & [= ->] & _ & _ & ->). reflexivity.
    + split; [discriminate|].
      intros (_ & _ & _ & [H | H] & _); discriminate.
  - split.
    + intros [= -> <-]. repeat split; auto.
    + intros (_ & [= ->] & _ & _ & ->). reflexivity.
Qed.

Lemma validateInstancePayload_outcomes (body : JsVal) :
  (exists id md, Http.validateInstancePayload body = Ok (id, md))
  \/ fails_invalid (Http.validateInstancePayload body).
Proof.
  unfold Http.validateInstancePayload.
  destruct (negb (truthy body) || _); [right; eexists; reflexivity|].
  destruct (member_opt body "id"); try (right; eexists; reflexivity).
  destruct (negb _); [right; eexists; reflexivity|].
  destruct (truthy _ && _); [right; eexists; reflexivity|].
  left. eexists _, _. reflexivity.
Qed.

(** X3. [validateInstancePayload] accepts a body exactly when it is an
    object whose [id] is a non-empty string and whose [metadata] is
    falsy or an object; it then returns that [id] with the metadata, or
    with [{}] in place of a falsy one, so the metadata it hands on is
    always an object. Every other body is refused with [invalid_payload].
    What it returns never makes [create] fail for want of an identifier. *)
Theorem validateInstancePayload_spec (body : JsVal) :
  (forall id md,
     Http.validateInstancePayload body = Ok (id, md)
     <-> is_object body = true
         /\ member_opt body "id" = JStr id /\ id <> ""
         /\ (truthy (member_opt body "metadata") = false
             \/ is_object (member_opt body "metadata") = true)
         /\ md = or_else (member_opt body "metadata") (JObj []))
  /\ (forall id md, Http.validateInstancePayload body = Ok (id, md) ->
      is_object md = true
      /\ forall s,
           Store.create id md s <> (s, Throw (Error None Store.msg_id_required)))
  /\ ((forall id md, Http.validateInstancePayload body <> Ok (id, md)) ->
      fails_invalid (Http.validateInstancePayload body)).
Proof.
  split; [|split].
  - intros id md. apply validateInstancePayload_Ok.
  - intros id md H. apply validateInstancePayload_Ok in H as (_ & _ & Hid & Hmd & ->).
    split.
    + unfold or_else. destruct Hmd as [-> | Hobj]; [reflexivity|].
      pose proof Hobj as Hobj'. apply is_object_typeof in Hobj' as [-> _]. exact Hobj.
    + intros s. unfold Store.create.
      rewrite (proj2 (truthy_JStr id) Hid). cbn [negb].
      destruct (Store.instances s !! id); [discriminate|]. cbn. discriminate.
  - intros Hno. destruct (validateInstancePayload_outcomes body) as [(id & md & H) | H].
    + exfalso. exact (Hno _ _ H).
    + exact H.
Qed.

(** The theorem on a body with an identifier and no metadata, and on a
    body whose metadata is a number. *)
Lemma validateInstancePayload_spec_witness :
  Http.validateInstancePayload (JObj [("id", JStr "a")]) = Ok ("a", JObj [])
  /\ fails_invalid
       (Http.validateInstancePayload (JObj [("id", JStr "a"); ("metadata", JNum 7)])).
Proof.
  split.
  - apply (validateInstancePayload_spec (JObj [("id", JStr "a")])).
    repeat split; [discriminate | left; reflexivity].
  - apply (validateInstancePayload_spec (JObj [("id", JStr "a"); ("metadata", JNum 7)])).
    intros id md H.
    apply (validateInstancePayload_spec (JObj [("id", JStr "a"); ("metadata", JNum 7)]))
      in H as (_ & _ & _ & [H | H] & _); discriminate.
Defined.

Lemma create_fresh (id : string) (md : JsVal) (s : Store.State) :
  id <> "" -> Store.instances s !! id = None ->
  Store.create id md s
  = (fst (Store.save
            (Store.set_instances
               (<[id := {| Store.inst_id := id; Store.inst_status := JStr "pending_qr";
                           Store.inst_metadata := or_else md (JObj []) |}]>
                  (Store.instances s)) s)),
     Ok {| Store.inst_id := id; Store.inst_status := JStr "pending_qr";
           Store.inst_metadata := or_else md (JObj []) |}).
Proof.
  intros Hid Hnone. unfold Store.create.
  rewrite (proj2 (truthy_JStr id) Hid), Hnone. reflexivity.
Qed.


Lemma set_store_same (w : World) : set_store (store w) w = w.
Proof. destruct w; reflexivity. Qed.

(** Opening the session of a catalogued instance that has none: the
    credential directory is made, then the socket decides. *)
Lemma initializeForInstance_fresh (env : Env) (id : string) (w : World) :
  sessions w !! id = None -> is_Some (Store.instances (store w) !! id) ->
  initializeForInstance env id w
  = match makeWASocket env id with
    | Throw e => (set_auth_dirs ({[id]} ∪ auth_dirs w) w, Throw e)
    | Ok sk =>
        (set_sessions (<[id := {| sock := sk; qr := None; connection := "close" |}]>
                         (sessions w))
           (set_auth_dirs ({[id]} ∪ auth_dirs w) w),
         Ok {| sock := sk; qr := None; connection := "close" |})
    end.
Proof.
  intros Hs [x Hx]. unfold initializeForInstance, Store.get. rewrite Hs, Hx.
  unfold mbind, modify. destruct (makeWASocket env id); reflexivity.
Qed.





End PostInstancesSpec.

(** ** The other routes *)

Section RoutesMoreSpec.
Import Js Eff Messages Manager.

Lemma delete_present (id : string) (s : Store.State) :
  is_Some (Store.instances s !! id) ->
  Store.delete id s
  = (fst (Store.save (Store.set_instances (delete id (Store.instances s)) s)), Ok true).
Proof. intros [x Hx]. unfold Store.delete. rewrite Hx. reflexivity. Qed.

(** X6. [DELETE /instances/:id] answers 404 and changes nothing for an
    unknown instance. For a known one whose
    [path.join(SESSIONS_DIR, instanceId)] stays in [SESSIONS_DIR] it
    answers 204, and afterwards the record is gone from the catalog and
    from the file, the session is gone from the registry and the
    credential directory from the disk, while every other record and
    session is as before; the directories that go with it are those at
    that path or under it, so none but its own when the identifier is
    one file name, among directories that are; the instance can no
    longer be fetched, and deleting it again gives 404. *)
Theorem delete_instance_spec (env : Env) (id : string) (w : World) :
  (Store.instances (store w) !! id = None ->
   Http.delete_instance env id w
   = (w, Ok (Routes.createErrorResponse 404 "not_found" msg_not_found None)))
  /\ (is_Some (Store.instances (store w) !! id) ->
      forall target, authDir id = Some target ->
      exists w',
        Http.delete_instance env id w = (w', Ok (Http.json 204 JUndefined))
        /\ Store.instances (store w') = delete id (Store.instances (store w))
        /\ Store.persisted (store w')
        /\ sessions w' = delete id (sessions w)
        /\ (id ∉ auth_dirs w')
        /\ (forall other path, authDir other = Some path ->
            other ∈ auth_dirs w' <-> other ∈ auth_dirs w /\ ~ target `prefix_of` path)
        /\ (target = [id] ->
            (forall other, other ∈ auth_dirs w -> authDir other = Some [other]) ->
            auth_dirs w' = auth_dirs w ∖ {[id]})
        /\ Http.get_instance id w'
           = (w', Ok (Routes.createErrorResponse 404 "not_found" msg_not_found None))
        /\ Http.delete_instance env id w'
           = (w', Ok (Routes.createErrorResponse 404 "not_found" msg_not_found None))).
Proof.
  assert (Habsent : forall w0, Store.instances (store w0) !! id = None ->
            Http.delete_instance env id w0
            = (w0, Ok (Routes.createErrorResponse 404 "not_found" msg_not_found None))).
  { intros w0 H. unfold Http.delete_instance, mbind, gets, Store.get. rewrite H.
    reflexivity. }
  split; [apply Habsent|].
  intros Hex target Htarget.
  assert (Hrun : exists w',
             Http.delete_instance env id w = (w', Ok (Http.json 204 JUndefined))
             /\ Store.instances (store w') = delete id (Store.instances (store w))
             /\ Store.persisted (store w')
             /\ sessions w' = delete id (sessions w)
             /\ auth_dirs w' = dirs_after_rm env id (auth_dirs w)).
  { unfold Http.delete_instance. unfold mbind at 1. unfold gets at 1. unfold Store.get.
    destruct Hex as [x Hx]. rewrite Hx.
    destruct (cleanupSession_run env id false w) as (tr & Hclean).
    rewrite (authDir_no_nul _ _ Htarget) in Hclean. cbn [orb andb negb] in Hclean.
    rewrite (mbind_run _ _ _ _ _ Hclean).
    unfold mbind, on_store. cbn [store].
    assert (Hsame : store_after_rm env id (store w) = store w).
    { unfold store_after_rm. rewrite Htarget. reflexivity. }
    rewrite Hsame.
    rewrite (delete_present id (store w)) by eauto.
    eexists. split; [reflexivity|]. cbn [store sessions auth_dirs set_store].
    split; [reflexivity|].
    split; [apply (save_persisted (Store.set_instances _ (store w)))|].
    split; reflexivity. }
  destruct Hrun as (w' & Hdel & Hinst & Hpers & Hsess & Hdirs).
  assert (Hgone : Store.instances (store w') !! id = None)
    by (rewrite Hinst; apply lookup_delete_eq).
  exists w'. split; [exact Hdel|]. split; [exact Hinst|]. split; [exact Hpers|].
  split; [exact Hsess|]. rewrite Hdirs.
  split.
  { rewrite elem_of_dirs_after_rm, gone_self. intros [_ H]. discriminate. }
  split.
  { intros other path Hpath.
    rewrite elem_of_dirs_after_rm, <- (gone_inside env id other _ _ Htarget Hpath).
    destruct (gone env id other); split; intros [? ?]; split; congruence. }
  split.
  { intros ->. apply dirs_after_rm_entry. exact Htarget. }
  split.
  - unfold Http.get_instance, mbind, gets, Store.get. rewrite Hgone. reflexivity.
  - apply Habsent, Hgone.
Qed.

(** The theorem on the instance [a] with its session and directory. *)
Lemma delete_instance_spec_witness :
  Http.delete_instance (Samples.env_at 0) "zz" (Samples.world_a "ready" "open")
  = (Samples.world_a "ready" "open",
     Ok (Routes.createErrorResponse 404 "not_found" msg_not_found None))
  /\ exists w',
       Http.delete_instance (Samples.env_at 0) "a" (Samples.world_a "ready" "open")
       = (w', Ok (Http.json 204 JUndefined))
       /\ Store.instances (store w') !! "a" = None
       /\ sessions w' !! "a" = None
       /\ auth_dirs w' = {["a"]} ∖ {["a"]}
       /\ Http.delete_instance (Samples.env_at 0) "a" w'
          = (w', Ok (Routes.createErrorResponse 404 "not_found" msg_not_found None)).
Proof.
  destruct (delete_instance_spec (Samples.env_at 0) "zz" (Samples.world_a "ready" "open"))
    as [Habs _].
  destruct (delete_instance_spec (Samples.env_at 0) "a" (Samples.world_a "ready" "open"))
    as [_ Hpres].
  split.
  - apply Habs. apply lookup_singleton_ne. discriminate.
  - destruct (Hpres (ex_intro _ (Samples.inst "a" "ready") (lookup_singleton_eq _ _))
                ["a"] eq_refl)
      as (w' & Hrun & Hinst & _ & Hsess & _ & _ & Hentry & _ & Hagain).
    exists w'. split; [exact Hrun|].
    split; [rewrite Hinst; apply lookup_delete_eq|].
    split; [rewrite Hsess; apply lookup_delete_eq|].
    split; [|exact Hagain].
    apply Hentry; [reflexivity|].
    intros other Hin. unfold Samples.world_a in Hin. cbn [auth_dirs] in Hin.
    apply elem_of_singleton in Hin as ->. reflexivity.
Defined.

Lemma typeof_string (v : JsVal) :
  String.eqb (typeof v) "string" = true <-> exists s, v = JStr s.
Proof.
  destruct v; cbn; split; try discriminate; try (intros [? ?]; discriminate); eauto.
Qed.

(** X7. [PATCH /instances/:id/status] answers 400 [invalid_payload] when
    the body has no string [status], 400 [invalid_status] when the
    string is not one of the three, 404 when the status is allowed and
    the instance unknown, in each case without changing anything.
    Otherwise it answers 200 with the record carrying the new status,
    which is written to the catalog and the file whatever the phase of
    the session, and sessions, directories and trace are untouched. The
    handler never throws. *)
Theorem patch_status_spec (id : string) (body : JsVal) (w : World) :
  ((forall s, member_opt (or_else body (JObj [])) "status" <> JStr s) ->
   Http.patch_status id body w
   = (w, Ok (Routes.createErrorResponse 400 "invalid_payload"
               Http.msg_status_required None)))
  /\ (forall s, member_opt (or_else body (JObj [])) "status" = JStr s ->
      ~ Store.allowed_status (JStr s) ->
      Http.patch_status id body w
      = (w, Ok (Routes.createErrorResponse 400 "invalid_status"
                  Http.msg_status_invalid None)))
  /\ (forall s, member_opt (or_else body (JObj [])) "status" = JStr s ->
      Store.allowed_status (JStr s) ->
      (Store.instances (store w) !! id = None ->
       Http.patch_status id body w
       = (w, Ok (Routes.createErrorResponse 404 "not_found" msg_not_found None)))
      /\ (forall instance, Store.instances (store w) !! id = Some instance ->
          exists w',
            Http.patch_status id body w
            = (w', Ok (Http.json 200
                         (Http.instance_json
                            {| Store.inst_id := Store.inst_id instance;
                               Store.inst_status := JStr s;
                               Store.inst_metadata := Store.inst_metadata instance |})))
            /\ Store.instances (store w')
               = <[id := {| Store.inst_id := Store.inst_id instance;
                            Store.inst_status := JStr s;
                            Store.inst_metadata := Store.inst_metadata instance |}]>
                   (Store.instances (store w))
            /\ Store.persisted (store w')
            /\ sessions w' = sessions w
            /\ auth_dirs w' = auth_dirs w
            /\ trace w' = trace w))
  /\ (exists r, snd (Http.patch_status id body w) = Ok r).
Proof.
  unfold Http.patch_status.
  set (status := member_opt (or_else body (JObj [])) "status").
  split; [|split; [|split]].
  - intros Hno. destruct (String.eqb (typeof status) "string") eqn:E; [|reflexivity].
    apply typeof_string in E as [s Hs]. exfalso. exact (Hno s Hs).
  - intros s Hs Hbad. rewrite Hs. cbn [typeof String.eqb Ascii.eqb Bool.eqb negb].
    apply has_not_allowed_status in Hbad. rewrite Hbad. reflexivity.
  - intros s Hs Hok. rewrite Hs. cbn [typeof String.eqb Ascii.eqb Bool.eqb negb].
    apply has_allowed_status in Hok. rewrite Hok. cbn [negb].
    unfold mbind, on_store, Store.updateStatus. rewrite Hok. cbn [negb]. split.
    + intros Hnone. rewrite Hnone. cbn. rewrite set_store_same. reflexivity.
    + intros instance Hi. rewrite Hi. cbn. eexists. split; [reflexivity|]. cbn.
      repeat split. apply (save_persisted (Store.set_instances _ (store w))).
  - destruct (String.eqb (typeof status) "string"); cbn [negb]; [|eexists; reflexivity].
    destruct (has Store.ALLOWED_STATUSES status) eqn:Hok; cbn [negb];
      [|eexists; reflexivity].
    unfold mbind, on_store, Store.updateStatus. rewrite Hok. cbn [negb].
    destruct (Store.instances (store w) !! id); cbn; eexists; reflexivity.
Qed.

(** The theorem on the instance [a], pending and with a closed session:
    a number, the string [paused], an unknown instance, then [ready]. *)
Lemma patch_status_spec_witness :
  Http.patch_status "a" (JObj [("status", JNum 1)]) (Samples.world_a "pending_qr" "close")
  = (Samples.world_a "pending_qr" "close",
     Ok (Routes.createErrorResponse 400 "invalid_payload" Http.msg_status_required None))
  /\ Http.patch_status "a" (JObj [("status", JStr "paused")])
       (Samples.world_a "pending_qr" "close")
     = (Samples.world_a "pending_qr" "close",
        Ok (Routes.createErrorResponse 400 "invalid_status" Http.msg_status_invalid None))
  /\ Http.patch_status "zz" (JObj [("status", JStr "ready")])
       (Samples.world_a "pending_qr" "close")
     = (Samples.world_a "pending_qr" "close",
        Ok (Routes.createErrorResponse 404 "not_found" msg_not_found None))
  /\ exists w',
       Http.patch_status "a" (JObj [("status", JStr "ready")])
         (Samples.world_a "pending_qr" "close")
       = (w', Ok (Http.json 200 (Http.instance_json (Samples.inst "a" "ready"))))
       /\ sessions w' = sessions (Samples.world_a "pending_qr" "close").
Proof.
  assert (Hready : Store.allowed_status (JStr "ready")) by (right; left; reflexivity).
  split; [|split; [|split]].
  - apply (patch_status_spec "a" (JObj [("status", JNum 1)])). intros s. discriminate.
  - destruct (patch_status_spec "a" (JObj [("status", JStr "paused")])
                (Samples.world_a "pending_qr" "close")) as (_ & H & _).
    apply (H "paused" eq_refl). intros [H1 | [H1 | H1]]; discriminate.
  - destruct (patch_status_spec "zz" (JObj [("status", JStr "ready")])
                (Samples.world_a "pending_qr" "close")) as (_ & _ & H & _).
    destruct (H "ready" eq_refl Hready) as [Hnone _].
    apply Hnone. apply lookup_singleton_ne. discriminate.
  - destruct (patch_status_spec "a" (JObj [("status", JStr "ready")])
                (Samples.world_a "pending_qr" "close")) as (_ & _ & H & _).
    destruct (H "ready" eq_refl Hready) as [_ Hsome].
    destruct (Hsome (Samples.inst "a" "pending_qr") (lookup_singleton_eq _ _))
      as (w' & Hrun & _ & _ & Hsess & _).
    exists w'. split; [exact Hrun | exact Hsess].
Defined.

Lemma nonempty_string_Some (v : JsVal) (x : string) :
  Routes.nonempty_string v = Some x <-> v = JStr x /\ x <> "".
Proof.
  destruct v; cbn; try (split; [discriminate | intros [? _]; discriminate]).
  destruct (String.eqb_spec s ""); cbn; split.
  - discriminate.
  - intros [[= ->] H]. contradiction.
  - intros [= ->]. split; [reflexivity | assumption].
  - intros [[= ->] _]. reflexivity.
Qed.

Lemma getQRCode_Some (env : Env) (id : string) (w : World) (session : Session) (q : QR) :
  sessions w !! id = Some session -> qr session = Some q ->
  getQRCode env id w
  = Some {| r_instanceId := id; r_type := qr_type q; r_value := qr_value q;
            r_expiresIn := Z.max 0 ((qr_expiresAt q - now env) / 1000) |}.
Proof.
  intros Hs Hq. unfold getQRCode. rewrite Hs. destruct session. cbn in Hq. subst.
  reflexivity.
Qed.

Lemma getQRCode_None (env : Env) (id : string) (w : World) :
  (forall session, sessions w !! id = Some session -> qr session = None) ->
  getQRCode env id w = None.
Proof.
  intros H. unfold getQRCode. destruct (sessions w !! id) as [[sk [q|] c]|]; try reflexivity.
  specialize (H _ eq_refl). discriminate.
Qed.




End RoutesMoreSpec.

(** ** More on the catalog *)

Section StoreMoreSpec.
Import Js Eff Messages Manager.

(** X9. [updateMetadata] returns [null] and changes nothing for an
    unknown identifier. For a known one it replaces the metadata by the
    value given, or by [{}] when that is falsy, keeps the identifier and
    the status of the record and every other record, and writes the
    catalog to the file. It never throws. *)
Theorem updateMetadata_spec (id : string) (metadata : JsVal) (s : Store.State) :
  (Store.instances s !! id = None -> Store.updateMetadata id metadata s = (s, Ok None))
  /\ (forall instance, Store.instances s !! id = Some instance ->
      exists s' stored,
        Store.updateMetadata id metadata s
        = (s', Ok (Some {| Store.inst_id := Store.inst_id instance;
                           Store.inst_status := Store.inst_status instance;
                           Store.inst_metadata := stored |}))
        /\ (truthy metadata = true -> stored = metadata)
        /\ (truthy metadata = false -> stored = JObj [])
        /\ Store.instances s'
           = <[id := {| Store.inst_id := Store.inst_id instance;
                        Store.inst_status := Store.inst_status instance;
                        Store.inst_metadata := stored |}]> (Store.instances s)
        /\ Store.persisted s')
  /\ (exists r, snd (Store.updateMetadata id metadata s) = Ok r).
Proof.
  unfold Store.updateMetadata. split; [|split].
  - intros ->. reflexivity.
  - intros instance ->. cbn.
    eexists _, (or_else metadata (JObj [])). split; [reflexivity|].
    unfold or_else. repeat split.
    + intros ->. reflexivity.
    + intros ->. reflexivity.
    + apply (save_persisted (Store.set_instances _ s)).
  - destruct (Store.instances s !! id); cbn; eexists; reflexivity.
Qed.

(** The theorem on the catalog that holds [a]. *)
Lemma updateMetadata_spec_witness :
  Store.updateMetadata "zz" (JObj [("k", JNum 1)]) (Samples.store_a "ready")
  = (Samples.store_a "ready", Ok None)
  /\ exists s',
       fst (Store.updateMetadata "a" JNull (Samples.store_a "ready")) = s'
       /\ Store.instances s' !! "a" = Some (Samples.inst "a" "ready").
Proof.
  destruct (updateMetadata_spec "zz" (JObj [("k", JNum 1)]) (Samples.store_a "ready"))
    as (Hnone & _).
  destruct (updateMetadata_spec "a" JNull (Samples.store_a "ready")) as (_ & Hsome & _).
  split; [apply Hnone; apply lookup_singleton_ne; discriminate|].
  destruct (Hsome (Samples.inst "a" "ready") (lookup_singleton_eq _ _))
    as (s' & stored & Hrun & _ & Hfalsy & Hinst & _).
  exists s'. rewrite Hrun. split; [reflexivity|].
  rewrite Hinst, (Hfalsy eq_refl). apply lookup_insert_eq.
Defined.

(** X10. Creating an instance under a new identifier and deleting it
    again gives back the catalog that was there: [delete] reports that
    the record existed, the records in memory are those from before the
    creation, and the file holds exactly them. *)
Theorem create_delete_round_trip (id : string) (metadata : JsVal) (s : Store.State) :
  id <> "" -> Store.instances s !! id = None ->
  exists s1 instance s2,
    Store.create id metadata s = (s1, Ok instance)
    /\ Store.delete id s1 = (s2, Ok true)
    /\ Store.instances s2 = Store.instances s
    /\ Store.persisted s2.
Proof.
  intros Hid Hnone. rewrite (create_fresh id metadata s Hid Hnone).
  eexists _, _, _. split; [reflexivity|].
  rewrite delete_present by (cbn; rewrite lookup_insert_eq; eauto).
  split; [reflexivity|]. cbn. split.
  - apply delete_insert_id, Hnone.
  - apply (save_persisted (Store.set_instances _ _)).
Qed.

(** The theorem on the catalog that holds [a], for the identifier [b]. *)
Lemma create_delete_round_trip_witness :
  exists s1 instance s2,
    Store.create "b" JUndefined (Samples.store_a "ready") = (s1, Ok instance)
    /\ Store.delete "b" s1 = (s2, Ok true)
    /\ Store.instances s2 = Store.instances (Samples.store_a "ready")
    /\ Store.persisted s2.
Proof.
  apply (create_delete_round_trip "b" JUndefined (Samples.store_a "ready")).
  - discriminate.
  - apply lookup_singleton_ne. discriminate.
Defined.

End StoreMoreSpec.

(** ** What is written to the file can be read back *)

Section ReloadSpec.
Import Js Eff Messages Manager.

Lemma written_id (row : Store.Row) :
  member (Store.written row) "id" = Ok (json (Store.row_id row)).
Proof.
  unfold Store.written, Store.object_of. rewrite json_obj. cbn [json_props member].
  destruct (json (Store.row_id row)); destruct (json (Store.row_status row));
    destruct (json (Store.row_metadata row)); reflexivity.
Qed.

Lemma written_metadata (row : Store.Row) :
  member_opt (Store.written row) "metadata" = json (Store.row_metadata row).
Proof.
  unfold Store.written, Store.object_of. rewrite json_obj. cbn [json_props member_opt].
  destruct (json (Store.row_id row)); destruct (json (Store.row_status row));
    destruct (json (Store.row_metadata row)); reflexivity.
Qed.

(** What is written never gains a string where there was none. *)
Lemma json_not_string (v : JsVal) (key : string) : json v = JStr key -> v = JStr key.
Proof. destruct v; cbn; intros H; try discriminate H; exact H. Qed.

(** [init] on one record that [save] wrote under a string key. *)
Lemma load_written_own (r : Store.Instance) (s0 : Store.State) :
  Store.load_record (Store.written (Store.row_of r)) s0
  = (Store.set_instances
       (<[Store.inst_id r := Store.reloaded r]> (Store.instances s0)) s0, Ok tt).
Proof.
  unfold Store.load_record.
  rewrite written_id, written_status, written_metadata. reflexivity.
Qed.

(** [init] on one record that [save] wrote under another key. *)
Lemma load_written_stray (row : Store.Row) (s0 : Store.State) :
  (forall key, Store.row_id row <> JStr key) ->
  exists rows,
    Store.load_record (Store.written row) s0 = (Store.set_strays rows s0, Ok tt).
Proof.
  intros Hid. unfold Store.load_record.
  rewrite written_id, written_status, written_metadata.
  destruct (json (Store.row_id row)) eqn:E; try (eexists; reflexivity).
  apply json_not_string in E. exfalso. exact (Hid _ E).
Qed.

Lemma for_each_app {S A : Type} (f : A -> M S unit) (l1 l2 : list A) (s s1 : S) :
  Store.for_each f l1 s = (s1, Ok tt) ->
  Store.for_each f (l1 ++ l2) s = Store.for_each f l2 s1.
Proof.
  revert s. induction l1 as [|x l1 IH]; intros s H.
  - cbn in H. injection H as ->. reflexivity.
  - cbn [app Store.for_each] in *. unfold mbind in *.
    destruct (f x s) as [s' [[]|e]]; [apply IH, H | discriminate].
Qed.

(** Reading back records without repeated identifier, each under its
    own identifier. *)
Lemma for_each_written_own (l : list (string * Store.Instance)) :
  forall s0 : Store.State,
  NoDup (l.*1) ->
  (forall id r, (id, r) ∈ l -> Store.inst_id r = id) ->
  exists s1,
    Store.for_each Store.load_record
      (Store.written <$> (Store.row_of <$> l.*2)) s0 = (s1, Ok tt)
    /\ Store.strays s1 = Store.strays s0
    /\ Store.initialized s1 = Store.initialized s0
    /\ Store.file s1 = Store.file s0
    /\ forall k,
         Store.instances s1 !! k
         = match (list_to_map l : gmap string Store.Instance) !! k with
           | Some r => Some (Store.reloaded r)
           | None => Store.instances s0 !! k
           end.
Proof.
  induction l as [|[id r] l IH]; intros s0 Hnd Hl.
  { exists s0. repeat split. }
  cbn [fmap list_fmap snd Store.for_each]. apply NoDup_cons in Hnd as [Hnotin Hnd].
  rewrite (mbind_run _ _ _ _ _ (load_written_own r s0)).
  destruct (IH (Store.set_instances
                  (<[Store.inst_id r := Store.reloaded r]> (Store.instances s0)) s0) Hnd)
    as (s1 & Hrun & Hst & Hin & Hf & Hlook);
    [intros id' r' H; apply Hl; right; exact H|].
  exists s1. split; [exact Hrun|]. split; [exact Hst|]. split; [exact Hin|].
  split; [exact Hf|].
  intros k. rewrite Hlook. cbn [Store.instances Store.set_instances].
  rewrite (Hl id r) by left. rewrite list_to_map_cons.
  destruct (decide (id = k)) as [<- | Hne].
  - rewrite (not_elem_of_list_to_map_1 l id Hnotin), !lookup_insert_eq. reflexivity.
  - rewrite !(lookup_insert_ne _ id k) by exact Hne. reflexivity.
Qed.

(** Reading back records that have no string for a key leaves the
    string keys alone. *)
Lemma for_each_written_strays (rows : list Store.Row) :
  forall s0 : Store.State,
  (forall row key, row ∈ rows -> Store.row_id row <> JStr key) ->
  exists s1,
    Store.for_each Store.load_record (Store.written <$> rows) s0 = (s1, Ok tt)
    /\ Store.instances s1 = Store.instances s0
    /\ Store.initialized s1 = Store.initialized s0
    /\ Store.file s1 = Store.file s0.
Proof.
  induction rows as [|row rows IH]; intros s0 Hrows.
  { exists s0. repeat split. }
  cbn [fmap list_fmap Store.for_each].
  destruct (load_written_stray row s0) as (rows' & Hload);
    [intros key; apply Hrows; left|].
  rewrite (mbind_run _ _ _ _ _ Hload).
  destruct (IH (Store.set_strays rows' s0)) as (s1 & Hrun & Hi & Hin & Hf);
    [intros row' key H; apply Hrows; right; exact H|].
  exists s1. split; [exact Hrun|]. repeat split; assumption.
Qed.

(** [init] in a new store over a file that holds an array. *)
Lemma init_new_array (items : list JsVal) :
  Store.init (Store.new (Store.Json (JArr items)))
  = match Store.for_each Store.load_record items (Store.new (Store.Json (JArr items))) with
    | (s1, Ok _) => (Store.set_initialized true s1, Ok tt)
    | (s1, Throw e) => (s1, Throw e)
    end.
Proof. reflexivity. Qed.

(** Reading back, in a new store, the file that [save] wrote. *)
Lemma reload_run (s : Store.State) :
  (forall id r, Store.instances s !! id = Some r -> Store.inst_id r = id) ->
  Service.strays_apart s ->
  exists s',
    Store.init (Store.new (Store.file (fst (Store.save s)))) = (s', Ok tt)
    /\ Store.instances s' = Store.reloaded <$> Store.instances s
    /\ Store.initialized s' = true
    /\ Store.file s' = Store.file (fst (Store.save s)).
Proof.
  intros Hkeys Hstrays.
  unfold Store.save. cbn [fst Store.file Store.set_file].
  rewrite json_rows, init_new_array.
  unfold Store.list. rewrite fmap_app.
  set (s0 := Store.new _).
  destruct (for_each_written_own (map_to_list (Store.instances s)) s0)
    as (s1 & Hown & _ & Hin1 & Hf1 & Hlook);
    [apply NoDup_fst_map_to_list
    |intros id r H; apply elem_of_map_to_list in H; exact (Hkeys id r H)|].
  destruct (for_each_written_strays (Store.strays s) s1) as (s2 & Hstr & Hi2 & Hin2 & Hf2);
    [intros row key H; exact (Hstrays row key H)|].
  rewrite (for_each_app _ _ _ _ _ Hown), Hstr.
  eexists. split; [reflexivity|]. cbn [Store.instances Store.initialized Store.file
    Store.set_initialized].
  split; [|split; [reflexivity | rewrite Hf2, Hf1; reflexivity]].
  rewrite Hi2. apply map_eq. intros k. rewrite Hlook, list_to_map_to_list, lookup_fmap.
  destruct (Store.instances s !! k); reflexivity.
Qed.

(** A record whose status and metadata are written as they are, and are
    truthy, is read back as it is. *)
Lemma reloaded_same (r : Store.Instance) :
  json (Store.inst_status r) = Store.inst_status r ->
  json (Store.inst_metadata r) = Store.inst_metadata r ->
  truthy (Store.inst_status r) = true -> truthy (Store.inst_metadata r) = true ->
  Store.reloaded r = r.
Proof.
  intros Hs Hm Hts Htm. unfold Store.reloaded, or_else. rewrite Hs, Hm, Hts, Htm.
  destruct r; reflexivity.
Qed.

(** X11. Let every record of the catalog sit under its own identifier,
    and no record kept beside the string keys have a string for [id], as
    [init], [create], [updateStatus] and [updateMetadata] leave them.
    Then the file written by [save] is read by [init], in a new store,
    without failure, and gives back under every identifier the record
    that was there, with its status and metadata as [JSON.stringify]
    writes them: a record whose status and metadata are truthy and
    written as they are comes back the same, while what is written as
    [null] or left out, as an infinite number or [undefined] is, comes
    back as the default of [init]. *)
Theorem save_init_round_trip (s : Store.State) :
  (forall id r, Store.instances s !! id = Some r -> Store.inst_id r = id) ->
  Service.strays_apart s ->
  exists s',
    Store.init (Store.new (Store.file (fst (Store.save s)))) = (s', Ok tt)
    /\ Store.instances s' = Store.reloaded <$> Store.instances s
    /\ Store.initialized s' = true
    /\ Store.file s' = Store.file (fst (Store.save s))
    /\ (forall id r, Store.instances s !! id = Some r ->
        json (Store.inst_status r) = Store.inst_status r ->
        json (Store.inst_metadata r) = Store.inst_metadata r ->
        truthy (Store.inst_status r) = true -> truthy (Store.inst_metadata r) = true ->
        Store.instances s' !! id = Some r)
    /\ (forall id r negative, Store.instances s !! id = Some r ->
        Store.inst_metadata r = JInfinity negative ->
        exists r', Store.instances s' !! id = Some r' /\ Store.inst_metadata r' = JObj []).
Proof.
  intros Hkeys Hstrays.
  destruct (reload_run s Hkeys Hstrays) as (s' & Hinit & Hinst & Hflag & Hfile).
  exists s'. split; [exact Hinit|]. split; [exact Hinst|]. split; [exact Hflag|].
  split; [exact Hfile|]. split.
  - intros id r Hr Hs Hm Hts Htm. rewrite Hinst, lookup_fmap, Hr. cbn. f_equal.
    apply reloaded_same; assumption.
  - intros id r negative Hr Hm. exists (Store.reloaded r).
    split; [rewrite Hinst, lookup_fmap, Hr; reflexivity|].
    unfold Store.reloaded. rewrite Hm. reflexivity.
Qed.

(** The theorem on a catalog that holds [a] with the metadata
    [{ k: undefined }]: it comes back with the metadata [{}]. *)
Lemma save_init_round_trip_witness :
  Store.instances
    (fst (Store.init
            (Store.new
               (Store.file
                  (fst (Store.save
                          (Store.set_instances
                             {["a" := {| Store.inst_id := "a";
                                         Store.inst_status := JStr "ready";
                                         Store.inst_metadata := JObj [("k", JUndefined)] |}]}
                             (Samples.store_a "ready"))))))))
  = {["a" := Samples.inst "a" "ready"]}.
Proof.
  destruct (save_init_round_trip
              (Store.set_instances
                 {["a" := {| Store.inst_id := "a";
                             Store.inst_status := JStr "ready";
                             Store.inst_metadata := JObj [("k", JUndefined)] |}]}
                 (Samples.store_a "ready")))
    as (s' & Hinit & Hinst & _).
  - intros id r H. cbn in H. apply lookup_singleton_Some in H as [<- <-]. reflexivity.
  - intros row key H. cbn in H. inversion H.
  - rewrite Hinit. cbn [fst]. rewrite Hinst.
    cbn [Store.instances Store.set_instances].
    rewrite map_fmap_singleton. reflexivity.
Defined.

End ReloadSpec.

(** ** Who writes the catalog *)

Section Preservation.
Import Js Eff Messages Manager.

Variable P : Store.State -> Prop.
Hypothesis P_create :
  forall id metadata s, P s -> P (fst (Store.create id metadata s)).
Hypothesis P_delete : forall id s, P s -> P (fst (Store.delete id s)).
Hypothesis P_updateStatus :
  forall id status s, Store.allowed_status status ->
                      P s -> P (fst (Store.updateStatus id status s)).

(** The identifiers whose removal [P] survives. *)
Variable ok : string -> Prop.
Hypothesis P_rm : forall env id s, ok id -> P s -> P (store_after_rm env id s).

Lemma preserves_ret {A : Type} (a : A) : Service.preserves P (ret a).
Proof. intros w H. exact H. Qed.

Lemma preserves_gets {A : Type} (f : World -> A) : Service.preserves P (gets f).
Proof. intros w H. exact H. Qed.

Lemma preserves_bind {A B : Type} (m : M World A) (k : A -> M World B) :
  Service.preserves P m -> (forall a, Service.preserves P (k a)) ->
  Service.preserves P (mbind m k).
Proof.
  intros Hm Hk w H. unfold mbind. specialize (Hm w H).
  destruct (m w) as [w' [a | e]]; cbn in *; [apply Hk|]; exact Hm.
Qed.

Lemma preserves_attempt {A : Type} (m : M World A) :
  Service.preserves P m -> Service.preserves P (attempt m).
Proof.
  intros Hm w H. unfold attempt. specialize (Hm w H).
  destruct (m w) as [w' r]. exact Hm.
Qed.

Lemma preserves_modify (f : World -> World) :
  (forall w, store (f w) = store w) -> Service.preserves P (modify f).
Proof. intros Hf w H. cbn. rewrite Hf. exact H. Qed.

Lemma preserves_emit (e : Event) : Service.preserves P (emit e).
Proof. apply preserves_modify. reflexivity. Qed.

Lemma preserves_update_session (id : string) (f : Session -> Session) :
  Service.preserves P (update_session id f).
Proof.
  apply preserves_modify. intros w. destruct (sessions w !! id); reflexivity.
Qed.

Lemma preserves_on_store {A : Type} (m : M Store.State A) :
  (forall s, P s -> P (fst (m s))) -> Service.preserves P (on_store m).
Proof.
  intros Hm w H. unfold on_store. specialize (Hm _ H).
  destruct (m (store w)) as [st r]. exact Hm.
Qed.

(** [updateStatus] refuses what is not allowed before it writes. *)
Lemma preserves_updateStatus (id : string) (status : JsVal) :
  Service.preserves P (on_store (Store.updateStatus id status)).
Proof.
  apply preserves_on_store. intros s H.
  destruct (has Store.ALLOWED_STATUSES status) eqn:E.
  - apply P_updateStatus; [apply has_allowed_status, E | exact H].
  - unfold Store.updateStatus. rewrite E. exact H.
Qed.

Lemma preserves_create (id : string) (metadata : JsVal) :
  Service.preserves P (on_store (Store.create id metadata)).
Proof. apply preserves_on_store, P_create. Qed.

Lemma preserves_delete (id : string) :
  Service.preserves P (on_store (Store.delete id)).
Proof. apply preserves_on_store, P_delete. Qed.

(** Splits a method along its binds and branches. *)
Ltac preserves_step :=
  match goal with
  | |- Service.preserves _ (mbind _ _) => apply preserves_bind; [|intros ?]
  | |- Service.preserves _ (ret _) => apply preserves_ret
  | |- Service.preserves _ (gets _) => apply preserves_gets
  | |- Service.preserves _ (emit _) => apply preserves_emit
  | |- Service.preserves _ (attempt _) => apply preserves_attempt
  | |- Service.preserves _ (update_session _ _) => apply preserves_update_session
  | |- Service.preserves _ (on_store (Store.updateStatus _ _)) =>
      apply preserves_updateStatus
  | |- Service.preserves _ (on_store (Store.create _ _)) => apply preserves_create
  | |- Service.preserves _ (on_store (Store.delete _)) => apply preserves_delete
  | |- Service.preserves _ (modify _) => apply preserves_modify; intros ?; reflexivity
  | |- Service.preserves _ (match ?x with _ => _ end) => destruct x
  | |- Service.preserves _ (if ?b then _ else _) => destruct b
  | |- Service.preserves _ (let _ := _ in _) => cbv zeta
  | H : Service.preserves _ ?m |- Service.preserves _ ?m => exact H
  end.

Lemma preserves_cleanupSession (env : Env) (id : string) (keepData : bool) :
  ok id -> Service.preserves P (cleanupSession env id keepData).
Proof.
  intros Hok.
  assert (Hrm : Service.preserves P (rm_authDir env id)).
  { intros w H. unfold rm_authDir. destruct (includes id 0); [exact H|].
    cbn. apply P_rm; assumption. }
  unfold cleanupSession. repeat preserves_step.
Qed.

Lemma preserves_initializeForInstance (env : Env) (id : string) :
  Service.preserves P (initializeForInstance env id).
Proof.
  intros w H. unfold initializeForInstance.
  destruct (sessions w !! id); [exact H|].
  destruct (Store.get id (store w)); [|exact H].
  cbn. destruct (makeWASocket env id); exact H.
Qed.

Lemma preserves_getOrCreateSession (env : Env) (id : string) :
  Service.preserves P (getOrCreateSession env id).
Proof.
  intros w H. unfold getOrCreateSession.
  destruct (sessions w !! id); [exact H|].
  apply preserves_initializeForInstance, H.
Qed.

Lemma preserves_handleConnectionUpdate (env : Env) (id : string)
    (update : ConnectionUpdate) :
  ok id -> Service.preserves P (handleConnectionUpdate env id update).
Proof.
  intros Hok. pose proof (preserves_cleanupSession env id false Hok).
  unfold handleConnectionUpdate, on_qr, on_connection. repeat preserves_step.
Qed.

Lemma preserves_post_messages (env : Env) (req_body : JsVal) :
  Service.preserves P (Routes.post_messages env req_body).
Proof.
  unfold Routes.post_messages, Routes.sendMessage.
  repeat (preserves_step || apply preserves_getOrCreateSession).
Qed.

Lemma preserves_get_qrcode (env : Env) (instanceId : JsVal) :
  Service.preserves P (Http.get_qrcode env instanceId).
Proof.
  unfold Http.get_qrcode.
  repeat (preserves_step || apply preserves_getOrCreateSession).
Qed.

Lemma preserves_post_instances (env : Env) (req_body : JsVal) :
  Service.preserves P (Http.post_instances env req_body).
Proof.
  unfold Http.post_instances.
  repeat (preserves_step || apply preserves_initializeForInstance).
Qed.

Lemma preserves_delete_instance (env : Env) (id : string) :
  ok id -> Service.preserves P (Http.delete_instance env id).
Proof.
  intros Hok. pose proof (preserves_cleanupSession env id false Hok).
  unfold Http.delete_instance. repeat preserves_step.
Qed.

Lemma preserves_patch_status (id : string) (req_body : JsVal) :
  Service.preserves P (Http.patch_status id req_body).
Proof. unfold Http.patch_status. repeat preserves_step. Qed.

Lemma handle_preserves (i : Service.Input) (w : World) :
  Service.removals ok i -> P (store w) -> P (store (Service.handle i w)).
Proof.
  intros Hok H. destruct i; cbn [Service.handle].
  - apply preserves_get_qrcode, H.
  - exact H.
  - apply preserves_post_instances, H.
  - unfold Http.get_instance, mbind, gets.
    destruct (Store.get instanceId (store w)); exact H.
  - apply preserves_delete_instance; [exact Hok | exact H].
  - apply preserves_patch_status, H.
  - apply preserves_post_messages, H.
  - apply preserves_handleConnectionUpdate; [exact Hok | exact H].
Qed.

Lemma serve_preserves (inputs : list Service.Input) :
  Forall (Service.removals ok) inputs ->
  forall w, P (store w) -> P (store (Service.serve inputs w)).
Proof.
  induction inputs as [|i inputs IH]; intros Hok w H; [exact H|].
  apply Forall_cons in Hok as [Hi Hok].
  cbn. apply IH; [exact Hok|]. apply handle_preserves; [exact Hi | exact H].
Qed.

(** Start-up opens sessions and leaves the catalog as [init] made it. *)
Lemma init_all_store (env : Env) (l : list Store.Row) :
  forall w, store (fst (Boot.init_all env l w)) = store w
            /\ snd (Boot.init_all env l w) = Ok tt.
Proof using Type.
  induction l as [|r l IH]; intros w; [split; reflexivity|].
  cbn [Boot.init_all].
  assert (H1 : exists w1, Boot.init_one env r w = (w1, Ok tt) /\ store w1 = store w).
  { unfold Boot.init_one.
    destruct (Store.row_id r) as [| |b|n| |neg|id|items|fields];
      try (eexists; split; reflexivity).
    unfold mbind, attempt, initializeForInstance.
    destruct (sessions w !! id); [eexists; split; reflexivity|].
    destruct (Store.get id (store w)); [|eexists; split; reflexivity].
    cbn. destruct (makeWASocket env id); eexists; split; reflexivity. }
  destruct H1 as (w1 & Hone & Hst). rewrite (mbind_run _ _ _ _ _ Hone).
  destruct (IH w1) as [IH1 IH2]. split; [congruence | exact IH2].
Qed.

End Preservation.

Section CatalogWriters.
Import Js Eff Messages Manager.

Lemma removals_any (inputs : list Service.Input) :
  Forall (Service.removals (fun _ => True)) inputs.
Proof. apply Forall_forall. intros i _. destruct i; exact I. Qed.

(** X12. The routes and the connection events write the catalog only
    through [create], [delete] and [updateStatus] with an allowed status:
    whatever these three keep true of the store stays true through every
    sequence of requests and events, provided it is a property that the
    loss of the catalog file leaves true, or else that every deletion
    and every connection event is for an identifier whose
    [path.join(SESSIONS_DIR, instanceId)] stays in [SESSIONS_DIR]: the
    removal of a credential directory that does not may take the file
    along. [updateMetadata] is not called by any of them. *)
Theorem catalog_written_through_store (P : Store.State -> Prop)
    (inputs : list Service.Input) (w : World) :
  (forall id metadata s, P s -> P (fst (Store.create id metadata s))) ->
  (forall id s, P s -> P (fst (Store.delete id s))) ->
  (forall id status s, Store.allowed_status status ->
                       P s -> P (fst (Store.updateStatus id status s))) ->
  (forall s, P s -> P (Store.set_file Store.NoFile s))
  \/ Forall Service.confined inputs ->
  P (store w) -> P (store (Service.serve inputs w)).
Proof.
  intros Hc Hd Hu [Hfile | Hin] H.
  - apply (serve_preserves P Hc Hd Hu (fun _ => True)); [|apply removals_any | exact H].
    intros env id s _ Hs. unfold store_after_rm.
    destruct (authDir id); [exact Hs|].
    destruct (rm_takes_catalog env id); [apply Hfile|]; exact Hs.
  - apply (serve_preserves P Hc Hd Hu (fun id => is_Some (authDir id)));
      [|exact Hin | exact H].
    intros env id s [target Ht] Hs. unfold store_after_rm. rewrite Ht. exact Hs.
Qed.

(** The theorem for the property that the file holds the catalog, on a
    creation, a status update and a deletion. *)
Lemma catalog_written_through_store_witness :
  Store.persisted
    (store (Service.serve
              [Service.PostInstances (Samples.env_online 0) (JObj [("id", JStr "b")]);
               Service.PatchStatus "b" (JObj [("status", JStr "ready")]);
               Service.DeleteInstance (Samples.env_online 0) "a"]
              (fst (on_store Store.save (Samples.world_a "ready" "open"))))).
Proof.
  apply (catalog_written_through_store Store.persisted).
  - intros id metadata s H. unfold Store.create.
    destruct (negb _); [exact H|]. destruct (Store.instances s !! id); [exact H|].
    apply (save_persisted (Store.set_instances _ s)).
  - intros id s H. unfold Store.delete. destruct (Store.instances s !! id); [|exact H].
    apply (save_persisted (Store.set_instances _ s)).
  - intros id status s _ H. unfold Store.updateStatus.
    destruct (negb _); [exact H|]. destruct (Store.instances s !! id); [|exact H].
    apply (save_persisted (Store.set_instances _ s)).
  - right. repeat constructor. exists ["a"]. reflexivity.
  - apply (save_persisted (Samples.store_a "ready")).
Defined.

Lemma truthy_or_else (a b : JsVal) : truthy b = true -> truthy (or_else a b) = true.
Proof. intros H. unfold or_else. destruct (truthy a) eqn:E; assumption. Qed.

Lemma normal_insert (s : Store.State) (id : string) (r : Store.Instance) :
  Service.normal s ->
  Store.inst_id r = id -> truthy (Store.inst_status r) = true ->
  truthy (Store.inst_metadata r) = true ->
  Service.normal (Store.set_instances (<[id := r]> (Store.instances s)) s).
Proof.
  intros Hn Hid Hs Hm id' r'. cbn. rewrite lookup_insert.
  case_decide; [intros [= <-]; subst; auto | apply Hn].
Qed.

Lemma allowed_status_truthy (v : JsVal) : Store.allowed_status v -> truthy v = true.
Proof. intros [-> | [-> | ->]]; reflexivity. Qed.

Lemma normal_create (id : string) (metadata : JsVal) (s : Store.State) :
  Service.normal s -> Service.normal (fst (Store.create id metadata s)).
Proof.
  intros Hn. unfold Store.create.
  destruct (negb _); [exact Hn|].
  destruct (Store.instances s !! id); [exact Hn|].
  apply (normal_insert s id); [exact Hn | reflexivity | reflexivity |].
  apply truthy_or_else. reflexivity.
Qed.

Lemma normal_delete (id : string) (s : Store.State) :
  Service.normal s -> Service.normal (fst (Store.delete id s)).
Proof.
  intros Hn. unfold Store.delete.
  destruct (Store.instances s !! id); [|exact Hn].
  intros id' r'. cbn. rewrite lookup_delete. case_decide; [discriminate | apply Hn].
Qed.

Lemma normal_updateStatus (id : string) (status : JsVal) (s : Store.State) :
  Store.allowed_status status ->
  Service.normal s -> Service.normal (fst (Store.updateStatus id status s)).
Proof.
  intros Hst Hn. unfold Store.updateStatus.
  destruct (negb _); [exact Hn|].
  destruct (Store.instances s !! id) as [x|] eqn:Hx; [|exact Hn].
  destruct (Hn id x Hx) as (Hid & _ & Hm).
  apply (normal_insert s id); [exact Hn | exact Hid | | exact Hm].
  apply allowed_status_truthy, Hst.
Qed.

(** The three writers leave alone what lies beside the string keys. *)
Lemma strays_create (id : string) (metadata : JsVal) (s : Store.State) :
  Store.strays (fst (Store.create id metadata s)) = Store.strays s.
Proof.
  unfold Store.create. destruct (negb _); [reflexivity|].
  destruct (Store.instances s !! id); reflexivity.
Qed.

Lemma strays_delete (id : string) (s : Store.State) :
  Store.strays (fst (Store.delete id s)) = Store.strays s.
Proof. unfold Store.delete. destruct (Store.instances s !! id); reflexivity. Qed.

Lemma strays_updateStatus (id : string) (status : JsVal) (s : Store.State) :
  Store.strays (fst (Store.updateStatus id status s)) = Store.strays s.
Proof.
  unfold Store.updateStatus. destruct (negb _); [reflexivity|].
  destruct (Store.instances s !! id); reflexivity.
Qed.

(** What [init] keeps true, record by record. *)
Lemma init_keeps (P : Store.State -> Prop) :
  (forall item s, P s -> P (fst (Store.load_record item s))) ->
  (forall b s, P s -> P (Store.set_initialized b s)) ->
  (forall f s, P s -> P (Store.set_file f s)) ->
  forall s, P s -> P (fst (Store.init s)).
Proof.
  intros Hload Hflag Hfile s H. unfold Store.init.
  destruct (Store.initialized s); [exact H|].
  assert (Heach : forall items s0, P s0 ->
            P (fst (Store.for_each Store.load_record items s0))).
  { induction items as [|item items IH]; intros s0 H0; [exact H0|].
    cbn [Store.for_each]. unfold mbind. specialize (Hload item s0 H0).
    destruct (Store.load_record item s0) as [s1 [[]|e]]; cbn [fst] in *;
      [apply IH|]; exact Hload. }
  assert (Hgo : forall s0, P s0 ->
            P (fst ((parsed <- (fun s =>
                                  match Store.file s with
                                  | Store.Json parsed => (s, Ok parsed)
                                  | _ => (s, Throw SyntaxError)
                                  end) ;;
                     match parsed with
                     | JArr items =>
                         Store.for_each Store.load_record items ;;;
                         modify (Store.set_initialized true)
                     | _ => throw TypeError
                     end)%eff s0))).
  { intros s0 H0. unfold mbind at 1.
    destruct (Store.file s0) as [| |parsed]; cbn [fst]; try exact H0.
    destruct parsed as [| |b|n| |neg|str|items|fields]; try exact H0.
    unfold mbind. specialize (Heach items s0 H0).
    destruct (Store.for_each Store.load_record items s0) as [s1 [[]|e]]; cbn [fst] in *;
      [apply Hflag|]; exact Heach. }
  unfold mbind at 1. unfold Store.ensureInstancesFile.
  destruct (Store.file s); apply Hgo; try exact H. apply Hfile, H.
Qed.

(** Whatever the file holds, what [init] loads from it into a new store
    is in the form it keeps. *)
Lemma normal_init (f : Store.File) : Service.normal (fst (Store.init (Store.new f))).
Proof.
  apply (init_keeps Service.normal).
  - intros item s Hn. unfold Store.load_record.
    destruct (member item "id") as [id|e]; [|exact Hn].
    destruct id; try exact Hn.
    apply normal_insert; [exact Hn | reflexivity | |]; apply truthy_or_else; reflexivity.
  - intros b s Hn. exact Hn.
  - intros f' s Hn. exact Hn.
  - intros id r H. cbn in H. rewrite lookup_empty in H. discriminate.
Qed.

Lemma strays_apart_init (f : Store.File) :
  Service.strays_apart (fst (Store.init (Store.new f))).
Proof.
  apply (init_keeps Service.strays_apart).
  - intros item s Hn. unfold Store.load_record.
    destruct (member item "id") as [id|e]; [|exact Hn].
    destruct id; try exact Hn;
      intros row key Hin; cbn in Hin; apply set_stray_elem in Hin as [-> | Hin];
      try discriminate; apply (Hn _ _ Hin).
  - intros b s Hn. exact Hn.
  - intros f' s Hn. exact Hn.
  - intros row key H. cbn in H. inversion H.
Qed.

Lemma started_store (env : Env) (f : Store.File) (dirs : gset string) :
  store (Service.started env f dirs) = fst (Store.init (Store.new f)).
Proof.
  unfold Service.started, Boot.bootstrap.
  destruct (Store.init (Store.new f)) as [st [[]|e]] eqn:E; [|reflexivity].
  unfold Boot.initExistingInstances, mbind, gets.
  match goal with
  | |- context [Boot.init_all env ?l ?w] =>
      destruct (init_all_store env l w) as [H _]; rewrite H
  end.
  reflexivity.
Qed.

(** The form of the catalog in every state the service reaches. *)
Lemma reached_normal (env : Env) (f : Store.File) (dirs : gset string)
    (inputs : list Service.Input) :
  Service.normal (store (Service.serve inputs (Service.started env f dirs)))
  /\ Service.strays_apart (store (Service.serve inputs (Service.started env f dirs))).
Proof.
  split.
  - apply (serve_preserves Service.normal) with (ok := fun _ => True).
    + intros id metadata s. apply normal_create.
    + intros id s. apply normal_delete.
    + intros id status s. apply normal_updateStatus.
    + intros env' id s _ Hs. unfold store_after_rm.
      destruct (authDir id); [exact Hs|]. destruct (rm_takes_catalog env' id); exact Hs.
    + apply removals_any.
    + rewrite started_store. apply normal_init.
  - apply (serve_preserves Service.strays_apart) with (ok := fun _ => True).
    + intros id metadata s H row key. rewrite strays_create. apply H.
    + intros id s H row key. rewrite strays_delete. apply H.
    + intros id status s _ H row key. rewrite strays_updateStatus. apply H.
    + intros env' id s _ Hs. unfold store_after_rm.
      destruct (authDir id); [exact Hs|]. destruct (rm_takes_catalog env' id); exact Hs.
    + apply removals_any.
    + rewrite started_store. apply strays_apart_init.
Qed.

(** What lies beside the string keys is what the start-up file brought
    in: nothing else puts a record there. *)
Lemma catalog_strays_kept (env : Env) (f : Store.File) (dirs : gset string)
    (inputs : list Service.Input) :
  Store.strays (fst (Store.init (Store.new f))) = [] ->
  Store.strays (store (Service.serve inputs (Service.started env f dirs))) = [].
Proof.
  intros Hnone.
  apply (serve_preserves (fun s => Store.strays s = [])) with (ok := fun _ => True).
  - intros id metadata s. rewrite strays_create. auto.
  - intros id s. rewrite strays_delete. auto.
  - intros id status s _. rewrite strays_updateStatus. auto.
  - intros env' id s _ Hs. rewrite (proj1 (proj2 (store_after_rm_memory env' id s))).
    exact Hs.
  - apply removals_any.
  - rewrite started_store. exact Hnone.
Qed.

(** X13. Whatever the catalog file holds at start-up, in every state the
    service reaches each record of the catalog under a string key sits
    under its own identifier and has a truthy status and metadata, and
    no record beside them has a string for [id]. So whenever the file is
    the last snapshot written by [save], a restart reads it without
    failure and loads back every such record with its status and
    metadata as [JSON.stringify] writes them: the same record when they
    are written as they are, and with the default of [init] in place of
    what is written as [null] or left out. *)
Theorem catalog_normal_and_reloadable (env : Env) (f : Store.File) (dirs : gset string)
    (inputs : list Service.Input) :
  Service.normal (store (Service.serve inputs (Service.started env f dirs)))
  /\ Service.strays_apart (store (Service.serve inputs (Service.started env f dirs)))
  /\ (Store.file (store (Service.serve inputs (Service.started env f dirs)))
      = Store.file
          (fst (Store.save (store (Service.serve inputs (Service.started env f dirs)))))
      ->
      exists s',
        Store.init
          (Store.new
             (Store.file (store (Service.serve inputs (Service.started env f dirs)))))
        = (s', Ok tt)
        /\ Store.instances s'
           = Store.reloaded
               <$> Store.instances
                     (store (Service.serve inputs (Service.started env f dirs)))
        /\ forall id r,
             Store.instances
               (store (Service.serve inputs (Service.started env f dirs))) !! id = Some r ->
             json (Store.inst_status r) = Store.inst_status r ->
             json (Store.inst_metadata r) = Store.inst_metadata r ->
             Store.instances s' !! id = Some r).
Proof.
  destruct (reached_normal env f dirs inputs) as [Hn Ha].
  split; [exact Hn|]. split; [exact Ha|].
  intros Hfile. rewrite Hfile.
  destruct (reload_run (store (Service.serve inputs (Service.started env f dirs))))
    as (s' & Hinit & Hinst & _ & _);
    [intros id r Hr; apply (Hn id r Hr) | exact Ha |].
  exists s'. split; [exact Hinit|]. split; [exact Hinst|].
  intros id r Hr Hs Hm. destruct (Hn id r Hr) as (_ & Hts & Htm).
  rewrite Hinst, lookup_fmap, Hr. cbn. f_equal. apply reloaded_same; assumption.
Qed.

(** The theorem on a start from the file whose record has the status
    [bogus], followed by the creation of [b]: the file is then a
    snapshot, and reading it back gives the two records. *)
Lemma catalog_normal_and_reloadable_witness :
  exists s',
    Store.init
      (Store.new
         (Store.file
            (store (Service.serve
                      [Service.PostInstances (Samples.env_online 0)
                         (JObj [("id", JStr "b")])]
                      (Service.started (Samples.env_online 0) Samples.bogus_file ∅)))))
    = (s', Ok tt)
    /\ Store.instances s' !! "a" = Some (Samples.inst "a" "bogus")
    /\ Store.instances s' !! "b" = Some (Samples.inst "b" "pending_qr").
Proof.
  destruct (catalog_normal_and_reloadable (Samples.env_online 0) Samples.bogus_file ∅
              [Service.PostInstances (Samples.env_online 0) (JObj [("id", JStr "b")])])
    as (_ & _ & H).
  destruct H as (s' & Hinit & _ & Hsame); [vm_compute; reflexivity|].
  exists s'. split; [exact Hinit|].
  split; apply Hsame; vm_compute; reflexivity.
Defined.

End CatalogWriters.

(** ** The life of a QR code *)

Section QrLifecycle.
Import Js Eff Messages Manager.

(** The QR block when the update carries a QR text. *)
Lemma on_qr_given (env : Env) (id : string) (update : ConnectionUpdate) (w : World)
    (session : Session) (text : string) :
  sessions w !! id = Some session ->
  u_qr update = Some text -> text <> "" ->
  exists w1,
    on_qr env id update w = (w1, Ok tt)
    /\ sessions w1
       = <[id := set_qr
                   (Some {| qr_type := "base64";
                            qr_value :=
                              default JUndefined
                                (JStr <$> split (toDataURL env text) 44 !! 1%nat);
                            qr_expiresAt := now env + QR_EXPIRATION_MS |})
                   session]> (sessions w)
    /\ auth_dirs w1 = auth_dirs w
    /\ trace w1 = trace w
    /\ (forall instance, Store.instances (store w) !! id = Some instance ->
        Store.instances (store w1) !! id
        = Some {| Store.inst_id := Store.inst_id instance;
                  Store.inst_status := JStr "pending_qr";
                  Store.inst_metadata := Store.inst_metadata instance |}).
Proof.
  intros Hs Hq Ht. unfold on_qr.
  rewrite Hq, (proj2 (given_Some (Some text) text) (conj eq_refl Ht)). cbv zeta.
  rewrite (mbind_run _ _ _ _ _ (update_session_run id _ w session Hs)).
  set (w0 := set_sessions _ w).
  destruct (on_store_updateStatus_run id (JStr "pending_qr") w0)
    as (st & r & Hrun & Hinst); [left; reflexivity|].
  rewrite (mbind_run _ _ _ _ _ Hrun).
  eexists. split; [reflexivity|]. cbn. repeat split.
  intros instance Hi. rewrite Hinst. cbn. rewrite Hi. apply lookup_insert_eq.
Qed.

Lemma handle_as_blocks (env : Env) (id : string) (update : ConnectionUpdate) (w w1 : World)
    (session : Session) :
  sessions w !! id = Some session ->
  on_qr env id update w = (w1, Ok tt) ->
  handleConnectionUpdate env id update w = on_connection env id update w1.
Proof.
  intros Hs Hqr. unfold handleConnectionUpdate. unfold mbind at 1. cbn [gets].
  rewrite Hs, (mbind_run _ _ _ _ _ Hqr). reflexivity.
Qed.

(** The connection block when the phase is neither [open] nor [close]:
    at most the phase of the session is written. *)
Lemma on_connection_other (env : Env) (id : string) (update : ConnectionUpdate)
    (w : World) (session : Session) :
  sessions w !! id = Some session ->
  u_connection update <> Some "open" -> u_connection update <> Some "close" ->
  exists w' session',
    on_connection env id update w = (w', Ok tt)
    /\ sessions w' !! id = Some session'
    /\ qr session' = qr session
    /\ store w' = store w.
Proof.
  intros Hs Hopen Hclose. unfold on_connection.
  destruct (given (u_connection update)) as [phase|] eqn:Hg.
  2: { exists w, session. repeat split. exact Hs. }
  apply given_Some in Hg as [Hu _]. rewrite Hu in Hopen, Hclose.
  rewrite (mbind_run _ _ _ _ _ (update_session_run id _ w session Hs)).
  destruct (String.eqb_spec phase "open") as [-> | _]; [contradiction|].
  destruct (String.eqb_spec phase "close") as [-> | _]; [contradiction|].
  eexists _, _. split; [reflexivity|]. cbn.
  split; [apply lookup_insert_eq|]. split; reflexivity.
Qed.

(** X14. Let a connection update bring a QR text to a registered session.
    When it brings no phase with it, or a phase other than [open] and
    [close], or [close] with a status code other than
    [DisconnectReason.loggedOut], the handler returns normally and the
    session then holds a QR code that expires two minutes after the
    update: read at the time of the update it has 120 seconds left, read
    at any time it has [max(0, floor((t + 120000 - now) / 1000))], and a
    later [open] update removes it, [getQRCode] then returning [null].
    The instance, if it is in the catalog, is then [pending_qr], or
    [disconnected] when the phase is [close]. When the update brings the
    phase [open] itself, the code is removed before the handler returns:
    [getQRCode] returns [null] and the instance is [ready]. When it
    brings [close] with the code [loggedOut], the session is removed and
    [getQRCode] returns [null]. *)
Theorem qr_issued_read_cleared (env env' env2 : Env) (id text : string) (w : World)
    (session : Session) (phase : option string) (code : option Z) :
  sessions w !! id = Some session -> text <> "" ->
  let update := {| u_qr := Some text; u_connection := phase; u_statusCode := code |} in
  let w1 := fst (handleConnectionUpdate env id update w) in
  let status_is := fun status : string =>
    forall instance, Store.instances (store w) !! id = Some instance ->
      Store.inst_status <$> Store.instances (store w1) !! id = Some (JStr status) in
  let readable :=
    snd (handleConnectionUpdate env id update w) = Ok tt
    /\ getQRCode env' id w1
       = Some {| r_instanceId := id;
                 r_type := "base64";
                 r_value := default JUndefined
                              (JStr <$> split (toDataURL env text) 44 !! 1%nat);
                 r_expiresIn := Z.max 0 ((now env + 120000 - now env') / 1000) |}
    /\ r_expiresIn <$> getQRCode env id w1 = Some 120%Z
    /\ getQRCode env'
         id (fst (handleConnectionUpdate env2 id
                    {| u_qr := None; u_connection := Some "open"; u_statusCode := None |}
                    w1))
       = None in
  (phase <> Some "open" -> phase <> Some "close" -> readable /\ status_is "pending_qr")
  /\ (phase = Some "close" ->
      status_is "disconnected"
      /\ (code <> Some (loggedOut env) -> readable)
      /\ (code = Some (loggedOut env) -> getQRCode env' id w1 = None))
  /\ (phase = Some "open" ->
      snd (handleConnectionUpdate env id update w) = Ok tt
      /\ getQRCode env' id w1 = None
      /\ status_is "ready").
Proof.
  intros Hs Ht update w1 status_is readable.
  destruct (on_qr_given env id update w session text Hs eq_refl Ht)
    as (w0 & Hqr & Hsess & _ & _ & Hinst).
  set (q := {| qr_type := "base64";
               qr_value := default JUndefined
                             (JStr <$> split (toDataURL env text) 44 !! 1%nat);
               qr_expiresAt := now env + QR_EXPIRATION_MS |}) in *.
  assert (Hs0 : sessions w0 !! id = Some (set_qr (Some q) session))
    by (rewrite Hsess; apply lookup_insert_eq).
  pose proof (handle_as_blocks env id update w w0 session Hs Hqr) as Hblocks.
  assert (Hreadable : forall session1,
            handleConnectionUpdate env id update w = (w1, Ok tt) ->
            sessions w1 !! id = Some session1 -> qr session1 = Some q -> readable).
  { intros session1 Hrun Hs1 Hq1. unfold readable.
    split; [rewrite Hrun; reflexivity|].
    split; [rewrite (getQRCode_Some env' id w1 _ _ Hs1 Hq1); reflexivity|].
    split.
    - rewrite (getQRCode_Some env id w1 _ _ Hs1 Hq1). cbn.
      replace (now env + QR_EXPIRATION_MS - now env)%Z with 120000%Z
        by (unfold QR_EXPIRATION_MS; lia).
      reflexivity.
    - assert (Hnone : on_qr env2 id
                        {| u_qr := None; u_connection := Some "open";
                           u_statusCode := None |}
                        w1 = (w1, Ok tt)) by reflexivity.
      rewrite (handle_as_blocks env2 id _ w1 w1 _ Hs1 Hnone).
      destruct (on_connection_open env2 id
                  {| u_qr := None; u_connection := Some "open"; u_statusCode := None |}
                  w1 _ Hs1 eq_refl) as (w2 & -> & Hs2 & _).
      apply getQRCode_None. intros s0 Hs0'. cbn [fst] in Hs0'.
      rewrite Hs2 in Hs0'. injection Hs0' as <-. reflexivity. }
  split; [|split].
  - intros Hopen Hclose.
    destruct (on_connection_other env id update w0 _ Hs0 Hopen Hclose)
      as (w' & session' & Hrun & Hs' & Hq' & Hstore).
    assert (Hw1 : w1 = w') by (unfold w1; rewrite Hblocks, Hrun; reflexivity).
    split.
    + apply (Hreadable session').
      * rewrite Hblocks, Hrun, Hw1. reflexivity.
      * rewrite Hw1. exact Hs'.
      * rewrite Hq'. reflexivity.
    + intros instance Hi. rewrite Hw1, Hstore, (Hinst instance Hi). reflexivity.
  - intros Hphase.
    destruct (on_connection_close env id update w0 _ Hs0 Hphase)
      as (w' & Hrun & Hstatus & Hout & Hstay).
    assert (Hw1 : w1 = w') by (unfold w1; rewrite Hblocks, Hrun; reflexivity).
    split; [|split].
    + intros instance Hi. rewrite Hw1, (Hstatus _ (Hinst instance Hi)). reflexivity.
    + intros Hcode. destruct (Hstay Hcode) as (_ & Hs').
      apply (Hreadable (set_connection "close" (set_qr (Some q) session))).
      * rewrite Hblocks, Hrun, Hw1. cbn [u_statusCode update] in *.
        destruct (decide (code = Some (loggedOut env))); [contradiction | reflexivity].
      * rewrite Hw1. exact Hs'.
      * reflexivity.
    + intros Hcode. destruct (Hout Hcode) as (Hs' & _).
      apply getQRCode_None. intros s0 Hs0'. rewrite Hw1, Hs' in Hs0'. discriminate.
  - intros Hphase.
    destruct (on_connection_open env id update w0 _ Hs0 Hphase)
      as (w' & Hrun & Hs' & _ & Hstatus).
    assert (Hw1 : w1 = w') by (unfold w1; rewrite Hblocks, Hrun; reflexivity).
    split; [rewrite Hblocks, Hrun; reflexivity|].
    split.
    + apply getQRCode_None. intros s0 Hs0'. rewrite Hw1, Hs' in Hs0'.
      injection Hs0' as <-. reflexivity.
    + intros instance Hi. rewrite Hw1, (Hstatus _ (Hinst instance Hi)). reflexivity.
Qed.

(** The theorem on the instance [a], with the text [q] at time 1000:
    alone, with the phase [connecting], and with a [close] that is no
    logout. *)
Lemma qr_issued_read_cleared_witness :
  (exists w1,
     handleConnectionUpdate (Samples.env_at 1000) "a"
       {| u_qr := Some "q"; u_connection := None; u_statusCode := None |}
       (Samples.world_a "ready" "close")
     = (w1, Ok tt)
     /\ r_expiresIn <$> getQRCode (Samples.env_at 1000) "a" w1 = Some 120%Z
     /\ r_value <$> getQRCode (Samples.env_at 1000) "a" w1 = Some (JStr "q"))
  /\ r_expiresIn
       <$> getQRCode (Samples.env_at 1000) "a"
             (fst (handleConnectionUpdate (Samples.env_at 1000) "a"
                     {| u_qr := Some "q"; u_connection := Some "connecting";
                        u_statusCode := None |}
                     (Samples.world_a "ready" "close")))
     = Some 120%Z
  /\ r_expiresIn
       <$> getQRCode (Samples.env_at 1000) "a"
             (fst (handleConnectionUpdate (Samples.env_at 1000) "a"
                     {| u_qr := Some "q"; u_connection := Some "close";
                        u_statusCode := Some 500%Z |}
                     (Samples.world_a "ready" "close")))
     = Some 120%Z.
Proof.
  split; [|split].
  - destruct (qr_issued_read_cleared (Samples.env_at 1000) (Samples.env_at 1000)
                (Samples.env_at 2000) "a" "q" (Samples.world_a "ready" "close") _
                None None (lookup_singleton_eq _ _) ltac:(discriminate))
      as (Hplain & _).
    destruct Hplain as ((Hrun & Hread & Hleft & _) & _); [discriminate | discriminate |].
    eexists. split; [|split; [exact Hleft | rewrite Hread; reflexivity]].
    rewrite <- Hrun. apply surjective_pairing.
  - destruct (qr_issued_read_cleared (Samples.env_at 1000) (Samples.env_at 1000)
                (Samples.env_at 2000) "a" "q" (Samples.world_a "ready" "close") _
                (Some "connecting") None (lookup_singleton_eq _ _) ltac:(discriminate))
      as (Hother & _).
    destruct Hother as ((_ & _ & Hleft & _) & _); [discriminate | discriminate |].
    exact Hleft.
  - destruct (qr_issued_read_cleared (Samples.env_at 1000) (Samples.env_at 1000)
                (Samples.env_at 2000) "a" "q" (Samples.world_a "ready" "close") _
                (Some "close") (Some 500%Z) (lookup_singleton_eq _ _)
                ltac:(discriminate))
      as (_ & Hclose & _).
    destruct (Hclose eq_refl) as (_ & Hstay & _).
    destruct Hstay as (_ & _ & Hleft & _); [vm_compute; discriminate|].
    exact Hleft.
Defined.

End QrLifecycle.

(** ** What reaches the chat client *)

Section SendDispatch.
Import Js Eff Messages Manager.
Local Open Scope list_scope.

Lemma bytes_append (a b : string) : bytes (a +:+ b) = bytes a ++ bytes b.
Proof.
  unfold bytes. induction a as [|x a IH]; [reflexivity|].
  change (String x a +:+ b) with (String x (a +:+ b)).
  cbn [list_ascii_of_string map app]. f_equal. exact IH.
Qed.

Lemma includes_append_r (a b : string) (c : N) :
  includes b c = true -> includes (a +:+ b) c = true.
Proof.
  unfold includes. rewrite bytes_append, existsb_app. intros ->. apply orb_true_r.
Qed.

Lemma jid_has_at (to : string) :
  includes (if includes to 64 then to else to +:+ "@s.whatsapp.net") 64 = true.
Proof.
  destruct (includes to 64) eqn:E; [exact E|].
  apply includes_append_r. reflexivity.
Qed.

(** Lines 465 to 497, seen from outside: what they add to the trace. *)
Lemma sendMessage_trace (env : Env) (id to : string) (payload : JsVal) (w : World) :
  is_Some (Store.instances (store w) !! id) ->
  exists new,
    trace (fst (Routes.sendMessage env id to payload w)) = trace w ++ new
    /\ store (fst (Routes.sendMessage env id to payload w)) = store w
    /\ (exists r, snd (Routes.sendMessage env id to payload w) = Ok r)
    /\ forall i jid content, CallSendMessage i jid content ∈ new ->
         i = id
         /\ (exists session, sessions w !! id = Some session
                             /\ connection session = "open")
         /\ buildMessageContent payload = Ok content
         /\ jid = (if includes to 64 then to else to +:+ "@s.whatsapp.net").
Proof.
  intros Hi. unfold Routes.sendMessage.
  destruct (sessions w !! id) as [session|] eqn:Hs.
  - rewrite (mbind_run _ _ _ _ _ (getOrCreateSession_existing env id w session Hs)).
    destruct (String.eqb_spec (connection session) "open") as [Hopen | Hclosed]; cbn [negb].
    + destruct (buildMessageContent payload) as [content|e] eqn:Hc.
      * unfold mbind, emit, modify, ret. cbn.
        destruct (bind _ _); cbn; rewrite <- ?app_assoc; eexists;
          (split; [reflexivity|]); (split; [reflexivity|]); (split; [eexists; reflexivity|]);
          intros i jid c Hin; cbn in Hin;
          repeat (apply elem_of_cons in Hin as [Hin | Hin]; [|]);
          try (apply elem_of_nil in Hin; contradiction);
          try discriminate Hin;
          injection Hin as -> -> ->; eauto 10.
      * exists []. rewrite app_nil_r. cbn. repeat split; [eexists; reflexivity|..];
          apply elem_of_nil in H; contradiction.
    + exists []. rewrite app_nil_r. cbn. repeat split; [eexists; reflexivity|..];
        apply elem_of_nil in H; contradiction.
  - unfold mbind, attempt, getOrCreateSession. rewrite Hs.
    rewrite (initializeForInstance_fresh env id w Hs Hi).
    destruct (makeWASocket env id) as [sk|e]; cbn.
    + exists []. rewrite app_nil_r. repeat split; [eexists; reflexivity|..];
        apply elem_of_nil in H; contradiction.
    + exists [ConsoleError id]. repeat split; [eexists; reflexivity|..];
        apply elem_of_cons in H as [H | H]; try discriminate H;
        apply elem_of_nil in H; contradiction.
Qed.

(** X15. Whatever the body of a [POST /messages] request, the handler
    never throws and never writes the catalog, and [sendMessage] is
    called on the chat client only for an instance of the catalog named
    by [instanceId], whose session existed in phase [open], with the
    content that [buildMessageContent] built from the body and with a
    destination that contains [@]. *)
Theorem post_messages_dispatch (env : Env) (body : JsVal) (w : World) :
  exists new,
    trace (fst (Routes.post_messages env body w)) = trace w ++ new
    /\ store (fst (Routes.post_messages env body w)) = store w
    /\ (exists r, snd (Routes.post_messages env body w) = Ok r)
    /\ forall id jid content, CallSendMessage id jid content ∈ new ->
         member_opt (or_else body (JObj [])) "instanceId" = JStr id
         /\ is_Some (Store.instances (store w) !! id)
         /\ (exists session, sessions w !! id = Some session
                             /\ connection session = "open")
         /\ buildMessageContent (or_else body (JObj [])) = Ok content
         /\ includes jid 64 = true.
Proof.
  assert (Hquiet : forall r : Routes.Response,
            exists new,
              trace (fst (ret r w)) = trace w ++ new
              /\ store (fst (ret r w)) = store w
              /\ (exists r0, snd (ret r w) = Ok r0)
              /\ forall id jid content, CallSendMessage id jid content ∈ new ->
                   member_opt (or_else body (JObj [])) "instanceId" = JStr id
                   /\ is_Some (Store.instances (store w) !! id)
                   /\ (exists session, sessions w !! id = Some session
                                       /\ connection session = "open")
                   /\ buildMessageContent (or_else body (JObj [])) = Ok content
                   /\ includes jid 64 = true).
  { intros r. exists []. rewrite app_nil_r. cbn.
    repeat split; [eexists; reflexivity|..]; apply elem_of_nil in H; contradiction. }
  unfold Routes.post_messages.
  destruct (Routes.nonempty_string (member_opt (or_else body (JObj [])) "instanceId"))
    as [id|] eqn:Hid; [|apply Hquiet].
  destruct (Routes.nonempty_string (member_opt (or_else body (JObj [])) "to"))
    as [to|] eqn:Hto; [|apply Hquiet].
  destruct (Routes.nonempty_string (member_opt (or_else body (JObj [])) "type"))
    as [ty|] eqn:Hty; [|apply Hquiet].
  rewrite (mbind_run _ _ w w (Store.instances (store w) !! id) eq_refl).
  destruct (Store.instances (store w) !! id) as [instance|] eqn:Hi; [|apply Hquiet].
  destruct (sendMessage_trace env id to (or_else body (JObj [])) w)
    as (new & Htr & Hst & Hret & Hsend); [eauto|].
  exists new. split; [exact Htr|]. split; [exact Hst|]. split; [exact Hret|].
  intros i jid content Hin.
  destruct (Hsend i jid content Hin) as (-> & Hsess & Hc & ->).
  apply nonempty_string_Some in Hid as [Hid _].
  split; [exact Hid|]. split; [eauto|]. split; [exact Hsess|]. split; [exact Hc|].
  apply jid_has_at.
Qed.

(** The theorem on a text message for [a], whose session is open: the
    message goes out and the catalog is as before. *)
Lemma post_messages_dispatch_witness :
  store (fst (Routes.post_messages (Samples.env_online 0)
                (JObj [("instanceId", JStr "a"); ("to", JStr "5511999990000");
                       ("type", JStr "text"); ("message", JStr "hi")])
                (Samples.world_a "ready" "open")))
  = store (Samples.world_a "ready" "open").
Proof.
  destruct (post_messages_dispatch (Samples.env_online 0)
              (JObj [("instanceId", JStr "a"); ("to", JStr "5511999990000");
                     ("type", JStr "text"); ("message", JStr "hi")])
              (Samples.world_a "ready" "open")) as (new & _ & H & _).
  exact H.
Defined.

End SendDispatch.

(** ** No session without an instance *)

Section NoOrphanSessions.
Import Js Eff Messages Manager.

Lemma catalogued_transfer (w w' : World) :
  (forall id, is_Some (sessions w' !! id) -> is_Some (sessions w !! id)) ->
  (forall id, is_Some (Store.instances (store w) !! id) ->
              is_Some (Store.instances (store w') !! id)) ->
  Service.sessions_catalogued w -> Service.sessions_catalogued w'.
Proof.
  intros Hs Hi H id session Hid. apply Hi.
  destruct (Hs id) as [s0 Hs0]; [eauto|]. eapply H, Hs0.
Qed.

Lemma catalogued_ret {A : Type} (a : A) : Service.keeps_catalogued (ret a).
Proof. intros w H. exact H. Qed.

Lemma catalogued_gets {A : Type} (f : World -> A) : Service.keeps_catalogued (gets f).
Proof. intros w H. exact H. Qed.

Lemma catalogued_bind {A B : Type} (m : M World A) (k : A -> M World B) :
  Service.keeps_catalogued m -> (forall a, Service.keeps_catalogued (k a)) ->
  Service.keeps_catalogued (mbind m k).
Proof.
  intros Hm Hk w H. unfold mbind. specialize (Hm w H).
  destruct (m w) as [w' [a | e]]; cbn in *; [apply Hk|]; exact Hm.
Qed.

Lemma catalogued_attempt {A : Type} (m : M World A) :
  Service.keeps_catalogued m -> Service.keeps_catalogued (attempt m).
Proof.
  intros Hm w H. unfold attempt. specialize (Hm w H).
  destruct (m w) as [w' r]. exact Hm.
Qed.

Lemma catalogued_emit (e : Event) : Service.keeps_catalogued (emit e).
Proof. intros w H. exact H. Qed.

Lemma catalogued_update_session (id : string) (f : Session -> Session) :
  Service.keeps_catalogued (update_session id f).
Proof.
  intros w H. unfold update_session, modify. cbn.
  destruct (sessions w !! id) as [session|] eqn:E; [|exact H].
  apply (catalogued_transfer w); [| intros i Hi; exact Hi | exact H].
  intros i. cbn. rewrite lookup_insert. case_decide; [subst; eauto | auto].
Qed.

Lemma catalogued_on_store {A : Type} (m : M Store.State A) :
  Service.keeps_ids m -> Service.keeps_catalogued (on_store m).
Proof.
  intros Hm w H. unfold on_store. pose proof (Hm (store w)) as Hk.
  destruct (m (store w)) as [st r]. cbn in *.
  apply (catalogued_transfer w); [intros i Hi; exact Hi | exact Hk | exact H].
Qed.

Lemma keeps_ids_create (id : string) (metadata : JsVal) :
  Service.keeps_ids (Store.create id metadata).
Proof.
  intros s i Hi. unfold Store.create.
  destruct (negb _); [exact Hi|].
  destruct (Store.instances s !! id); [exact Hi|].
  cbn. rewrite lookup_insert. case_decide; [eauto | exact Hi].
Qed.

Lemma keeps_ids_updateStatus (id : string) (status : JsVal) :
  Service.keeps_ids (Store.updateStatus id status).
Proof.
  intros s i Hi. unfold Store.updateStatus.
  destruct (negb _); [exact Hi|].
  destruct (Store.instances s !! id); [|exact Hi].
  cbn. rewrite lookup_insert. case_decide; [eauto | exact Hi].
Qed.

(** A session is opened only for an instance that [store.get] finds. *)
Lemma catalogued_initializeForInstance (env : Env) (id : string) :
  Service.keeps_catalogued (initializeForInstance env id).
Proof.
  intros w H. unfold initializeForInstance.
  destruct (sessions w !! id); [exact H|].
  destruct (Store.get id (store w)) as [instance|] eqn:Hg; [|exact H].
  unfold mbind, modify. cbn.
  destruct (makeWASocket env id); [|exact H].
  intros i session. cbn. rewrite lookup_insert.
  case_decide; [subst; intros _; exists instance; exact Hg | apply H].
Qed.

Lemma catalogued_getOrCreateSession (env : Env) (id : string) :
  Service.keeps_catalogued (getOrCreateSession env id).
Proof.
  intros w H. unfold getOrCreateSession.
  destruct (sessions w !! id); [exact H|].
  apply catalogued_initializeForInstance, H.
Qed.

Lemma catalogued_cleanupSession (env : Env) (id : string) (keepData : bool) :
  Service.keeps_catalogued (cleanupSession env id keepData).
Proof.
  intros w H. destruct (cleanupSession_memory env id keepData w) as (Hsess & Hmem & _).
  intros i session. rewrite Hsess, Hmem, lookup_delete.
  case_decide; [discriminate | apply H].
Qed.

(** Splits a method along its binds and branches. *)
Ltac catalogued_step :=
  match goal with
  | |- Service.keeps_catalogued (mbind _ _) => apply catalogued_bind; [|intros ?]
  | |- Service.keeps_catalogued (ret _) => apply catalogued_ret
  | |- Service.keeps_catalogued (gets _) => apply catalogued_gets
  | |- Service.keeps_catalogued (emit _) => apply catalogued_emit
  | |- Service.keeps_catalogued (attempt _) => apply catalogued_attempt
  | |- Service.keeps_catalogued (update_session _ _) => apply catalogued_update_session
  | |- Service.keeps_catalogued (cleanupSession _ _ _) => apply catalogued_cleanupSession
  | |- Service.keeps_catalogued (initializeForInstance _ _) =>
      apply catalogued_initializeForInstance
  | |- Service.keeps_catalogued (getOrCreateSession _ _) =>
      apply catalogued_getOrCreateSession
  | |- Service.keeps_catalogued (on_store (Store.updateStatus _ _)) =>
      apply catalogued_on_store, keeps_ids_updateStatus
  | |- Service.keeps_catalogued (on_store (Store.create _ _)) =>
      apply catalogued_on_store, keeps_ids_create
  | |- Service.keeps_catalogued (match ?x with _ => _ end) => destruct x
  | |- Service.keeps_catalogued (if ?b then _ else _) => destruct b
  | |- Service.keeps_catalogued (let _ := _ in _) => cbv zeta
  end.

Lemma catalogued_handleConnectionUpdate (env : Env) (id : string)
    (update : ConnectionUpdate) :
  Service.keeps_catalogued (handleConnectionUpdate env id update).
Proof.
  unfold handleConnectionUpdate, on_qr, on_connection. repeat catalogued_step.
Qed.

Lemma catalogued_post_messages (env : Env) (req_body : JsVal) :
  Service.keeps_catalogued (Routes.post_messages env req_body).
Proof.
  unfold Routes.post_messages, Routes.sendMessage. repeat catalogued_step.
Qed.

Lemma catalogued_get_qrcode (env : Env) (instanceId : JsVal) :
  Service.keeps_catalogued (Http.get_qrcode env instanceId).
Proof. unfold Http.get_qrcode. repeat catalogued_step. Qed.

Lemma catalogued_post_instances (env : Env) (req_body : JsVal) :
  Service.keeps_catalogued (Http.post_instances env req_body).
Proof. unfold Http.post_instances. repeat catalogued_step. Qed.

Lemma catalogued_patch_status (id : string) (req_body : JsVal) :
  Service.keeps_catalogued (Http.patch_status id req_body).
Proof. unfold Http.patch_status. repeat catalogued_step. Qed.

(** [DELETE] drops the record after the session: the one method that
    takes an identifier out of the catalog has closed its session first. *)
Lemma catalogued_delete_instance (env : Env) (id : string) :
  Service.keeps_catalogued (Http.delete_instance env id).
Proof.
  intros w H. unfold Http.delete_instance.
  rewrite (mbind_run _ _ w w (Store.get id (store w)) eq_refl).
  destruct (Store.get id (store w)) as [instance|] eqn:Hg; [|exact H].
  destruct (cleanupSession_memory env id false w) as (Hsess & Hmem & _).
  unfold mbind at 1.
  destruct (cleanupSession env id false w) as [w1 [[]|e]]; cbn [fst] in *.
  - assert (Hd : Store.delete id (store w1)
                 = (fst (Store.save
                           (Store.set_instances
                              (delete id (Store.instances (store w1))) (store w1))),
                    Ok true)).
    { apply delete_present. rewrite Hmem. exists instance. exact Hg. }
    unfold mbind, on_store. rewrite Hd.
    intros i session. unfold ret.
    cbn [fst sessions store set_store Store.save Store.instances
      Store.set_instances Store.set_file].
    rewrite Hsess, Hmem, !lookup_delete.
    case_decide; [discriminate | apply H].
  - intros i session. rewrite Hsess, Hmem, lookup_delete.
    case_decide; [discriminate | apply H].
Qed.

Lemma handle_catalogued (i : Service.Input) (w : World) :
  Service.sessions_catalogued w -> Service.sessions_catalogued (Service.handle i w).
Proof.
  intros H. destruct i; cbn [Service.handle].
  - apply catalogued_get_qrcode, H.
  - exact H.
  - apply catalogued_post_instances, H.
  - unfold Http.get_instance, mbind, gets.
    destruct (Store.get instanceId (store w)); exact H.
  - apply catalogued_delete_instance, H.
  - apply catalogued_patch_status, H.
  - apply catalogued_post_messages, H.
  - apply catalogued_handleConnectionUpdate, H.
Qed.

Lemma init_all_catalogued (env : Env) (l : list Store.Row) :
  Service.keeps_catalogued (Boot.init_all env l).
Proof.
  induction l as [|r l IH]; [apply catalogued_ret|].
  cbn [Boot.init_all]. unfold Boot.init_one. repeat catalogued_step; exact IH.
Qed.

Lemma started_catalogued (env : Env) (f : Store.File) (dirs : gset string) :
  Service.sessions_catalogued (Service.started env f dirs).
Proof.
  assert (Hempty : forall st tr,
            Service.sessions_catalogued
              {| store := st; sessions := ∅; auth_dirs := dirs; trace := tr |}).
  { intros st tr id session H. cbn in H. rewrite lookup_empty in H. discriminate. }
  unfold Service.started, Boot.bootstrap.
  destruct (Store.init (Store.new f)) as [st [[]|e]]; [|apply Hempty].
  unfold Boot.initExistingInstances.
  apply catalogued_bind; [apply catalogued_gets | intros l; apply init_all_catalogued |].
  apply Hempty.
Qed.

(** X16. Whatever the catalog file and the credential directories at
    start-up, and whatever requests and connection updates follow, taken
    one after the other, every session of the registry belongs to an
    instance of the catalog: a session is opened only for an instance
    that [store.get] finds, and the one route that removes a record
    closes its session first. Hence a connection update for an identifier
    that is not in the catalog changes nothing. *)
Theorem sessions_always_catalogued (env : Env) (f : Store.File) (dirs : gset string)
    (inputs : list Service.Input) :
  Service.sessions_catalogued (Service.serve inputs (Service.started env f dirs))
  /\ forall env' id update,
       Store.get id (store (Service.serve inputs (Service.started env f dirs))) = None ->
       handleConnectionUpdate env' id update
         (Service.serve inputs (Service.started env f dirs))
       = (Service.serve inputs (Service.started env f dirs), Ok tt).
Proof.
  assert (H : Service.sessions_catalogued
                (Service.serve inputs (Service.started env f dirs))).
  { generalize (started_catalogued env f dirs).
    generalize (Service.started env f dirs).
    induction inputs as [|i inputs IH]; intros w Hw; [exact Hw|].
    cbn. apply IH, handle_catalogued, Hw. }
  split; [exact H|].
  intros env' id update Hg. unfold handleConnectionUpdate, mbind, gets.
  destruct (sessions _ !! id) as [session|] eqn:Hs; [|reflexivity].
  destruct (H id session Hs) as [x Hx]. unfold Store.get in Hg. congruence.
Qed.

(** The theorem after a start from the file that holds [a] and the
    deletion of [a]: an update for [a] finds no session. *)
Lemma sessions_always_catalogued_witness :
  handleConnectionUpdate (Samples.env_online 0) "a"
    {| u_qr := Some "q"; u_connection := None; u_statusCode := None |}
    (Service.serve [Service.DeleteInstance (Samples.env_online 0) "a"]
       (Service.started (Samples.env_online 0) Samples.bogus_file ∅))
  = (Service.serve [Service.DeleteInstance (Samples.env_online 0) "a"]
       (Service.started (Samples.env_online 0) Samples.bogus_file ∅), Ok tt).
Proof.
  apply (sessions_always_catalogued (Samples.env_online 0) Samples.bogus_file ∅
           [Service.DeleteInstance (Samples.env_online 0) "a"]).
  vm_compute. reflexivity.
Defined.

End NoOrphanSessions.

(** ** The sessions opened at start-up *)

Section StartUpSessions.
Import Js Eff Messages Manager.
Local Open Scope list_scope.











End StartUpSessions.

(** ** The listing *)

Section ListingSpec.
Import Js Eff Messages Manager.
Local Open Scope list_scope.

Lemma ids_of_records (l : list (string * Store.Instance)) :
  (forall k r, (k, r) ∈ l -> Store.inst_id r = k) ->
  Store.inst_id <$> l.*2 = l.*1.
Proof.
  induction l as [|[k r] l IH]; intros H; [reflexivity|].
  cbn. f_equal.
  - apply H, elem_of_cons. left. reflexivity.
  - apply IH. intros k' r' Hin. apply H, elem_of_cons. right. exact Hin.
Qed.

(** X18. In every state the service reaches, [GET /instances] answers
    200 and changes nothing. It lists, in an order that is not told
    here, the records of the catalog under a string key, each of them
    once and no two under the same identifier, and beside them only
    records whose [id] is not a string, which nothing but the file read
    at start-up can have brought in. *)
Theorem get_instances_spec (env : Env) (f : Store.File) (dirs : gset string)
    (inputs : list Service.Input) :
  exists rows records others,
    Http.get_instances (Service.serve inputs (Service.started env f dirs))
    = (Service.serve inputs (Service.started env f dirs),
       Ok (Http.json 200 (JArr (Store.object_of <$> rows))))
    /\ rows ≡ₚ (Store.row_of <$> records) ++ others
    /\ NoDup (Store.inst_id <$> records)
    /\ (forall r, r ∈ records
                  <-> Store.get (Store.inst_id r)
                        (store (Service.serve inputs (Service.started env f dirs)))
                      = Some r)
    /\ (forall row key, row ∈ others -> Store.row_id row <> JStr key)
    /\ (Store.strays (fst (Store.init (Store.new f))) = [] -> others = []).
Proof.
  destruct (reached_normal env f dirs inputs) as [Hn Ha].
  exists (Store.list (store (Service.serve inputs (Service.started env f dirs)))),
    ((map_to_list
        (Store.instances
           (store (Service.serve inputs (Service.started env f dirs))))).*2),
    (Store.strays (store (Service.serve inputs (Service.started env f dirs)))).
  split; [reflexivity|]. split; [reflexivity|]. split.
  { rewrite ids_of_records.
    - apply NoDup_fst_map_to_list.
    - intros k r Hin. apply elem_of_map_to_list in Hin. apply (Hn k r Hin). }
  split.
  { intros r. unfold Store.get. rewrite list_elem_of_fmap. split.
    - intros ([id r'] & -> & Hin). apply elem_of_map_to_list in Hin. cbn.
      destruct (Hn id r' Hin) as (-> & _). exact Hin.
    - intros Hr. exists (Store.inst_id r, r). split; [reflexivity|].
      apply elem_of_map_to_list. exact Hr. }
  split; [exact Ha|].
  intros Hnone.
  apply (catalog_strays_kept env f dirs inputs). exact Hnone.
Qed.

(** The theorem after a start from the file that holds [a] and the
    creation of [b]. *)
Lemma get_instances_spec_witness :
  exists rows records,
    Http.get_instances
      (Service.serve [Service.PostInstances (Samples.env_online 0) (JObj [("id", JStr "b")])]
         (Service.started (Samples.env_online 0) Samples.bogus_file ∅))
    = (Service.serve [Service.PostInstances (Samples.env_online 0) (JObj [("id", JStr "b")])]
         (Service.started (Samples.env_online 0) Samples.bogus_file ∅),
       Ok (Http.json 200 (JArr (Store.object_of <$> rows))))
    /\ rows ≡ₚ Store.row_of <$> records
    /\ NoDup (Store.inst_id <$> records).
Proof.
  destruct (get_instances_spec (Samples.env_online 0) Samples.bogus_file ∅
              [Service.PostInstances (Samples.env_online 0) (JObj [("id", JStr "b")])])
    as (rows & records & others & H1 & Hp & H2 & _ & _ & H5).
  rewrite (H5 eq_refl), app_nil_r in Hp.
  exists rows, records. split; [exact H1|]. split; [exact Hp | exact H2].
Defined.

End ListingSpec.
